(** * Sparkfun Qwiic dashboards: a shallow embedding of the data plumbing

    The development follows the Python sources of the three applications:

    - [Qwiic_SensorsQT/data_manager.py]      (module [DataManager])
    - [Qwiic_SensorsQT/sensor_interface.py]  (module [SensorInterfaceQt])
    - [Qwiic_Sensors/sensor_interface.py]    (module [SensorInterfaceTk])
    - [Qwiic_SensorsQT/data_logger.py]       (module [DataLoggerQt])
    - [Qwiic_Sensors/sensor_reader.py]       (module [SensorReader])
    - [Qwiic_Sensors/data_logger.py]         (module [DataLoggerTk])
    - [Qwiic_SensorsQT/sensor_reader_thread.py]
                                             (module [SensorReaderThread])
    - [Sparkfun_Qwiic_GPS_NEO-M9N_SMA_GPS-17285/gps_dashboard_app.py]
                                             (module [TripAnalysis])

    Python floats are modelled as rationals ([Q]) next to an explicit NaN
    where the code produces one; dictionaries keyed by sensor name are
    [gmap string _]; [datetime] values are integers (microseconds).
    Whatever the environment decides (clock, hardware, file system,
    random generator, other threads) is an explicit argument. *)

From Stdlib Require Import ZArith QArith Qround Qabs Qminmax Lia Lqa Ascii String.
From stdpp Require Import gmap strings list fin_maps pretty.

Local Open Scope string_scope.
Local Open Scope list_scope.
Local Open Scope Z_scope.

(** ** Python exceptions that the modelled code can raise or catch *)

Inductive exn : Type :=
| IndexError
| KeyError (key : string)
| ValueError (msg : string)
| OSError (msg : string)
| RuntimeError (msg : string).

(** The text of an exception, as [f"{e}"] prints it. *)
Definition exn_text (e : exn) : string :=
  match e with
  | IndexError => "deque index out of range"
  | KeyError k => "'" +:+ k +:+ "'"
  | ValueError m => m
  | OSError m => m
  | RuntimeError m => m
  end.

(** ** collections.deque with a maximum length *)

Module Deque.

(** [deque.append] on a deque built with [maxlen]: the element goes to the
    right end and, when the bound is exceeded, one element is dropped from
    the left end.  [maxlen = None] is Python's unbounded deque. *)
Definition append {A : Type} (maxlen : option nat) (d : list A) (x : A) : list A :=
  let d' := d ++ [x] in
  match maxlen with
  | Some n => if (n <? length d')%nat then tail d' else d'
  | None => d'
  end.

(** The length after an append, from the length before it. *)
Definition appended_length (maxlen : option nat) (len : nat) : nat :=
  match maxlen with
  | Some n => if (n <? S len)%nat then len else S len
  | None => S len
  end.

End Deque.

(** ** data_manager.py *)

Module DataManager.

(** A [datetime], in microseconds. *)
Definition datetime : Type := Z.

Definition timedelta_minutes (m : Z) : Z := m * 60 * 1000000.
Definition timedelta_hours (h : Z) : Z := h * 3600 * 1000000.

Section WithData.
(** The type of one sensor reading (a dictionary in the source). *)
Context {D : Type}.

Record t : Type := mk {
  maxlen : option nat;
  sensor_data_history : list D;
  timestamps : list datetime
}.

(** [DataManager.__init__] *)
Definition init (max_data_points : option nat) : t :=
  {| maxlen := max_data_points; sensor_data_history := []; timestamps := [] |}.

(** [DataManager.add_data] *)
Definition add_data (dm : t) (timestamp : datetime) (data : D) : t :=
  {| maxlen := maxlen dm;
     sensor_data_history := Deque.append (maxlen dm) (sensor_data_history dm) data;
     timestamps := Deque.append (maxlen dm) (timestamps dm) timestamp |}.

(** A run of [add_data] calls on a fresh manager. *)
Definition add_all (dm : t) (calls : list (datetime * D)) : t :=
  fold_left (fun acc c => add_data acc (fst c) (snd c)) calls dm.

(** The [if]/[elif] chain that turns the range string into a limit. *)
Definition time_limit_of (current_time : datetime) (time_range_str : string)
  : option datetime :=
  if String.eqb time_range_str "Last 10 minutes" then
    Some (current_time - timedelta_minutes 10)
  else if String.eqb time_range_str "Last 30 minutes" then
    Some (current_time - timedelta_minutes 30)
  else if String.eqb time_range_str "Last hour" then
    Some (current_time - timedelta_hours 1)
  else if String.eqb time_range_str "Last 6 hours" then
    Some (current_time - timedelta_hours 6)
  else if String.eqb time_range_str "Last 24 hours" then
    Some (current_time - timedelta_hours 24)
  else None.

(** [time_limit is None or timestamp >= time_limit] *)
Definition keeps (time_limit : option datetime) (timestamp : datetime) : bool :=
  match time_limit with
  | None => true
  | Some lim => lim <=? timestamp
  end.

(** The [for i, timestamp in enumerate(self.timestamps)] loop, with the two
    result lists as accumulators.  [self.sensor_data_history[i]] raises
    [IndexError] when [i] is out of range. *)
Fixpoint filter_loop (time_limit : option datetime) (history : list D)
    (i : nat) (rest : list datetime)
    (filtered_timestamps : list datetime) (filtered_sensor_data : list D)
  : exn + (list datetime * list D) :=
  match rest with
  | [] => inr (filtered_timestamps, filtered_sensor_data)
  | timestamp :: rest' =>
      if keeps time_limit timestamp then
        match history !! i with
        | Some d =>
            filter_loop time_limit history (S i) rest'
              (filtered_timestamps ++ [timestamp]) (filtered_sensor_data ++ [d])
        | None => inl IndexError
        end
      else
        filter_loop time_limit history (S i) rest'
          filtered_timestamps filtered_sensor_data
  end.

(** [DataManager.get_filtered_data]; [current_time] is what
    [datetime.datetime.now()] returns. *)
Definition get_filtered_data (dm : t) (current_time : datetime)
    (time_range_str : string) : exn + (list datetime * list D) :=
  match timestamps dm with
  | [] => inr ([], [])
  | _ :: _ =>
      filter_loop (time_limit_of current_time time_range_str)
        (sensor_data_history dm) 0 (timestamps dm) [] []
  end.

(** [DataManager.get_latest_values]: [None] stands for the empty dict. *)
Definition get_latest_values (dm : t) : option D :=
  last (sensor_data_history dm).

(** What the specification asks of the filter: the entries, paired with
    their timestamps, whose timestamp is at least [lim], in order. *)
Definition entries_since (lim : datetime) (dm : t) : list (datetime * D) :=
  List.filter (fun p => lim <=? fst p)
    (combine (timestamps dm) (sensor_data_history dm)).

End WithData.

Arguments t : clear implicits.

(** The five range strings of the GUI with the span each one names. *)
Definition recognized_ranges : list (string * Z) :=
  [ ("Last 10 minutes", timedelta_minutes 10);
    ("Last 30 minutes", timedelta_minutes 30);
    ("Last hour", timedelta_hours 1);
    ("Last 6 hours", timedelta_hours 6);
    ("Last 24 hours", timedelta_hours 24) ].

(** Three readings, the last one five minutes after the second, used to
    run the manager on a concrete history. *)
Definition sample_calls : list (datetime * nat) :=
  [ (0, 11%nat); (1000000000, 22%nat); (1300000000, 33%nat) ].

End DataManager.

(** ** gps_dashboard_app.py: [_analyze_trip_data] *)

Module TripAnalysis.

(** [config.py] *)
Definition HARD_BRAKING_THRESHOLD_MPS2 : Q := -3.
Definition SHARP_CORNERING_THRESHOLD_DEG_PER_SEC : Q := 20.

(** A data point of a trip log: the five keys read by the analysis. *)
Record data_point : Type := mk_dp {
  lat : Q;
  lon : Q;
  gSpeed : Q;
  headMot : Q;
  timestamp : Q
}.

(** Python's [x % 360] on numbers: the remainder has the sign of 360. *)
Definition mod360 (x : Q) : Q := (x - 360 * inject_Z (Qfloor (x / 360)))%Q.

(** [a > b] and [a < b] as the source's conditions. *)
Definition gt (a b : Q) : bool := if Qlt_le_dec b a then true else false.
Definition lt (a b : Q) : bool := if Qlt_le_dec a b then true else false.

(** Lines 1690-1700: both headings are reduced modulo 360, subtracted, and
    the difference is brought back by one turn when it leaves
    [-180, 180]. *)
Definition normalized_heading_diff (prev_headMot current_heading : Q) : Q :=
  let prev_heading := mod360 prev_headMot in
  let current_heading_normalized := mod360 current_heading in
  let heading_diff := (current_heading_normalized - prev_heading)%Q in
  if gt heading_diff 180 then (heading_diff - 360)%Q
  else if lt heading_diff (-180) then (heading_diff + 360)%Q
  else heading_diff.

(** [abs(heading_diff / time_diff) if time_diff > 0 else 0] *)
Definition angular_velocity_deg_per_sec (heading_diff time_diff : Q) : Q :=
  if gt time_diff 0 then Qabs (heading_diff / time_diff) else 0%Q.

Section WithEnvironment.
(** [utils.haversine_distance]: floating-point trigonometry, kept
    abstract. *)
Variable haversine_distance : Q → Q → Q → Q → Q.
(** [settings_manager.get("speed_noise_threshold_mps")] *)
Variable speed_noise_threshold : Q.

(** The variables that the loop over [data_points] updates. *)
Record loop_state : Type := mk_ls {
  total_distance : Q;
  max_speed : Q;
  hard_braking_events : nat;
  sharp_cornering_events : nat;
  prev_dp : option data_point
}.

(** One iteration of [for i, dp in enumerate(data_points)]. *)
Definition analyze_step (st : loop_state) (dp : data_point) : loop_state :=
  let current_speed := gSpeed dp in
  let current_heading := headMot dp in
  let current_time := timestamp dp in
  let max_speed' := if gt current_speed (max_speed st) then current_speed
                    else max_speed st in
  match prev_dp st with
  | None =>
      {| total_distance := total_distance st;
         max_speed := max_speed';
         hard_braking_events := hard_braking_events st;
         sharp_cornering_events := sharp_cornering_events st;
         prev_dp := Some dp |}
  | Some prev =>
      let total_distance' :=
        (total_distance st
         + haversine_distance (lat prev) (lon prev) (lat dp) (lon dp))%Q in
      let time_diff := (current_time - timestamp prev)%Q in
      if gt time_diff 0 then
        let speed_diff := (current_speed - gSpeed prev)%Q in
        let acceleration := (speed_diff / time_diff)%Q in
        let hard' := if lt acceleration HARD_BRAKING_THRESHOLD_MPS2
                     then S (hard_braking_events st)
                     else hard_braking_events st in
        let heading_diff := normalized_heading_diff (headMot prev) current_heading in
        let sharp' :=
          if gt current_speed speed_noise_threshold then
            if gt (angular_velocity_deg_per_sec heading_diff time_diff)
                  SHARP_CORNERING_THRESHOLD_DEG_PER_SEC
            then S (sharp_cornering_events st)
            else sharp_cornering_events st
          else sharp_cornering_events st in
        {| total_distance := total_distance';
           max_speed := max_speed';
           hard_braking_events := hard';
           sharp_cornering_events := sharp';
           prev_dp := Some dp |}
      else
        {| total_distance := total_distance';
           max_speed := max_speed';
           hard_braking_events := hard_braking_events st;
           sharp_cornering_events := sharp_cornering_events st;
           prev_dp := Some dp |}
  end.

(** The returned dictionary; the duration is kept in seconds instead of
    the printed ["h:mm:ss"]. *)
Record analysis : Type := mk_an {
  an_total_distance : Q;
  an_duration_seconds : Q;
  an_average_speed : Q;
  an_max_speed : Q;
  an_hard_braking_events : nat;
  an_sharp_cornering_events : nat
}.

Definition Qsum (l : list Q) : Q := fold_left Qplus l 0%Q.

(** [_analyze_trip_data] *)
Definition _analyze_trip_data (data_points : list data_point) : analysis :=
  let moving_speed_points :=
    map gSpeed (List.filter (fun dp => gt (gSpeed dp) speed_noise_threshold) data_points) in
  match data_points with
  | [] => mk_an 0 0 0 0 0 0
  | first :: _ =>
      let duration_seconds :=
        (timestamp (List.last data_points first) - timestamp first)%Q in
      let st := fold_left analyze_step data_points (mk_ls 0 0 0 0 None) in
      let average_speed :=
        match moving_speed_points with
        | [] => 0%Q
        | _ => (Qsum moving_speed_points
                / inject_Z (Z.of_nat (length moving_speed_points)))%Q
        end in
      mk_an (total_distance st) duration_seconds average_speed (max_speed st)
            (hard_braking_events st) (sharp_cornering_events st)
  end.

End WithEnvironment.

(** Two fixes one second apart, heading 359 and then 1 degree, at 10 m/s. *)
Definition sample_prev : data_point := mk_dp 0 0 10 359 0.
Definition sample_dp : data_point := mk_dp 0 0 10 1 1.

End TripAnalysis.

(** ** The events of a trip, pair by pair

    What [_analyze_trip_data] computes, stated over the pairs of consecutive
    data points instead of the loop variable [prev_dp]. *)

Module TripEvents.
Import TripAnalysis.

(** The pairs (previous, current) that a loop over [l] sees when it starts
    with [prev] as the previous element. *)
Fixpoint pairs_from {A : Type} (prev : option A) (l : list A) : list (A * A) :=
  match l with
  | [] => []
  | x :: l' =>
      match prev with
      | Some p => (p, x) :: pairs_from (Some x) l'
      | None => pairs_from (Some x) l'
      end
  end.

(** The pairs of consecutive elements of a list. *)
Definition consecutive {A : Type} (l : list A) : list (A * A) := pairs_from None l.

Definition time_diff (pair : data_point * data_point) : Q :=
  (timestamp (snd pair) - timestamp (fst pair))%Q.

(** The condition under which the loop counts a hard braking for a pair. *)
Definition is_hard_braking (pair : data_point * data_point) : bool :=
  gt (time_diff pair) 0
  && lt ((gSpeed (snd pair) - gSpeed (fst pair)) / time_diff pair)%Q
        HARD_BRAKING_THRESHOLD_MPS2.

(** The condition under which the loop counts a sharp cornering for a
    pair. *)
Definition is_sharp_cornering (speed_noise_threshold : Q)
    (pair : data_point * data_point) : bool :=
  gt (time_diff pair) 0
  && gt (gSpeed (snd pair)) speed_noise_threshold
  && gt (angular_velocity_deg_per_sec
           (normalized_heading_diff (headMot (fst pair)) (headMot (snd pair)))
           (time_diff pair))
        SHARP_CORNERING_THRESHOLD_DEG_PER_SEC.

(** The distance between the two points of a pair. *)
Definition pair_distance (haversine_distance : Q → Q → Q → Q → Q)
    (pair : data_point * data_point) : Q :=
  haversine_distance (lat (fst pair)) (lon (fst pair)) (lat (snd pair)) (lon (snd pair)).

(** A parked receiver: the speed is noise and the heading jumps. *)
Definition parked_trip : list data_point :=
  [ mk_dp 0 0 (1 # 10) 10 0; mk_dp 0 0 (2 # 10) 200 1; mk_dp 0 0 0 90 2 ].

(** A log in which the clock did not advance. *)
Definition stalled_trip : list data_point :=
  [ mk_dp 0 0 20 0 5; mk_dp 0 0 0 180 5; mk_dp 0 0 30 0 4 ].

(** A log with one fix every ten seconds. *)
Definition sparse_trip : list data_point :=
  [ mk_dp 0 0 20 0 0; mk_dp 0 0 20 180 10; mk_dp 0 0 20 0 20 ].

(** The distance used in the examples: the sum of the differences of the
    coordinates (the source uses the haversine formula). *)
Definition sample_distance (lat1 lon1 lat2 lon2 : Q) : Q :=
  (Qabs (lat2 - lat1) + Qabs (lon2 - lon1))%Q.

End TripEvents.

(** ** Values, try blocks and status messages shared by the sensor code *)

(** A metric value: a number (Python int or float) or [float('nan')]. *)
Inductive value : Type :=
| Num (q : Q)
| NaN.

(** A status message with its colour, as emitted through
    [status_message_signal] or put on [status_queue]. *)
Definition status : Type := (string * string)%type.

(** The readings of one poll: sensor name to metric name to value. *)
Abbreviation readings := (gmap string (gmap string value)).

(** Sequencing inside a [try] block: the first exception ends the block. *)
Definition try_bind {A B : Type} (m : exn + A) (k : A → exn + B) : exn + B :=
  match m with
  | inl e => inl e
  | inr a => k a
  end.

Notation "'try!' x ← m ; k" := (try_bind m (fun x => k))
  (at level 10, x name, m at level 100, k at level 200).

(** [{k: float('nan') for k in keys}] *)
Definition nan_dict (keys : list string) : gmap string value :=
  list_to_map (map (fun k => (k, NaN)) keys).

(** ** The random module *)

Module PyRandom.

(** The generator: the raw 53-bit draws still to come and the position in
    them.  Every seed and every past use is some such state. *)
Record rng : Type := mk_rng { draws : nat → N; pos : nat }.

Definition next (g : rng) : N * rng :=
  (draws g (pos g), {| draws := draws g; pos := S (pos g) |}).

(** [random.random()]: a multiple of 2^-53 in [0, 1). *)
Definition random (g : rng) : Q * rng :=
  let (k, g') := next g in
  (Qmake (Z.of_N (k mod 9007199254740992)) 9007199254740992, g').

(** [random.uniform(a, b)] is [a + (b - a) * random()]. *)
Definition uniform (a b : Q) (g : rng) : value * rng :=
  let (u, g') := random g in (Num (a + (b - a) * u)%Q, g').

(** [random.randint(a, b)] is [a + _randbelow(b - a + 1)]. *)
Definition randint (a b : Z) (g : rng) : value * rng :=
  let (k, g') := next g in
  (Num (inject_Z (a + Z.of_N k mod (b - a + 1))), g').

End PyRandom.

(** ** The sensor drivers, as the interface sees them *)

Module Drivers.

(** What each driver call yields at the time of a poll: a value, or an
    exception ([inl]). *)
Record bme280 : Type := mk_bme {
  get_temperature_celsius : exn + value;
  read_humidity : exn + value;
  read_pressure : exn + value;
  get_altitude_feet : exn + value;
  get_temperature_fahrenheit : exn + value;
  get_dewpoint_celsius : exn + value;
  get_dewpoint_fahrenheit : exn + value
}.

Record sgp40 : Type := mk_sgp { get_VOC_index : exn + value }.

Record shtc3 : Type := mk_sht {
  temperature : exn + value;
  relative_humidity : exn + value
}.

Record proximity : Type := mk_prox {
  get_proximity : exn + value;
  get_ambient : exn + value;
  get_white : exn + value
}.

(** The body of each [try] block of [read_all_sensors]; the blocks are the
    same in both applications. *)
Definition read_bme280 (bme : bme280) : exn + gmap string value :=
  try! temp_c ← get_temperature_celsius bme;
  try! humidity ← read_humidity bme;
  try! pressure ← read_pressure bme;
  try! altitude ← get_altitude_feet bme;
  try! temp_f ← get_temperature_fahrenheit bme;
  try! dewpoint_c ← get_dewpoint_celsius bme;
  try! dewpoint_f ← get_dewpoint_fahrenheit bme;
  inr (list_to_map
         [ ("temp_c", temp_c); ("humidity", humidity); ("pressure", pressure);
           ("altitude", altitude); ("temp_f", temp_f);
           ("dewpoint_c", dewpoint_c); ("dewpoint_f", dewpoint_f) ]).

Definition read_sgp40 (sgp : sgp40) : exn + gmap string value :=
  try! voc ← get_VOC_index sgp;
  inr (list_to_map [ ("voc_index", voc) ]).

Definition read_shtc3 (sht : shtc3) : exn + gmap string value :=
  try! t ← temperature sht;
  try! h ← relative_humidity sht;
  inr (list_to_map [ ("temperature", t); ("humidity", h) ]).

Definition read_proximity (prox : proximity) : exn + gmap string value :=
  try! prox_value ← get_proximity prox;
  try! light_value ← get_ambient prox;
  try! white_value ← get_white prox;
  inr (list_to_map
         [ ("proximity", prox_value); ("ambient_light", light_value);
           ("white_light", white_value) ]).

Definition bme280_keys : list string :=
  [ "temp_c"; "humidity"; "pressure"; "altitude"; "temp_f"; "dewpoint_c"; "dewpoint_f" ].

(** The mock dictionaries, in the order in which the source draws them. *)
Definition mock_bme280 (g : PyRandom.rng) : gmap string value * PyRandom.rng :=
  let (temp_c, g) := PyRandom.uniform 20 30 g in
  let (humidity, g) := PyRandom.uniform 40 60 g in
  let (pressure, g) := PyRandom.uniform 900 1100 g in
  let (altitude, g) := PyRandom.uniform 500 1500 g in
  let (temp_f, g) := PyRandom.uniform 68 86 g in
  let (dewpoint_c, g) := PyRandom.uniform 10 20 g in
  let (dewpoint_f, g) := PyRandom.uniform 50 68 g in
  (list_to_map
     [ ("temp_c", temp_c); ("humidity", humidity); ("pressure", pressure);
       ("altitude", altitude); ("temp_f", temp_f);
       ("dewpoint_c", dewpoint_c); ("dewpoint_f", dewpoint_f) ], g).

Definition mock_sgp40 (g : PyRandom.rng) : gmap string value * PyRandom.rng :=
  let (voc, g) := PyRandom.uniform 0 500 g in
  (list_to_map [ ("voc_index", voc) ], g).

Definition mock_shtc3 (g : PyRandom.rng) : gmap string value * PyRandom.rng :=
  let (t, g) := PyRandom.uniform 20 30 g in
  let (h, g) := PyRandom.uniform 40 60 g in
  (list_to_map [ ("temperature", t); ("humidity", h) ], g).

Definition mock_proximity (g : PyRandom.rng) : gmap string value * PyRandom.rng :=
  let (p, g) := PyRandom.randint 0 255 g in
  let (a, g) := PyRandom.randint 0 1023 g in
  let (w, g) := PyRandom.randint 0 1023 g in
  (list_to_map [ ("proximity", p); ("ambient_light", a); ("white_light", w) ], g).

End Drivers.

(** ** Qwiic_SensorsQT/sensor_interface.py *)

Module SensorInterfaceQt.

Record t : Type := mk {
  _use_mock_data : bool;
  bme : option Drivers.bme280;
  sgp : option Drivers.sgp40;
  prox : option Drivers.proximity;
  sht : option Drivers.shtc3
}.

(** The result of a call: the dictionary, the status messages emitted in
    order, and the generator afterwards. *)
Record outcome : Type := mk_out {
  sensor_data : readings;
  emitted : list status;
  rng_after : PyRandom.rng
}.

(** One [if self.x: try ... except ... else ...] block. *)
Definition read_block {Dev : Type} (dev : option Dev)
    (read : Dev → exn + gmap string value) (label : string) (keys : list string)
  : gmap string value * list status :=
  match dev with
  | Some d =>
      match read d with
      | inr values => (values, [])
      | inl e => (nan_dict keys, [ (label +:+ " read error: " +:+ exn_text e, "warning") ])
      end
  | None => (nan_dict keys, [])
  end.

(** [SensorInterface.read_all_sensors] *)
Definition read_all_sensors (self : t) (g : PyRandom.rng) : outcome :=
  if _use_mock_data self then
    let (d_bme, g) := Drivers.mock_bme280 g in
    let (d_sgp, g) := Drivers.mock_sgp40 g in
    let (d_sht, g) := Drivers.mock_shtc3 g in
    let (d_prox, g) := Drivers.mock_proximity g in
    {| sensor_data :=
         <["proximity" := d_prox]> (<["shtc3" := d_sht]>
           (<["sgp40" := d_sgp]> (<["bme280" := d_bme]> ∅)));
       emitted := [];
       rng_after := g |}
  else
    let (d_bme, m_bme) :=
      read_block (bme self) Drivers.read_bme280 "BME280" Drivers.bme280_keys in
    let (d_sgp, m_sgp) :=
      read_block (sgp self) Drivers.read_sgp40 "SGP40" [ "voc_index" ] in
    let (d_sht, m_sht) :=
      read_block (sht self) Drivers.read_shtc3 "SHTC3" [ "temperature"; "humidity" ] in
    let (d_prox, m_prox) :=
      read_block (prox self) Drivers.read_proximity "Proximity"
        [ "proximity"; "ambient_light"; "white_light" ] in
    {| sensor_data :=
         <["proximity" := d_prox]> (<["shtc3" := d_sht]>
           (<["sgp40" := d_sgp]> (<["bme280" := d_bme]> ∅)));
       emitted := m_bme ++ m_sgp ++ m_sht ++ m_prox;
       rng_after := g |}.

(** [n] polls in a row. *)
Fixpoint polls (self : t) (g : PyRandom.rng) (n : nat) : list readings :=
  match n with
  | O => []
  | S n' =>
      let o := read_all_sensors self g in
      sensor_data o :: polls self (rng_after o) n'
  end.

End SensorInterfaceQt.

(** ** Qwiic_Sensors/sensor_interface.py *)

Module SensorInterfaceTk.

(** What the constructors of the driver classes yield on this machine. *)
Record bme_probe : Type := mk_bme_probe {
  bme_connected : bool;
  bme_device : Drivers.bme280
}.
Record sgp_probe : Type := mk_sgp_probe {
  sgp_begin : Z;
  sgp_device : Drivers.sgp40
}.
Record prox_probe : Type := mk_prox_probe {
  prox_connected : bool;
  prox_device : Drivers.proximity
}.

(** The module-level names after the imports at the top of the file: a
    library that could not be imported is [None]. *)
Record globals : Type := mk_globals {
  SENSORS_AVAILABLE : bool;
  I2C_BUS : bool;
  qwiic_bme280 : option bme_probe;
  qwiic_sgp40 : option sgp_probe;
  qwiic_proximity : option prox_probe;
  (** [adafruit_shtc3.SHTC3(I2C_BUS)] may raise. *)
  adafruit_shtc3 : option (exn + Drivers.shtc3)
}.

Record t : Type := mk {
  env : globals;
  bme : option Drivers.bme280;
  sgp : option Drivers.sgp40;
  prox : option Drivers.proximity;
  sht : option Drivers.shtc3
}.

Definition put (message color : string) : status := (message, color).

(** The [elif not SENSORS_AVAILABLE ... else ...] tail shared by the four
    initialisation blocks. *)
Definition not_created (G : globals) (missing created : string) : list status :=
  if negb (SENSORS_AVAILABLE G) then [ put missing "red" ]
  else [ put created "orange" ].

(** [SensorInterface.__init__] with [_initialize_sensors]: the interface and
    the messages put on the status queue. *)
Definition init (G : globals) : t * list status :=
  let '(bme, m1) :=
    match qwiic_bme280 G, SENSORS_AVAILABLE G with
    | Some p, true =>
        if negb (bme_connected p) then (None, [ put "BME280 not connected!" "red" ])
        else (Some (bme_device p), [ put "BME280 connected." "green" ])
    | _, _ => (None, not_created G "BME280 library not found (mocking)."
                       "BME280 sensor object not created.")
    end in
  let '(sgp, m2) :=
    match qwiic_sgp40 G, SENSORS_AVAILABLE G with
    | Some p, true =>
        if negb (sgp_begin p =? 0) then (None, [ put "SGP40 not connected!" "red" ])
        else (Some (sgp_device p), [ put "SGP40 connected." "green" ])
    | _, _ => (None, not_created G "SGP40 library not found (mocking)."
                       "SGP40 sensor object not created.")
    end in
  let '(prox, m3) :=
    match qwiic_proximity G, SENSORS_AVAILABLE G with
    | Some p, true =>
        if negb (prox_connected p)
        then (None, [ put "Proximity sensor not connected!" "red" ])
        else (Some (prox_device p), [ put "Proximity sensor connected." "green" ])
    | _, _ => (None, not_created G "Proximity library not found (mocking)."
                       "Proximity sensor object not created.")
    end in
  let '(sht, m4) :=
    match adafruit_shtc3 G, I2C_BUS G && SENSORS_AVAILABLE G with
    | Some (inr d), true => (Some d, [ put "SHTC3 connected." "green" ])
    | Some (inl (ValueError _)), true =>
        (None, [ put "SHTC3 not found on I2C bus!" "red" ])
    | Some (inl e), true =>
        (None, [ put ("SHTC3 init error: " +:+ exn_text e) "red" ])
    | _, _ => (None, not_created G "SHTC3 library or I2C bus not found (mocking)."
                       "SHTC3 sensor object not created.")
    end in
  ({| env := G; bme := bme; sgp := sgp; prox := prox; sht := sht |},
   m1 ++ m2 ++ m3 ++ m4).

Record outcome : Type := mk_out {
  sensor_data : readings;
  emitted : list status;
  rng_after : PyRandom.rng
}.

(** One block of [read_all_sensors]: the driver is read inside [try]; with
    no driver object the entry is mock data when [SENSORS_AVAILABLE] is
    false and NaN otherwise. *)
Definition read_block {Dev : Type} (G : globals) (dev : option Dev)
    (read : Dev → exn + gmap string value) (label : string) (keys : list string)
    (mock : PyRandom.rng → gmap string value * PyRandom.rng) (g : PyRandom.rng)
  : gmap string value * list status * PyRandom.rng :=
  match dev with
  | Some d =>
      match read d with
      | inr values => (values, [], g)
      | inl e =>
          (nan_dict keys, [ put (label +:+ " read error: " +:+ exn_text e) "orange" ], g)
      end
  | None =>
      if negb (SENSORS_AVAILABLE G) then
        let (values, g') := mock g in (values, [], g')
      else (nan_dict keys, [], g)
  end.

(** [SensorInterface.read_all_sensors] *)
Definition read_all_sensors (self : t) (g : PyRandom.rng) : outcome :=
  let '(d_bme, m_bme, g) :=
    read_block (env self) (bme self) Drivers.read_bme280 "BME280"
      Drivers.bme280_keys Drivers.mock_bme280 g in
  let '(d_sgp, m_sgp, g) :=
    read_block (env self) (sgp self) Drivers.read_sgp40 "SGP40"
      [ "voc_index" ] Drivers.mock_sgp40 g in
  let '(d_sht, m_sht, g) :=
    read_block (env self) (sht self) Drivers.read_shtc3 "SHTC3"
      [ "temperature"; "humidity" ] Drivers.mock_shtc3 g in
  let '(d_prox, m_prox, g) :=
    read_block (env self) (prox self) Drivers.read_proximity "Proximity"
      [ "proximity"; "ambient_light"; "white_light" ] Drivers.mock_proximity g in
  {| sensor_data :=
       <["proximity" := d_prox]> (<["shtc3" := d_sht]>
         (<["sgp40" := d_sgp]> (<["bme280" := d_bme]> ∅)));
     emitted := m_bme ++ m_sgp ++ m_sht ++ m_prox;
     rng_after := g |}.

Fixpoint polls (self : t) (g : PyRandom.rng) (n : nat) : list readings :=
  match n with
  | O => []
  | S n' =>
      let o := read_all_sensors self g in
      sensor_data o :: polls self (rng_after o) n'
  end.

End SensorInterfaceTk.

(** ** The sensors of the dashboards, their metrics and the mock ranges *)

Module Sensors.

Definition names : list string := [ "bme280"; "sgp40"; "shtc3"; "proximity" ].

(** The metrics reported for each sensor. *)
Definition metrics (sensor : string) : list string :=
  if String.eqb sensor "bme280" then Drivers.bme280_keys
  else if String.eqb sensor "sgp40" then [ "voc_index" ]
  else if String.eqb sensor "shtc3" then [ "temperature"; "humidity" ]
  else if String.eqb sensor "proximity" then [ "proximity"; "ambient_light"; "white_light" ]
  else [].

(** The name used for the sensor in the read-error messages. *)
Definition label (sensor : string) : string :=
  if String.eqb sensor "bme280" then "BME280"
  else if String.eqb sensor "sgp40" then "SGP40"
  else if String.eqb sensor "shtc3" then "SHTC3"
  else if String.eqb sensor "proximity" then "Proximity"
  else "".

(** The outcome of the hardware read of a sensor, if its driver object
    exists. *)
Definition hardware_read (bme : option Drivers.bme280) (sgp : option Drivers.sgp40)
    (sht : option Drivers.shtc3) (prox : option Drivers.proximity)
    (sensor : string) : option (exn + gmap string value) :=
  if String.eqb sensor "bme280" then Drivers.read_bme280 <$> bme
  else if String.eqb sensor "sgp40" then Drivers.read_sgp40 <$> sgp
  else if String.eqb sensor "shtc3" then Drivers.read_shtc3 <$> sht
  else if String.eqb sensor "proximity" then Drivers.read_proximity <$> prox
  else None.

(** The metric is present in a sensor's dictionary, is a number and lies
    in [lo, hi]. *)
Definition metric_within (d : gmap string value) (metric : string) (lo hi : Q) : Prop :=
  ∃ q : Q, d !! metric = Some (Num q) ∧ (lo <= q)%Q ∧ (q <= hi)%Q.

Definition within (data : readings) (sensor metric : string) (lo hi : Q) : Prop :=
  ∃ d : gmap string value, data !! sensor = Some d ∧ metric_within d metric lo hi.

(** A sensor's entry in which every metric is NaN and nothing else is
    present. *)
Definition all_nan (data : readings) (sensor : string) : Prop :=
  ∃ d : gmap string value,
    data !! sensor = Some d
    ∧ ∀ metric : string,
        d !! metric = if decide (metric ∈ metrics sensor) then Some NaN else None.

(** The documented mock ranges. *)
Definition in_mock_ranges (data : readings) : Prop :=
  within data "bme280" "temp_c" 20 30
  ∧ within data "bme280" "humidity" 40 60
  ∧ within data "bme280" "pressure" 900 1100
  ∧ within data "bme280" "altitude" 500 1500
  ∧ within data "sgp40" "voc_index" 0 500
  ∧ within data "shtc3" "temperature" 20 30
  ∧ within data "shtc3" "humidity" 40 60
  ∧ within data "proximity" "proximity" 0 255
  ∧ within data "proximity" "ambient_light" 0 1023
  ∧ within data "proximity" "white_light" 0 1023.

(** Drivers of a machine on which the BME280 answers the temperature and
    then fails on the humidity, while the other sensors answer. *)
Definition failing_bme : Drivers.bme280 :=
  Drivers.mk_bme (inr (Num 21)) (inl (OSError "I2C bus error")) (inr (Num 1000))
    (inr (Num 600)) (inr (Num 70)) (inr (Num 12)) (inr (Num 54)).
Definition good_sgp : Drivers.sgp40 := Drivers.mk_sgp (inr (Num 100)).
Definition good_sht : Drivers.shtc3 := Drivers.mk_sht (inr (Num 22)) (inr (Num 45)).
Definition good_prox : Drivers.proximity :=
  Drivers.mk_prox (inr (Num 3)) (inr (Num 200)) (inr (Num 180)).

Definition sample_qt : SensorInterfaceQt.t :=
  SensorInterfaceQt.mk false (Some failing_bme) (Some good_sgp) (Some good_prox)
    (Some good_sht).

Definition sample_tk : SensorInterfaceTk.t :=
  SensorInterfaceTk.mk (SensorInterfaceTk.mk_globals true true None None None None)
    (Some failing_bme) (Some good_sgp) (Some good_prox) (Some good_sht).

(** A generator whose [n]-th raw draw is [7 n + 3]. *)
Definition sample_rng : PyRandom.rng := PyRandom.mk_rng (fun n => N.of_nat (7 * n + 3)) 0.

End Sensors.

(** ** Qwiic_SensorsQT/sensor_interface.py: the initialisation of the drivers *)

Module SensorInitQt.

(** What the driver objects answer while they are set up. *)
Record bme_probe : Type := mk_bme_probe {
  bme_connected : bool;
  bme_begin : exn + unit;
  bme_device : Drivers.bme280
}.

Record sgp_probe : Type := mk_sgp_probe {
  sgp_begin : exn + Z;
  sgp_device : Drivers.sgp40
}.

Record prox_probe : Type := mk_prox_probe {
  prox_connected : bool;
  prox_begin : exn + unit;
  prox_power_on_proximity : exn + unit;
  prox_power_on_ambient : exn + unit;
  prox_enable_white_channel : exn + unit;
  prox_device : Drivers.proximity
}.

(** The module-level flags set by the imports, and what the constructors
    of the driver classes yield (a driver object, or an exception) at the
    time of the call. *)
Record globals : Type := mk_globals {
  _QWIIC_BME280_AVAILABLE : bool;
  _QWIIC_SGP40_AVAILABLE : bool;
  _ADAFRUIT_SHTC3_AVAILABLE : bool;
  _QWIIC_PROXIMITY_AVAILABLE : bool;
  _BOARD_AVAILABLE : bool;
  _I2C_BUS : bool;
  QwiicBme280 : exn + bme_probe;
  QwiicSGP40 : exn + sgp_probe;
  QwiicProximity : exn + prox_probe;
  SHTC3 : exn + Drivers.shtc3
}.

(** The result of a [try] block that ends with the driver kept or dropped
    and the messages emitted; [handler] is the [except Exception] clause. *)
Definition try_init {Dev : Type} (body : exn + (option Dev * list status))
    (handler : exn → list status) : option Dev * list status :=
  match body with
  | inr r => r
  | inl e => (None, handler e)
  end.

Definition init_bme (G : globals) : option Drivers.bme280 * list status :=
  if _QWIIC_BME280_AVAILABLE G then
    try_init
      (try! bme ← QwiicBme280 G;
       if negb (bme_connected bme) then inr (None, [ ("BME280 not connected!", "danger") ])
       else
         try! _ ← bme_begin bme;
         inr (Some (bme_device bme), [ ("BME280 connected.", "success") ]))
      (fun e => [ ("BME280 initialization error: " +:+ exn_text e, "danger") ])
  else (None, [ ("BME280 library not available.", "warning") ]).

Definition init_sgp (G : globals) : option Drivers.sgp40 * list status :=
  if _QWIIC_SGP40_AVAILABLE G then
    try_init
      (try! sgp ← QwiicSGP40 G;
       try! code ← sgp_begin sgp;
       if negb (code =? 0)
       then inr (None, [ ("SGP40 not connected or failed to begin!", "danger") ])
       else inr (Some (sgp_device sgp), [ ("SGP40 connected.", "success") ]))
      (fun e => [ ("SGP40 initialization error: " +:+ exn_text e, "danger") ])
  else (None, [ ("SGP40 library not available.", "warning") ]).

Definition init_prox (G : globals) : option Drivers.proximity * list status :=
  if _QWIIC_PROXIMITY_AVAILABLE G then
    try_init
      (try! prox ← QwiicProximity G;
       if negb (prox_connected prox)
       then inr (None, [ ("Proximity sensor not connected!", "danger") ])
       else
         try! _ ← prox_begin prox;
         try! _ ← prox_power_on_proximity prox;
         try! _ ← prox_power_on_ambient prox;
         try! _ ← prox_enable_white_channel prox;
         inr (Some (prox_device prox), [ ("Proximity sensor connected.", "success") ]))
      (fun e => [ ("Proximity sensor initialization error: " +:+ exn_text e, "danger") ])
  else (None, [ ("Proximity library not available.", "warning") ]).

Definition init_sht (G : globals) : option Drivers.shtc3 * list status :=
  if _ADAFRUIT_SHTC3_AVAILABLE G && _BOARD_AVAILABLE G && _I2C_BUS G then
    match SHTC3 G with
    | inr sht => (Some sht, [ ("SHTC3 connected.", "success") ])
    | inl (ValueError _) => (None, [ ("SHTC3 not found on I2C bus!", "danger") ])
    | inl e => (None, [ ("SHTC3 initialization error: " +:+ exn_text e, "danger") ])
    end
  else (None, [ ("SHTC3 library or I2C bus not available.", "warning") ]).

(** [SensorInterface._initialize_sensors]: the interface afterwards and the
    messages emitted. *)
Definition _initialize_sensors (G : globals) (_use_mock_data : bool)
  : SensorInterfaceQt.t * list status :=
  if _use_mock_data then
    (SensorInterfaceQt.mk true None None None None,
     [ ("Operating in mock data mode. Hardware sensors are not initialized.", "info") ])
  else
    let (bme, m_bme) := init_bme G in
    let (sgp, m_sgp) := init_sgp G in
    let (prox, m_prox) := init_prox G in
    let (sht, m_sht) := init_sht G in
    (SensorInterfaceQt.mk false bme sgp prox sht, m_bme ++ m_sgp ++ m_prox ++ m_sht).

(** [SensorInterface.__init__] *)
Definition init (G : globals) (use_mock_data : bool) : SensorInterfaceQt.t * list status :=
  _initialize_sensors G use_mock_data.

(** [SensorInterface.set_use_mock_data] *)
Definition set_use_mock_data (G : globals) (self : SensorInterfaceQt.t)
    (enable_mock : bool) : SensorInterfaceQt.t * list status :=
  if negb (Bool.eqb (SensorInterfaceQt._use_mock_data self) enable_mock) then
    let (self', msgs) := _initialize_sensors G enable_mock in
    (self',
     ("Mock data mode " +:+ (if enable_mock then "enabled" else "disabled") +:+ ".", "info")
       :: msgs)
  else (self, []).

End SensorInitQt.

(** ** The shape of the readings and the status lines of the sensors *)

Module Readings.

(** A poll result with an entry for each of the four sensors and, in each
    entry, exactly the metrics of the sensor. *)
Definition well_formed (data : readings) : Prop :=
  dom data = list_to_set Sensors.names
  ∧ ∀ (sensor : string) (d : gmap string value),
      data !! sensor = Some d → dom d = list_to_set (Sensors.metrics sensor).





End Readings.

(** ** Python dictionaries in insertion order *)

Module OrderedDict.

Definition t (V : Type) : Type := list (string * V).

(** [d.get(k)] *)
Fixpoint get {V : Type} (k : string) (d : t V) : option V :=
  match d with
  | [] => None
  | (k', v) :: d' => if String.eqb k k' then Some v else get k d'
  end.

(** [d[k] = v]: an existing key keeps its place, a new one goes last. *)
Fixpoint set {V : Type} (k : string) (v : V) (d : t V) : t V :=
  match d with
  | [] => [ (k, v) ]
  | (k', v') :: d' =>
      if String.eqb k k' then (k, v) :: d' else (k', v') :: set k v d'
  end.

(** The dictionary after [del d[k]] (the caller checks that [k] is there). *)
Definition remove {V : Type} (k : string) (d : t V) : t V :=
  List.filter (fun p => negb (String.eqb k (fst p))) d.

Definition keys {V : Type} (d : t V) : list string := map fst d.

End OrderedDict.

(** ** Qwiic_SensorsQT/data_logger.py *)

Module DataLoggerQt.

(** A cell of a data row: a reading, or the ['N/A'] default of [data.get]. *)
Inductive cell : Type :=
| Val (v : value)
| NA.

(** A row of a CSV file: written by the header [writerow] of
    [_open_log_file] or by the row [writerow] of [log_sensor_data]. *)
Inductive row : Type :=
| Header (columns : list string)
| Data (timestamp_str : string) (cells : list cell).

(** An open file object; [name] is the path it was opened with. *)
Record file_obj : Type := mk_file { name : string }.

(** The calls into the operating system. *)
Inductive op : Type :=
| Makedirs (path : string)
| Open (path mode : string)
| Writerow (path : string) (r : row)
| Flush (path : string)
| Close (path : string)
| Move (src dst : string).

(** The logger together with the part of the world it acts on: the files
    on disk, the status messages emitted so far, and the system calls made so
    far with their outcome ([Some e]: the call raised [e]).  The debug
    logger is left out: the [logging] module does not raise. *)
Record t : Type := mk {
  _log_path_internal : string;
  _archive_path_internal : string;
  _archive_enabled_internal : bool;
  _log_settings_internal : list (string * bool);
  _active_log_file_handles : OrderedDict.t file_obj;
  last_archive_time : Z;
  archive_interval_hours : Z;
  disk : gmap string (list row);
  emitted : list status;
  trace : list (op * option exn)
}.

(** What the environment decides during one call of a method: the clock
    readings and, for every system call, whether it raises, given the calls
    made before. *)
Record env : Type := mk_env {
  today_str : string;
  timestamp_str : string;
  archive_timestamp : string;
  now : Z;
  fails : list (op * option exn) → op → option exn
}.

(** Statements: a state transformer that returns normally ([inr]) or
    raises ([inl]); the state reached is kept in both cases. *)
Definition M (A : Type) : Type := t → (exn + A) * t.

Definition ret {A : Type} (a : A) : M A := fun s => (inr a, s).
Definition raise {A : Type} (e : exn) : M A := fun s => (inl e, s).

Definition bind {A B : Type} (m : M A) (k : A → M B) : M B :=
  fun s =>
    match m s with
    | (inr a, s') => k a s'
    | (inl e, s') => (inl e, s')
    end.

Definition gets {A : Type} (f : t → A) : M A := fun s => (inr (f s), s).
Definition modify (f : t → t) : M unit := fun s => (inr tt, f s).

(** [try: m  except Exception as e: h e] *)
Definition try_except {A : Type} (m : M A) (h : exn → M A) : M A :=
  fun s =>
    match m s with
    | (inr a, s') => (inr a, s')
    | (inl e, s') => h e s'
    end.

(** [try: m  finally: f]: [f] always runs; an exception of [f] replaces the
    outcome of [m]. *)
Definition try_finally {A : Type} (m : M A) (f : M unit) : M A :=
  fun s =>
    match m s with
    | (r, s') =>
        match f s' with
        | (inr _, s'') => (r, s'')
        | (inl e, s'') => (inl e, s'')
        end
    end.

Notation "'let!' x := m 'in' k" := (bind m (fun x => k))
  (at level 10, x name, m at level 100, k at level 200).
Notation "m ;; k" := (bind m (fun _ => k))
  (at level 100, k at level 200, right associativity).

Definition set_disk (d : gmap string (list row)) (s : t) : t :=
  mk (_log_path_internal s) (_archive_path_internal s) (_archive_enabled_internal s)
     (_log_settings_internal s) (_active_log_file_handles s) (last_archive_time s)
     (archive_interval_hours s) d (emitted s) (trace s).

Definition set_handles (h : OrderedDict.t file_obj) (s : t) : t :=
  mk (_log_path_internal s) (_archive_path_internal s) (_archive_enabled_internal s)
     (_log_settings_internal s) h (last_archive_time s)
     (archive_interval_hours s) (disk s) (emitted s) (trace s).

Definition set_last_archive_time (z : Z) (s : t) : t :=
  mk (_log_path_internal s) (_archive_path_internal s) (_archive_enabled_internal s)
     (_log_settings_internal s) (_active_log_file_handles s) z
     (archive_interval_hours s) (disk s) (emitted s) (trace s).

Definition add_emitted (m : status) (s : t) : t :=
  mk (_log_path_internal s) (_archive_path_internal s) (_archive_enabled_internal s)
     (_log_settings_internal s) (_active_log_file_handles s) (last_archive_time s)
     (archive_interval_hours s) (disk s) (emitted s ++ [ m ]) (trace s).

Definition add_trace (ev : op * option exn) (s : t) : t :=
  mk (_log_path_internal s) (_archive_path_internal s) (_archive_enabled_internal s)
     (_log_settings_internal s) (_active_log_file_handles s) (last_archive_time s)
     (archive_interval_hours s) (disk s) (emitted s) (trace s ++ [ ev ]).

(** [self.status_message_signal.emit(message, color)] *)
Definition emit (message color : string) : M unit :=
  modify (add_emitted (message, color)).

(** What a system call that succeeds does to the files.  A row written
    through a handle whose file is no longer at its path does not bring the
    path back. *)
Definition effect (o : op) (d : gmap string (list row)) : gmap string (list row) :=
  match o with
  | Open path mode =>
      if String.eqb mode "w" then <[path := []]> d
      else match d !! path with
           | Some _ => d
           | None => <[path := []]> d
           end
  | Writerow path r =>
      match d !! path with
      | Some content => <[path := content ++ [ r ]]> d
      | None => d
      end
  | Move src dst =>
      match d !! src with
      | Some content => <[dst := content]> (delete src d)
      | None => d
      end
  | Makedirs _ | Flush _ | Close _ => d
  end.

(** A call that cannot succeed whatever the environment: moving a file
    that is not there. *)
Definition impossible (o : op) (d : gmap string (list row)) : option exn :=
  match o with
  | Move src _ =>
      match d !! src with
      | Some _ => None
      | None => Some (OSError ("No such file or directory: " +:+ src))
      end
  | _ => None
  end.

(** Whether a system call made in state [s] raises. *)
Definition outcome_of (E : env) (s : t) (o : op) : option exn :=
  match impossible o (disk s) with
  | Some e => Some e
  | None => fails E (trace s) o
  end.

(** One system call: it is recorded with its outcome; it changes the files
    only when it succeeds. *)
Definition io (E : env) (o : op) : M unit :=
  fun s =>
    match outcome_of E s o with
    | Some e => (inl e, add_trace (o, Some e) s)
    | None => (inr tt, set_disk (effect o (disk s)) (add_trace (o, None) s))
    end.

(** [os.path.join] and [os.path.basename] on the paths used here. *)
Definition path_join (a b : string) : string := a +:+ "/" +:+ b.

Fixpoint basename_from (acc s : string) : string :=
  match s with
  | EmptyString => acc
  | String c s' =>
      if Ascii.eqb c "/"%char then basename_from "" s'
      else basename_from (acc +:+ String c "") s'
  end.

Definition basename (path : string) : string := basename_from "" path.

(** The path of today's CSV file of a sensor. *)
Definition csv_path (log_path today sensor_name : string) : string :=
  path_join (path_join log_path sensor_name) (sensor_name +:+ "_" +:+ today +:+ ".csv").

(** The header row of each known sensor. *)
Definition header (sensor_name : string) : option (list string) :=
  if String.eqb sensor_name "bme280" then
    Some [ "timestamp"; "temperature_c"; "humidity"; "pressure_pa"; "altitude_m";
           "temperature_f"; "dewpoint_c"; "dewpoint_f" ]
  else if String.eqb sensor_name "sgp40" then Some [ "timestamp"; "voc_index" ]
  else if String.eqb sensor_name "shtc3" then
    Some [ "timestamp"; "temperature_c"; "humidity" ]
  else if String.eqb sensor_name "proximity" then
    Some [ "timestamp"; "proximity"; "ambient_light"; "white_light" ]
  else None.

(** [del self._active_log_file_handles[sensor_name]] *)
Definition delitem (sensor_name : string) : M unit :=
  let! handles := gets _active_log_file_handles in
  match OrderedDict.get sensor_name handles with
  | Some _ => modify (set_handles (OrderedDict.remove sensor_name handles))
  | None => raise (KeyError sensor_name)
  end.

(** [self._active_log_file_handles[sensor_name]] *)
Definition getitem (sensor_name : string) : M file_obj :=
  let! handles := gets _active_log_file_handles in
  match OrderedDict.get sensor_name handles with
  | Some f => ret f
  | None => raise (KeyError sensor_name)
  end.

(** [DataLogger._open_log_file] *)
Definition _open_log_file (E : env) (sensor_name : string) : M unit :=
  let! log_path := gets _log_path_internal in
  let log_dir := path_join log_path sensor_name in
  io E (Makedirs log_dir) ;;
  let file_path := csv_path log_path (today_str E) sensor_name in
  let! handles := gets _active_log_file_handles in
  let! already_open :=
    match OrderedDict.get sensor_name handles with
    | Some f =>
        if negb (String.eqb (name f) file_path)
        then (io E (Close (name f)) ;; ret false)
        else ret true
    | None => ret false
    end in
  if already_open : bool then ret tt
  else
    let! file_exists := gets (fun s => bool_decide (is_Some (disk s !! file_path))) in
    let mode := if file_exists : bool then "a" else "w" in
    try_except
      (io E (Open file_path mode) ;;
       (if file_exists then ret tt
        else match header sensor_name with
             | Some columns => io E (Writerow file_path (Header columns))
             | None => ret tt
             end) ;;
       modify (fun s =>
                 set_handles
                   (OrderedDict.set sensor_name (mk_file file_path)
                      (_active_log_file_handles s)) s))
      (fun e =>
         emit ("Error opening/creating log file for " +:+ sensor_name +:+ ": "
               +:+ exn_text e) "danger" ;;
         let! handles := gets _active_log_file_handles in
         match OrderedDict.get sensor_name handles with
         | Some _ => delitem sensor_name
         | None => ret tt
         end).

(** A [for] loop over a list. *)
Fixpoint for_each {A : Type} (body : A → M unit) (l : list A) : M unit :=
  match l with
  | [] => ret tt
  | a :: l' => body a ;; for_each body l'
  end.

(** [DataLogger._open_initial_log_files] *)
Definition _open_initial_log_files (E : env) : M unit :=
  let! settings := gets _log_settings_internal in
  for_each (fun item => if snd item : bool then _open_log_file E (fst item) else ret tt)
    settings.

(** [data.get(key, 'N/A')] *)
Definition get_cell (data : gmap string value) (key : string) : cell :=
  match data !! key with
  | Some v => Val v
  | None => NA
  end.

(** The cells that follow the timestamp in the row of a sensor. *)
Definition row_cells (sensor_name : string) (data : gmap string value) : list cell :=
  if String.eqb sensor_name "bme280" then
    map (get_cell data)
      [ "temp_c"; "humidity"; "pressure"; "altitude"; "temp_f"; "dewpoint_c"; "dewpoint_f" ]
  else if String.eqb sensor_name "sgp40" then [ get_cell data "voc_index" ]
  else if String.eqb sensor_name "shtc3" then
    map (get_cell data) [ "temperature"; "humidity" ]
  else if String.eqb sensor_name "proximity" then
    map (get_cell data) [ "proximity"; "ambient_light"; "white_light" ]
  else [].

(** [DataLogger.archive_logs] *)
Definition archive_one (E : env) (destination_dir sensor_name : string) : M unit :=
  let! file_info := getitem sensor_name in
  try_finally
    (try_except
       (io E (Close (name file_info)) ;;
        let original_path := name file_info in
        let archive_file_path := path_join destination_dir (basename original_path) in
        io E (Move original_path archive_file_path) ;;
        delitem sensor_name)
       (fun e =>
          emit ("Error archiving log file for " +:+ sensor_name +:+ ": " +:+ exn_text e)
            "danger"))
    (delitem sensor_name).

Definition archive_logs (E : env) : M unit :=
  emit "Archiving sensor logs..." "info" ;;
  let! archive_path := gets _archive_path_internal in
  let destination_dir := path_join archive_path ("archive_" +:+ archive_timestamp E) in
  io E (Makedirs destination_dir) ;;
  let! handles := gets _active_log_file_handles in
  for_each (archive_one E destination_dir) (OrderedDict.keys handles) ;;
  modify (set_last_archive_time (now E)) ;;
  emit ("Logs archived to " +:+ destination_dir) "success" ;;
  _open_initial_log_files E.

(** [DataLogger.check_and_archive_auto]; times are in seconds. *)
Definition check_and_archive_auto (E : env) : M unit :=
  let! enabled := gets _archive_enabled_internal in
  let! last := gets last_archive_time in
  let! hours := gets archive_interval_hours in
  if (enabled : bool) && (hours * 3600 <? now E - last) then archive_logs E
  else ret tt.

(** The body of the loop of [log_sensor_data]. *)
Definition log_one (E : env) (sensor_readings : readings) (item : string * bool) : M unit :=
  let (sensor_name, enabled) := item in
  if enabled then
    let! handles := gets _active_log_file_handles in
    let! file_info :=
      match OrderedDict.get sensor_name handles with
      | Some f => ret (Some f)
      | None =>
          _open_log_file E sensor_name ;;
          gets (fun s => OrderedDict.get sensor_name (_active_log_file_handles s))
      end in
    match file_info with
    | Some f =>
        let data := default ∅ (sensor_readings !! sensor_name) in
        let r := Data (timestamp_str E) (row_cells sensor_name data) in
        try_except
          (io E (Writerow (name f) r) ;; io E (Flush (name f)))
          (fun e =>
             emit ("Error writing data to CSV for " +:+ sensor_name +:+ ": "
                   +:+ exn_text e) "danger")
    | None => ret tt
    end
  else ret tt.

(** [DataLogger.log_sensor_data] *)
Definition log_sensor_data (E : env) (sensor_readings : readings) : M unit :=
  let! settings := gets _log_settings_internal in
  for_each (log_one E sensor_readings) settings ;;
  check_and_archive_auto E.



(** The system calls and the status messages that a statement adds. *)
Definition new_calls {A : Type} (m : M A) (s : t) : list (op * option exn) :=
  drop (length (trace s)) (trace (snd (m s))).

Definition new_messages {A : Type} (m : M A) (s : t) : list status :=
  drop (length (emitted s)) (emitted (snd (m s))).




(** The system calls recorded in [s'] since [s]. *)
Definition new_since (s s' : t) : list (op * option exn) :=
  drop (length (trace s)) (trace s').

(** The row that [log_sensor_data] writes for a sensor. *)
Definition data_row (E : env) (sensor_readings : readings) (sensor_name : string) : row :=
  Data (timestamp_str E)
    (row_cells sensor_name (default ∅ (sensor_readings !! sensor_name))).

(** [wp m Q s]: running [m] from [s] ends in an outcome and a state that
    satisfy [Q]. *)
Definition wp {A : Type} (m : M A) (Q : exn + A → t → Prop) (s : t) : Prop :=
  Q (fst (m s)) (snd (m s)).

(** A property of the state that a statement keeps, however it ends. *)
Definition preserves {A : Type} (I : t → Prop) (m : M A) : Prop :=
  ∀ s, I s → I (snd (m s)).







(** The methods the application calls on a running logger. *)
Inductive call : Type :=
| OpenInitialLogFiles (E : env)
| LogSensorData (E : env) (sensor_readings : readings)
| ArchiveLogs (E : env)
| CheckAndArchiveAuto (E : env)
| CloseAllLogFiles (E : env).




(** A logger for two sensors with nothing on disk, and a day on which no
    system call fails. *)
Definition sample_logger : t :=
  mk "logs" "archive" true [ ("bme280", true); ("sgp40", true) ] [] 0 24 ∅ [] [].

Definition calm_day : env :=
  mk_env "2025-01-01" "2025-01-01T08:00:00" "20250101_080000" 100 (fun _ _ => None).

(** More than 24 hours after the last archive. *)
Definition overdue_day : env :=
  mk_env "2025-01-02" "2025-01-02T09:00:00" "20250102_090000" 90000 (fun _ _ => None).



(** The same logger once [__init__] has opened the initial log files. *)
Definition started_logger : t := snd (_open_initial_log_files calm_day sample_logger).

End DataLoggerQt.

(** ** Qwiic_SensorsQT/data_logger.py: what the calls of a method amount to *)

Module LoggerCalls.
Import DataLoggerQt.

(** A recorded system call that moved a file. *)
Definition moved (ev : op * option exn) : bool :=
  match ev with
  | (Move _ _, None) => true
  | _ => false
  end.

(** A recorded system call that writes a row or flushes a file. *)
Definition is_write (ev : op * option exn) : bool :=
  match fst ev with
  | Writerow _ _ | Flush _ => true
  | _ => false
  end.

(** The system calls of [log_sensor_data] when every enabled sensor has its
    file open: a row and a flush for each of them, in the order of the
    settings. *)
Definition steady_calls (E : env) (sensor_readings : readings)
    (handles : OrderedDict.t file_obj) (settings : list (string * bool)) : list op :=
  flat_map
    (fun item : string * bool =>
       if snd item then
         match OrderedDict.get (fst item) handles with
         | Some f => [ Writerow (name f) (data_row E sensor_readings (fst item));
                       Flush (name f) ]
         | None => []
         end
       else [])
    settings.

(** The handles that [_open_initial_log_files] registers when it starts
    without any: one for each enabled sensor, on today's file, in the order
    of the settings. *)
Definition initial_handles (E : env) (log_path : string)
    (settings : list (string * bool)) : OrderedDict.t file_obj :=
  map (fun item : string * bool =>
         (fst item, mk_file (csv_path log_path (today_str E) (fst item))))
      (List.filter snd settings).

(** The automatic archive is not due at the time [now E]. *)
Definition archive_not_due (E : env) (s : t) : Prop :=
  _archive_enabled_internal s
  && (archive_interval_hours s * 3600 <? now E - last_archive_time s) = false.

(** The fields that the logging of rows leaves alone. *)
Definition same_logger (s s' : t) : Prop :=
  _active_log_file_handles s' = _active_log_file_handles s
  ∧ _log_settings_internal s' = _log_settings_internal s
  ∧ _archive_enabled_internal s' = _archive_enabled_internal s
  ∧ last_archive_time s' = last_archive_time s
  ∧ archive_interval_hours s' = archive_interval_hours s.

(** An environment in which no system call fails of its own. *)
Definition calm (E : env) : Prop := ∀ tr o, fails E tr o = None.

End LoggerCalls.

(** ** Qwiic_Sensors/sensor_reader.py: [SensorReader.run] *)

Module SensorReader.

(** The messages that the GUI puts on [control_queue]. *)
Inductive control_message : Type :=
| update_log_settings (log_path_str archive_path_str : string)
    (archive_enabled_bool : bool) (new_sensor_log_settings : list (string * bool))
| archive_now
| update_read_interval (interval : Z)
| other_message (type : string).

(** What the thread does, in order: the answers of [stop_event.is_set()]
    and of [control_queue.get_nowait()], the calls into the logger, the sensor
    interface, the data manager and the data queue, the sleeps and the status
    messages. *)
Inductive event : Type :=
| IsSet (b : bool)
| GetNowait (m : option control_message)
| UpdateConfig
| ArchiveLogs
| CheckAndArchiveAuto
| ReadAllSensors
| AddData
| LogSensorData
| PutData
| Sleep (d : Q)
| Status (message color : string).

(** What the rest of the world answers: the [n]-th call of
    [stop_event.is_set()], of [time.time()], of
    [control_queue.get_nowait()] ([None]: [queue.Empty]), and whether the
    [n]-th call into the data logger raises. *)
Record env : Type := mk_env {
  is_set : nat → bool;
  time : nat → Q;
  get_nowait : nat → option control_message;
  logger_raises : nat → option exn
}.

(** The variables of [run] and the number of questions asked so far. *)
Record state : Type := mk_state {
  read_interval : Z;
  next_read_time : Q;
  n_checks : nat;
  n_times : nat;
  n_gets : nat;
  n_calls : nat
}.

Inductive result : Type :=
| Done
| Break
| Raise (e : exn)
| OutOfFuel.

Definition gt (a b : Q) : bool := if Qlt_le_dec b a then true else false.
Definition ge (a b : Q) : bool := if Qlt_le_dec a b then false else true.

(** [self.stop_event.is_set()] *)
Definition check (E : env) (st : state) : bool * state :=
  (is_set E (n_checks st),
   mk_state (read_interval st) (next_read_time st) (S (n_checks st)) (n_times st)
     (n_gets st) (n_calls st)).

(** [time.time()] *)
Definition now (E : env) (st : state) : Q * state :=
  (time E (n_times st),
   mk_state (read_interval st) (next_read_time st) (n_checks st) (S (n_times st))
     (n_gets st) (n_calls st)).

(** [self.control_queue.get_nowait()] *)
Definition get (E : env) (st : state) : option control_message * state :=
  (get_nowait E (n_gets st),
   mk_state (read_interval st) (next_read_time st) (n_checks st) (n_times st)
     (S (n_gets st)) (n_calls st)).

(** A call into the data logger: it returns or raises. *)
Definition call_logger (E : env) (st : state) : option exn * state :=
  (logger_raises E (n_calls st),
   mk_state (read_interval st) (next_read_time st) (n_checks st) (n_times st)
     (n_gets st) (S (n_calls st))).

Definition set_read_interval (z : Z) (st : state) : state :=
  mk_state z (next_read_time st) (n_checks st) (n_times st) (n_gets st) (n_calls st).

Definition set_next_read_time (q : Q) (st : state) : state :=
  mk_state (read_interval st) q (n_checks st) (n_times st) (n_gets st) (n_calls st).

(** The [if]/[elif] chain on [control_message['type']]. *)
Definition process (E : env) (m : control_message) (st : state)
  : result * list event * state :=
  match m with
  | update_log_settings _ _ _ _ =>
      let (r, st) := call_logger E st in
      match r with
      | Some e => (Raise e, [ UpdateConfig ], st)
      | None => (Done, [ UpdateConfig ], st)
      end
  | archive_now =>
      let (r, st) := call_logger E st in
      match r with
      | Some e => (Raise e, [ ArchiveLogs ], st)
      | None => (Done, [ ArchiveLogs ], st)
      end
  | update_read_interval new_interval =>
      if new_interval <=? 0 then
        (Done,
         [ Status ("Invalid read interval received by thread: "
                   +:+ "Read interval must be a positive integer.") "red" ], st)
      else
        (Done,
         [ Status ("Sensor read interval updated to " +:+ pretty new_interval
                   +:+ " seconds (thread).") "green" ],
         set_read_interval new_interval st)
  | other_message _ => (Done, [], st)
  end.

(** Lines 30-57: the control messages are taken until the queue is empty or
    the stop event is seen. *)
Fixpoint drain (fuel : nat) (E : env) (st : state) : result * list event * state :=
  match fuel with
  | O => (OutOfFuel, [], st)
  | S fuel' =>
      let (m, st) := get E st in
      match m with
      | None => (Done, [ GetNowait None ], st)
      | Some control_message =>
          match process E control_message st with
          | (Done, evs, st) =>
              let (stop, st) := check E st in
              if stop then (Done, GetNowait m :: evs ++ [ IsSet true ], st)
              else
                let '(r, evs', st) := drain fuel' E st in
                (r, GetNowait m :: evs ++ IsSet false :: evs', st)
          | (r, evs, st) => (r, GetNowait m :: evs, st)
          end
      end
  end.

(** Lines 88-95: the sleep in chunks of [polling_interval_ms]. *)
Fixpoint sleep_loop (fuel : nat) (E : env) (time_to_wait : Q) (st : state)
  : result * list event * state :=
  match fuel with
  | O => (OutOfFuel, [], st)
  | S fuel' =>
      if gt time_to_wait 0 then
        let (stop, st) := check E st in
        if stop then (Done, [ IsSet true ], st)
        else
          let sleep_chunk := (100 / 1000)%Q in
          let sleep_duration := Qmin time_to_wait sleep_chunk in
          let '(r, evs, st) := sleep_loop fuel' E (time_to_wait - sleep_duration)%Q st in
          (r, IsSet false :: Sleep sleep_duration :: evs, st)
      else (Done, [], st)
  end.

(** Lines 63-85: the read of the sensors when it is due. The two calls that
    may raise are [check_and_archive_auto] and [log_sensor_data];
    [read_all_sensors] catches the errors of the drivers itself, [add_data]
    appends to a deque and the data queue is unbounded. *)
Definition read_when_due (E : env) (st : state) : result * list event * state :=
  let (current_time, st) := now E st in
  if ge current_time (next_read_time st) then
    let (r, st) := call_logger E st in
    match r with
    | Some e => (Raise e, [ CheckAndArchiveAuto ], st)
    | None =>
        let (stop, st) := check E st in
        if stop then (Break, [ CheckAndArchiveAuto; IsSet true ], st)
        else
          let (r, st) := call_logger E st in
          let evs := [ CheckAndArchiveAuto; IsSet false; ReadAllSensors; AddData;
                       LogSensorData ] in
          match r with
          | Some e => (Raise e, evs, st)
          | None =>
              (Done, evs ++ [ PutData ],
               set_next_read_time (current_time + inject_Z (read_interval st))%Q st)
          end
    end
  else (Done, [], st).

(** The [while not self.stop_event.is_set()] loop. *)
Fixpoint main_loop (fuel : nat) (E : env) (st : state) : result * list event * state :=
  match fuel with
  | O => (OutOfFuel, [], st)
  | S fuel' =>
      let (stop, st) := check E st in
      if stop then (Done, [ IsSet true ], st)
      else
        match drain fuel' E st with
        | (Done, evs1, st) =>
            let (stop, st) := check E st in
            if stop then (Done, IsSet false :: evs1 ++ [ IsSet true ], st)
            else
              match read_when_due E st with
              | (Done, evs2, st) =>
                  let (t, st) := now E st in
                  let time_to_wait := (next_read_time st - t)%Q in
                  match sleep_loop fuel' E time_to_wait st with
                  | (Done, evs3, st) =>
                      let '(r, evs4, st) := main_loop fuel' E st in
                      (r, IsSet false :: evs1 ++ IsSet false :: evs2 ++ evs3 ++ evs4, st)
                  | (r, evs3, st) =>
                      (r, IsSet false :: evs1 ++ IsSet false :: evs2 ++ evs3, st)
                  end
              | (Break, evs2, st) => (Done, IsSet false :: evs1 ++ IsSet false :: evs2, st)
              | (r, evs2, st) => (r, IsSet false :: evs1 ++ IsSet false :: evs2, st)
              end
        | (r, evs1, st) => (r, IsSet false :: evs1, st)
        end
  end.

Definition final_status : event := Status "Sensor thread stopped." "gray".

(** [SensorReader.run]: the loop, then the final status message. *)
Definition run (fuel : nat) (E : env) (initial_read_interval : Z) : result * list event :=
  let (t, st) := now E (mk_state initial_read_interval 0 0 0 0 0) in
  let st := set_next_read_time t st in
  match main_loop fuel E st with
  | (Done, evs, _) => (Done, evs ++ [ final_status ])
  | (r, evs, _) => (r, evs)
  end.

(** An event other than the archive check, a sensor read and a sleep. *)
Definition quiet (e : event) : Prop :=
  match e with
  | CheckAndArchiveAuto | ReadAllSensors | Sleep _ => False
  | _ => True
  end.

(** Every archive check comes right after a negative check of the stop
    event; every sensor read comes right after a negative check, the archive
    check and a second negative check; every sleep comes right after a
    negative check. *)
Inductive guarded : list event → Prop :=
| guarded_nil : guarded []
| guarded_quiet (e : event) (tr : list event) :
    quiet e → guarded tr → guarded (e :: tr)
| guarded_archive (tr : list event) :
    guarded tr → guarded (IsSet false :: CheckAndArchiveAuto :: tr)
| guarded_read (tr : list event) :
    guarded tr →
    guarded (IsSet false :: CheckAndArchiveAuto :: IsSet false :: ReadAllSensors :: tr)
| guarded_sleep (d : Q) (tr : list event) :
    guarded tr → guarded (IsSet false :: Sleep d :: tr).

(** The stop event has not been seen set. *)
Definition unstopped (tr : list event) : Prop := IsSet true ∉ tr.

(** One of the first [n] checks of the stop event has found it set. *)
Definition seen (E : env) (n : nat) : Prop :=
  ∃ i : nat, (i < n)%nat ∧ is_set E i = true.

(** The stop event, once set, stays set. *)
Definition never_cleared (E : env) : Prop :=
  ∀ i j : nat, (i ≤ j)%nat → is_set E i = true → is_set E j = true.

(** A session: a read interval of 1 second, the clock advancing by 0.3 s
    per reading, an "archive now" request first in the queue, and the stop
    event visible from the sixth check on. *)
Definition sample_env : env :=
  mk_env (fun n => (5 <=? n)%nat)
         (fun n => (inject_Z (Z.of_nat n) * (3 / 10))%Q)
         (fun n => match n with O => Some archive_now | _ => None end)
         (fun _ => None).

End SensorReader.

(** ** Qwiic_Sensors/sensor_reader.py: what the trace of a run shows *)

Module SensorReaderTrace.
Import SensorReader.

(** What the loop records while it runs: sleeps that are not empty and last
    at most one polling interval (100 ms), status messages in a colour other
    than the gray of the final one, and the other events. *)
Definition loop_event (e : event) : Prop :=
  match e with
  | Sleep d => (0 < d)%Q ∧ (d <= 100 / 1000)%Q
  | Status _ color => color ≠ "gray"
  | _ => True
  end.

(** The archive check, and so the read that follows it, comes only when
    the control queue has just been found empty and the stop event not
    set. *)
Inductive drained : list event → Prop :=
| drained_nil : drained []
| drained_other (e : event) (tr : list event) :
    e ≠ CheckAndArchiveAuto → drained tr → drained (e :: tr)
| drained_check (tr : list event) :
    drained tr →
    drained (GetNowait None :: IsSet false :: CheckAndArchiveAuto :: tr).

(** A session in which nobody stops the thread: every second request in
    the queue changes the read interval, and the clock advances by 0.3 s per
    reading. *)
Definition endless_env : env :=
  mk_env (fun _ => false)
         (fun n => (inject_Z (Z.of_nat n) * (3 / 10))%Q)
         (fun n => if Nat.even n then Some (update_read_interval 2) else None)
         (fun _ => None).

End SensorReaderTrace.

(** ** Qwiic_Sensors/data_logger.py: the logger of the Tk application *)

Module DataLoggerTk.

(** A [RotatingFileHandler] object; [baseFilename] is the absolute path of
    its file. *)
Record handler : Type := mk_handler { hid : nat; baseFilename : string }.

(** The records that the methods hand to [self.logger]; [Note] is a record
    of [archive_logs] with its level and text. *)
Inductive record : Type :=
| SensorLine (sensor_name : string) (data : gmap string value)
| LowDiskSpace (free : Z) (path : string)
| DiskCheckError (path : string) (e : exn)
| ConfigUpdated (new_log_path new_archive_path : string) (new_archive_enabled : bool)
| Note (levelname text : string).

(** The calls that change the file system. *)
Inductive fs_call : Type :=
| Makedirs (path : string)
| MakeArchive (base_name root_dir : string)
| Remove (path : string).

(** The logger object with the ["sensor_logger"] of the [logging] module:
    [handlers] are the handlers attached to it, [closed] the handlers on
    which [close] has been called so far, [delivered] what each handler has
    been handed, in order, [fs] the calls that change the file system, in
    order, and [next_hid] numbers the handler objects. *)
Record t : Type := mk {
  _log_path_internal : string;
  _archive_path_internal : string;
  _archive_enabled_internal : bool;
  _log_settings_internal : gmap string bool;
  handlers : list handler;
  _active_log_handlers : gmap string handler;
  last_archive_time : Z;
  closed : list handler;
  status_queue : list status;
  delivered : list (handler * record);
  fs : list fs_call;
  next_hid : nat
}.

(** What the operating system answers during one call of a method
    ([Some e], [inl e]: the call raises [e]). *)
Record env : Type := mk_env {
  makedirs : string → option exn;
  (** the free bytes reported by [shutil.disk_usage] *)
  disk_usage : string → exn + Z;
  (** the constructor of the handler *)
  RotatingFileHandler : string → option exn;
  (** the [n]-th call of [close] on a handler *)
  close : nat → option exn;
  abspath : string → string;
  (** the text of [free / (1024 * 1024)] with two decimals *)
  format_mb : Z → string;
  (** [os.path.exists], [os.listdir], [os.path.isfile], [os.remove] *)
  path_exists : string → bool;
  listdir : string → exn + list string;
  isfile : string → bool;
  remove : string → option exn;
  make_archive : string → string → option exn;
  (** [datetime.datetime.now()]: as the text of the archive name, and as
      the new [last_archive_time] *)
  archive_timestamp : string;
  now : Z
}.

Definition set_handlers (hs : list handler) (s : t) : t :=
  mk (_log_path_internal s) (_archive_path_internal s) (_archive_enabled_internal s)
     (_log_settings_internal s) hs (_active_log_handlers s) (last_archive_time s)
     (closed s) (status_queue s) (delivered s) (fs s) (next_hid s).

Definition set_active (a : gmap string handler) (s : t) : t :=
  mk (_log_path_internal s) (_archive_path_internal s) (_archive_enabled_internal s)
     (_log_settings_internal s) (handlers s) a (last_archive_time s)
     (closed s) (status_queue s) (delivered s) (fs s) (next_hid s).

Definition set_last_archive_time (z : Z) (s : t) : t :=
  mk (_log_path_internal s) (_archive_path_internal s) (_archive_enabled_internal s)
     (_log_settings_internal s) (handlers s) (_active_log_handlers s) z
     (closed s) (status_queue s) (delivered s) (fs s) (next_hid s).

(** [self.status_queue.put(...)] *)
Definition put (message color : string) (s : t) : t :=
  mk (_log_path_internal s) (_archive_path_internal s) (_archive_enabled_internal s)
     (_log_settings_internal s) (handlers s) (_active_log_handlers s)
     (last_archive_time s) (closed s) (status_queue s ++ [ (message, color) ])
     (delivered s) (fs s) (next_hid s).

(** [self.logger.info], [.warning] and [.error]: the record goes to every
    handler attached to the logger; an error of a handler stays inside the
    [logging] module. *)
Definition log (r : record) (s : t) : t :=
  mk (_log_path_internal s) (_archive_path_internal s) (_archive_enabled_internal s)
     (_log_settings_internal s) (handlers s) (_active_log_handlers s)
     (last_archive_time s) (closed s) (status_queue s)
     (delivered s ++ map (fun h => (h, r)) (handlers s)) (fs s) (next_hid s).

Definition note (levelname text : string) (s : t) : t := log (Note levelname text) s.

Definition call (c : fs_call) (s : t) : t :=
  mk (_log_path_internal s) (_archive_path_internal s) (_archive_enabled_internal s)
     (_log_settings_internal s) (handlers s) (_active_log_handlers s)
     (last_archive_time s) (closed s) (status_queue s) (delivered s) (fs s ++ [ c ])
     (next_hid s).

(** [self.logger.removeHandler(h)] *)
Definition removeHandler (h : handler) (s : t) : t :=
  set_handlers (List.filter (fun h' => negb (hid h' =? hid h)%nat) (handlers s)) s.

(** [h.close()]: it flushes the file, and so can raise. *)
Definition close_handler (E : env) (h : handler) (s : t) : option exn * t :=
  (close E (length (closed s)),
   mk (_log_path_internal s) (_archive_path_internal s) (_archive_enabled_internal s)
      (_log_settings_internal s) (handlers s) (_active_log_handlers s)
      (last_archive_time s) (closed s ++ [ h ]) (status_queue s) (delivered s) (fs s)
      (next_hid s)).

(** Lines 31-33: every handler is removed from the logger and closed. *)
Fixpoint remove_and_close (E : env) (hs : list handler) (s : t) : option exn * t :=
  match hs with
  | [] => (None, s)
  | h :: hs' =>
      match close_handler E h (removeHandler h s) with
      | (Some e, s) => (Some e, s)
      | (None, s) => remove_and_close E hs' s
      end
  end.

(** [DataLogger._setup_logger] *)
Definition _setup_logger (E : env) (s : t) : option exn * t :=
  match remove_and_close E (handlers s) s with
  | (Some e, s) => (Some e, s)
  | (None, s) => (None, set_active ∅ s)
  end.

(** [self.logger.addHandler(h)] and the entry of the sensor. *)
Definition add_handler (sensor_name : string) (h : handler) (s : t) : t :=
  mk (_log_path_internal s) (_archive_path_internal s) (_archive_enabled_internal s)
     (_log_settings_internal s) (handlers s ++ [ h ])
     (<[sensor_name := h]> (_active_log_handlers s)) (last_archive_time s) (closed s)
     (status_queue s) (delivered s) (fs s) (S (next_hid s)).

Definition log_file (s : t) (sensor_name : string) : string :=
  DataLoggerQt.path_join (_log_path_internal s) (sensor_name +:+ ".log").

(** [DataLogger._get_sensor_logger]: [Some e] when closing the old handler
    or the constructor of the new one raises [e]. *)
Definition _get_sensor_logger (E : env) (sensor_name : string) (s : t) : option exn * t :=
  let create (s : t) : option exn * t :=
    match RotatingFileHandler E (log_file s sensor_name) with
    | Some e => (Some e, s)
    | None =>
        (None,
         add_handler sensor_name
           (mk_handler (next_hid s) (abspath E (log_file s sensor_name))) s)
    end in
  match _active_log_handlers s !! sensor_name with
  | Some existing_handler =>
      if String.eqb (abspath E (baseFilename existing_handler))
           (abspath E (log_file s sensor_name))
      then (None, s)
      else
        match close_handler E existing_handler (removeHandler existing_handler s) with
        | (Some e, s) => (Some e, s)
        | (None, s) => create (set_active (delete sensor_name (_active_log_handlers s)) s)
        end
  | None => create s
  end.

(** [DataLogger._check_disk_space] with [required_mb = 10]. *)
Definition _check_disk_space (E : env) (s : t) : bool * t :=
  let current_log_path := _log_path_internal s in
  let failed (e : exn) (s : t) : bool * t :=
    (false,
     put ("Disk space check error: " +:+ exn_text e) "red"
       (log (DiskCheckError current_log_path e) s)) in
  let s := call (Makedirs current_log_path) s in
  match makedirs E current_log_path with
  | Some e => failed e s
  | None =>
      match disk_usage E current_log_path with
      | inl e => failed e s
      | inr free =>
          if free <? 10 * (1024 * 1024) then
            (false,
             put ("Low disk space: " +:+ format_mb E free +:+ " MB free in log path.")
               "orange" (log (LowDiskSpace free current_log_path) s))
          else (true, s)
      end
  end.

(** The loop of [log_sensor_data] over [sensor_data.items()]. *)
Fixpoint log_items (E : env) (items : list (string * gmap string value)) (s : t)
  : option exn * t :=
  match items with
  | [] => (None, s)
  | (sensor_name, data) :: items' =>
      if default false (_log_settings_internal s !! sensor_name) then
        match _get_sensor_logger E sensor_name s with
        | (Some e, s') => (Some e, s')
        | (None, s') => log_items E items' (log (SensorLine sensor_name data) s')
        end
      else log_items E items' s
  end.

(** [DataLogger.log_sensor_data]; [sensor_data] is given by its items, in
    the order of the dictionary. *)
Definition log_sensor_data (E : env) (sensor_data : list (string * gmap string value))
    (s : t) : option exn * t :=
  let (ok, s) := _check_disk_space E s in
  if negb ok then (None, s) else log_items E sensor_data s.

(** [DataLogger.update_config] *)
Definition update_config (E : env) (new_log_path new_archive_path : string)
    (new_archive_enabled : bool) (new_log_settings : gmap string bool) (s : t)
  : option exn * t :=
  let s := mk new_log_path new_archive_path new_archive_enabled new_log_settings
              (handlers s) (_active_log_handlers s) (last_archive_time s) (closed s)
              (status_queue s) (delivered s) (fs s) (next_hid s) in
  match _setup_logger E s with
  | (Some e, s) => (Some e, s)
  | (None, s) =>
      let s := put ("Log path updated to: " +:+ new_log_path) "green" s in
      let s := put ("Archive path updated to: " +:+ new_archive_path) "green" s in
      let s := put ("Archiving " +:+ (if new_archive_enabled then "enabled" else "disabled")
                    +:+ ".") "green" s in
      let s := put "Logging configuration updated." "info" s in
      (None, log (ConfigUpdated new_log_path new_archive_path new_archive_enabled) s)
  end.

(** Lines 127-130: every handler is closed and removed from the logger. *)
Fixpoint close_and_remove (E : env) (hs : list handler) (s : t) : option exn * t :=
  match hs with
  | [] => (None, s)
  | h :: hs' =>
      match close_handler E h s with
      | (Some e, s) => (Some e, s)
      | (None, s) => close_and_remove E hs' (removeHandler h s)
      end
  end.

(** [filename.endswith(suffix)] *)
Definition endswith (suffix filename : string) : bool :=
  (String.length suffix <=? String.length filename)%nat
  && String.eqb
       (substring (String.length filename - String.length suffix) (String.length suffix)
          filename)
       suffix.

(** The file names that line 142 selects. *)
Definition is_log_file (filename : string) : bool :=
  endswith ".log" filename
  || String.prefix "bme280.log." filename
  || String.prefix "sgp40.log." filename
  || String.prefix "shtc3.log." filename
  || String.prefix "proximity.log." filename.

(** Lines 140-147: the old log files are removed; a file that cannot be
    removed is reported and passed over. *)
Fixpoint delete_old_logs (E : env) (current_log_path : string) (filenames : list string)
    (s : t) : t :=
  match filenames with
  | [] => s
  | filename :: filenames' =>
      let file_path := DataLoggerQt.path_join current_log_path filename in
      if isfile E file_path && is_log_file filename then
        let s := call (Remove file_path) s in
        match remove E file_path with
        | None =>
            delete_old_logs E current_log_path filenames'
              (note "INFO" ("Deleted old log file: " +:+ filename) s)
        | Some rm_e =>
            delete_old_logs E current_log_path filenames'
              (note "WARNING"
                 ("Failed to delete " +:+ filename +:+ ": " +:+ exn_text rm_e) s)
        end
      else delete_old_logs E current_log_path filenames' s
  end.

(** Lines 125-153: the body of the [try] of [archive_logs]. *)
Definition archive_body (E : env) (archive_full_path : string) (s : t) : option exn * t :=
  let current_log_path := _log_path_internal s in
  let s := note "INFO" "Closing all log handlers before archiving." s in
  match close_and_remove E (handlers s) s with
  | (Some e, s) => (Some e, s)
  | (None, s) =>
      let s := set_active ∅ s in
      let s := note "INFO" ("Creating zip archive: " +:+ archive_full_path +:+ ".zip") s in
      let s := call (MakeArchive archive_full_path current_log_path) s in
      match make_archive E archive_full_path current_log_path with
      | Some e => (Some e, s)
      | None =>
          let s := put ("Logs archived to " +:+ archive_full_path +:+ ".zip") "green" s in
          let s := note "INFO" ("Logs archived to " +:+ archive_full_path +:+ ".zip") s in
          let s := note "INFO" "Deleting old log files after successful archiving." s in
          match listdir E current_log_path with
          | inl e => (Some e, s)
          | inr filenames =>
              let s := delete_old_logs E current_log_path filenames s in
              let s := put "Old log files cleared." "green" s in
              let s := note "INFO" "Re-initializing loggers..." s in
              match _setup_logger E s with
              | (Some e, s) => (Some e, s)
              | (None, s) =>
                  let s := set_last_archive_time (now E) s in
                  (None, note "INFO" "Loggers re-initialized after archiving." s)
              end
          end
      end
  end.

(** Lines 120-159: the archive name, the [try] and its [except]. *)
Definition archive_into (E : env) (s : t) : option exn * t :=
  let archive_name := "sensor_logs_archive_" +:+ archive_timestamp E in
  let archive_full_path := DataLoggerQt.path_join (_archive_path_internal s) archive_name in
  match archive_body E archive_full_path s with
  | (None, s) => (None, s)
  | (Some e, s) =>
      let s := put ("Error archiving logs: " +:+ exn_text e) "red" s in
      let s := note "ERROR" ("Error archiving logs: " +:+ exn_text e) s in
      let s := note "INFO"
                 "Attempting to re-initialize loggers after archiving failure." s in
      _setup_logger E s
  end.

(** [DataLogger.archive_logs] *)
Definition archive_logs (E : env) (s : t) : option exn * t :=
  if negb (_archive_enabled_internal s) then
    (None,
     put "Log archiving disabled." "gray"
       (note "INFO" "Log archiving is disabled. Skipping archive." s))
  else
    let current_log_path := _log_path_internal s in
    let archive_dest_path := _archive_path_internal s in
    let s := note "INFO" ("Attempting to archive logs from " +:+ current_log_path
                          +:+ " to " +:+ archive_dest_path) s in
    let s := put "Initiating log archive..." "blue" s in
    if negb (path_exists E current_log_path) then
      (None,
       note "WARNING" ("Log directory for archiving not found: " +:+ current_log_path)
         (put ("Log directory for archiving not found: " +:+ current_log_path) "orange"
            s))
    else if negb (path_exists E archive_dest_path) then
      let s := call (Makedirs archive_dest_path) s in
      match makedirs E archive_dest_path with
      | None =>
          archive_into E
            (note "INFO" ("Archive directory created: " +:+ archive_dest_path)
               (put ("Archive directory created: " +:+ archive_dest_path) "blue" s))
      | Some e =>
          (None,
           note "ERROR" ("Failed to create archive directory " +:+ archive_dest_path
                         +:+ ": " +:+ exn_text e)
             (put ("Failed to create archive directory: " +:+ exn_text e) "red" s))
      end
    else archive_into E s.

(** What a call has added to the record of deliveries, to the status queue
    and to the calls that change the file system. *)
Definition new_delivered (s s' : t) : list (handler * record) :=
  drop (length (delivered s)) (delivered s').

Definition new_status (s s' : t) : list status :=
  drop (length (status_queue s)) (status_queue s').

Definition new_fs (s s' : t) : list fs_call := drop (length (fs s)) (fs s').

(** The disk check of [log_sensor_data] passes. *)
Definition disk_ok (E : env) (s : t) : Prop :=
  makedirs E (_log_path_internal s) = None
  ∧ ∃ free, disk_usage E (_log_path_internal s) = inr free ∧ 10 * (1024 * 1024) <= free.

(** The disk check fails: the directory cannot be made, the usage cannot
    be read, or less than 10 MiB are free. *)
Definition disk_short (E : env) (s : t) : Prop :=
  is_Some (makedirs E (_log_path_internal s))
  ∨ (∃ e, disk_usage E (_log_path_internal s) = inl e)
  ∨ (∃ free, disk_usage E (_log_path_internal s) = inr free ∧ free < 10 * (1024 * 1024)).

(** Every enabled sensor of the items has its handler, on the current log
    file. *)
Definition handlers_current (E : env) (items : list (string * gmap string value))
    (s : t) : Prop :=
  ∀ sensor_name data,
    (sensor_name, data) ∈ items →
    _log_settings_internal s !! sensor_name = Some true →
    ∃ h, _active_log_handlers s !! sensor_name = Some h
         ∧ abspath E (baseFilename h) = abspath E (log_file s sensor_name).

(** The lines that reach the handlers when all of them are in place: the
    line of every enabled sensor goes to every handler. *)
Definition lines_to_all (s : t) (items : list (string * gmap string value))
  : list (handler * record) :=
  flat_map
    (fun item : string * gmap string value =>
       if default false (_log_settings_internal s !! fst item)
       then map (fun h => (h, SensorLine (fst item) (snd item))) (handlers s)
       else [])
    items.

(** The handler writes the log file of an enabled sensor under the log
    path [p]. *)
Definition on_log_path (E : env) (p : string) (settings : gmap string bool)
    (h : handler) : Prop :=
  ∃ sensor_name,
    settings !! sensor_name = Some true
    ∧ baseFilename h = abspath E (DataLoggerQt.path_join p (sensor_name +:+ ".log")).

(** A handler that is none of [hs]. *)
Definition kept (hs : list handler) (h' : handler) : bool :=
  forallb (fun h => negb (hid h' =? hid h)%nat) hs.

(** Two states that differ at most in the handlers: those attached, those
    of the sensors and those closed. *)
Definition same_but_handlers (s s' : t) : Prop :=
  _log_path_internal s' = _log_path_internal s
  ∧ _archive_path_internal s' = _archive_path_internal s
  ∧ _archive_enabled_internal s' = _archive_enabled_internal s
  ∧ _log_settings_internal s' = _log_settings_internal s
  ∧ last_archive_time s' = last_archive_time s
  ∧ status_queue s' = status_queue s
  ∧ delivered s' = delivered s
  ∧ fs s' = fs s.

(** The archive gets as far as its [try]: archiving is enabled, the log
    directory exists, and the archive directory exists or can be made. *)
Definition archive_starts (E : env) (s : t) : Prop :=
  _archive_enabled_internal s = true
  ∧ path_exists E (_log_path_internal s) = true
  ∧ (path_exists E (_archive_path_internal s) = true
     ∨ makedirs E (_archive_path_internal s) = None).

(** The files that the clean-up of [archive_logs] tries to remove. *)
Definition old_logs (E : env) (current_log_path : string) (filenames : list string)
  : list fs_call :=
  map (fun filename => Remove (DataLoggerQt.path_join current_log_path filename))
    (List.filter
       (fun filename =>
          isfile E (DataLoggerQt.path_join current_log_path filename)
          && is_log_file filename)
       filenames).

Definition archive_full_path (E : env) (s : t) : string :=
  DataLoggerQt.path_join (_archive_path_internal s)
    ("sensor_logs_archive_" +:+ archive_timestamp E).

(** The archive is made and the log directory can be listed. *)
Definition archived (E : env) (s : t) : bool :=
  match make_archive E (archive_full_path E s) (_log_path_internal s),
        listdir E (_log_path_internal s) with
  | None, inr _ => true
  | _, _ => false
  end.

(** The records of [archive_logs] up to the closing of the handlers. *)
Definition archive_notes (E : env) (s : t) : list record :=
  [ Note "INFO" ("Attempting to archive logs from " +:+ _log_path_internal s
                 +:+ " to " +:+ _archive_path_internal s) ]
  ++ (if path_exists E (_archive_path_internal s) then []
      else [ Note "INFO" ("Archive directory created: " +:+ _archive_path_internal s) ])
  ++ [ Note "INFO" "Closing all log handlers before archiving." ].

(** The calls of [archive_logs] that change the file system. *)
Definition archive_calls (E : env) (s : t) : list fs_call :=
  (if path_exists E (_archive_path_internal s) then []
   else [ Makedirs (_archive_path_internal s) ])
  ++ [ MakeArchive (archive_full_path E s) (_log_path_internal s) ]
  ++ match make_archive E (archive_full_path E s) (_log_path_internal s),
           listdir E (_log_path_internal s) with
     | None, inr filenames => old_logs E (_log_path_internal s) filenames
     | _, _ => []
     end.

(** A logger with the files of two sensors attached, a poll, and a machine
    with 1 GiB free; the same machine with 1 MiB free. *)
Definition bme_handler : handler := mk_handler 0 "/logs/bme280.log".
Definition sgp_handler : handler := mk_handler 1 "/logs/sgp40.log".

Definition sample_logger : t :=
  mk "/logs" "/archive" true
     (<["bme280" := true]> (<["sgp40" := true]> (<["shtc3" := false]> ∅)))
     [ bme_handler; sgp_handler ]
     (<["bme280" := bme_handler]> (<["sgp40" := sgp_handler]> ∅))
     0 [] [] [] [] 2.

Definition sample_items : list (string * gmap string value) :=
  [ ("bme280", {[ "temp_c" := Num 21 ]}); ("sgp40", {[ "voc_index" := Num 100 ]});
    ("shtc3", ∅) ].

(** The log directory holds the two log files, a rotated backup, a file of
    another kind and a directory; the backup cannot be removed. *)
Definition roomy_disk : env :=
  mk_env (fun _ => None) (fun _ => inr (1024 * 1024 * 1024)) (fun _ => None)
    (fun _ => None) (fun p => p) (fun _ => "1024.00")
    (fun _ => true)
    (fun _ => inr [ "bme280.log"; "notes.txt"; "bme280.log.1"; "old.log"; "sgp40.log" ])
    (fun p => negb (String.eqb p "/logs/old.log"))
    (fun p => if String.eqb p "/logs/bme280.log.1" then Some (OSError "busy") else None)
    (fun _ _ => None)
    "20250101_080000" 1000.

Definition full_disk : env :=
  mk_env (fun _ => None) (fun _ => inr (1024 * 1024)) (fun _ => None)
    (fun _ => None) (fun p => p) (fun _ => "1.00")
    (fun _ => true) (fun _ => inr []) (fun _ => true) (fun _ => None) (fun _ _ => None)
    "20250101_080000" 1000.

(** A machine on which closing a log file fails. *)
Definition failing_close : env :=
  mk_env (fun _ => None) (fun _ => inr (1024 * 1024 * 1024)) (fun _ => None)
    (fun _ => Some (OSError "No space left on device")) (fun p => p)
    (fun _ => "1024.00")
    (fun _ => true) (fun _ => inr []) (fun _ => true) (fun _ => None) (fun _ _ => None)
    "20250101_080000" 1000.

(** The settings of the sample logger, for a move of the log path. *)
Definition sample_settings : gmap string bool :=
  <["bme280" := true]> (<["sgp40" := true]> (<["shtc3" := false]> ∅)).

End DataLoggerTk.

(** ** Qwiic_SensorsQT/sensor_reader_thread.py: the sensor thread of the Qt
    application *)

Module SensorReaderThread.

(** The messages that arrive on [control_queue], by
    [control_message.get('type')]; [update_log_settings] carries what the
    main window sends with it. *)
Inductive control_message : Type :=
| update_log_settings (log_path_str archive_path_str debug_log_path_str : string)
    (archive_enabled_bool : bool) (new_sensor_log_settings : list (string * bool))
    (new_debug_log_level : string)
| archive_now
| update_read_interval (interval : Z)
| toggle_mock_data (enable : bool)
| shutdown
| other_message (type : string).

(** What the thread does, in order: the readings of [self._is_running] and
    the answers of [control_queue.get(timeout=...)], the calls into the
    logger, the sensor interface and the data manager, the signals and the
    sleeps. *)
Inductive event : Type :=
| IsRunning (b : bool)
| Get (m : option control_message)
| ArchiveLogs
| SetUseMockData (enable : bool)
| ReadAllSensors
| AddData
| LogSensorData
| EmitData
| CheckAndArchiveAuto
| Sleep (d : Q)
| Status (message color : string)
| Quit.

(** What the rest of the world answers: whether [stop()] has been called
    from the GUI thread by the [n]-th reading of [self._is_running], the
    [n]-th call of [time.time()] and of [control_queue.get] ([None]:
    [queue.Empty] after the timeout), and whether the [n]-th call into the
    data logger raises. *)
Record env : Type := mk_env {
  stop_called : nat → bool;
  time : nat → Q;
  get : nat → option control_message;
  logger_raises : nat → option exn
}.

(** The attributes and variables of [run] and the number of questions asked
    so far. *)
Record state : Type := mk_state {
  read_interval : Z;
  next_read_time : Q;
  _is_running : bool;
  n_checks : nat;
  n_times : nat;
  n_gets : nat;
  n_calls : nat
}.

(** The exceptions that leave [run]: an attribute that the object does not
    have, and what a call into the data logger raises. *)
Inductive error : Type :=
| AttributeError (class_name attribute : string)
| LoggerError (e : exn).

Inductive result : Type :=
| Done
| Raise (e : error)
| OutOfFuel.

(** A reading of [self._is_running].  The flag is set in [__init__]; only
    [stop()] and the shutdown message clear it, and nothing sets it again. *)
Definition check (E : env) (st : state) : bool * state :=
  let b := _is_running st && negb (stop_called E (n_checks st)) in
  (b,
   mk_state (read_interval st) (next_read_time st) b (S (n_checks st)) (n_times st)
     (n_gets st) (n_calls st)).

(** [time.time()] *)
Definition now (E : env) (st : state) : Q * state :=
  (time E (n_times st),
   mk_state (read_interval st) (next_read_time st) (_is_running st) (n_checks st)
     (S (n_times st)) (n_gets st) (n_calls st)).

(** [self.control_queue.get(timeout=self.polling_interval_ms / 1000.0)] *)
Definition get_message (E : env) (st : state) : option control_message * state :=
  (get E (n_gets st),
   mk_state (read_interval st) (next_read_time st) (_is_running st) (n_checks st)
     (n_times st) (S (n_gets st)) (n_calls st)).

(** A call into the data logger: it returns or raises. *)
Definition call_logger (E : env) (st : state) : option exn * state :=
  (logger_raises E (n_calls st),
   mk_state (read_interval st) (next_read_time st) (_is_running st) (n_checks st)
     (n_times st) (n_gets st) (S (n_calls st))).

Definition set_read_interval (z : Z) (st : state) : state :=
  mk_state z (next_read_time st) (_is_running st) (n_checks st) (n_times st)
    (n_gets st) (n_calls st).

Definition set_next_read_time (q : Q) (st : state) : state :=
  mk_state (read_interval st) q (_is_running st) (n_checks st) (n_times st)
    (n_gets st) (n_calls st).

Definition set_is_running (b : bool) (st : state) : state :=
  mk_state (read_interval st) (next_read_time st) b (n_checks st) (n_times st)
    (n_gets st) (n_calls st).

Definition shutdown_received : event :=
  Status "Shutdown command received in sensor thread." "info".

(** [SensorReaderThread._process_control_message].  The [DataLogger] of
    this application has [update_logging_configuration] and no
    [update_config], so the attribute lookup of line 106 raises. *)
Definition _process_control_message (E : env) (m : control_message) (st : state)
  : result * list event * state :=
  match m with
  | update_log_settings _ _ _ _ _ _ =>
      (Raise (AttributeError "DataLogger" "update_config"), [], st)
  | archive_now =>
      let (r, st) := call_logger E st in
      match r with
      | Some e => (Raise (LoggerError e), [ ArchiveLogs ], st)
      | None =>
          (Done,
           [ ArchiveLogs; Status "Manual log archive initiated by sensor thread." "info" ],
           st)
      end
  | update_read_interval new_interval =>
      if new_interval <=? 0 then
        (Done,
         [ Status ("Invalid read interval received by thread: "
                   +:+ "Read interval must be a positive integer.") "danger" ], st)
      else
        (Done,
         [ Status ("Sensor read interval updated to " +:+ pretty new_interval
                   +:+ " seconds (thread).") "info" ],
         set_read_interval new_interval st)
  | toggle_mock_data enable_mock =>
      (Done,
       [ SetUseMockData enable_mock;
         Status ("Sensor interface mock data mode set to "
                 +:+ (if enable_mock then "True" else "False") +:+ ".") "info" ],
       st)
  | shutdown => (Done, [ shutdown_received ], set_is_running false st)
  | other_message msg_type =>
      (Done,
       [ Status ("Unknown control message type received: " +:+ msg_type) "warning" ], st)
  end.

(** Lines 43-48: the control messages are taken and processed until a
    [get] times out. *)
Fixpoint drain (fuel : nat) (E : env) (st : state) : result * list event * state :=
  match fuel with
  | O => (OutOfFuel, [], st)
  | S fuel' =>
      let (m, st) := get_message E st in
      match m with
      | None => (Done, [ Get None ], st)
      | Some control_message =>
          match _process_control_message E control_message st with
          | (Done, evs, st) =>
              let '(r, evs', st) := drain fuel' E st in
              (r, Get m :: evs ++ evs', st)
          | (r, evs, st) => (r, Get m :: evs, st)
          end
      end
  end.

Definition gt (a b : Q) : bool := if Qlt_le_dec b a then true else false.
Definition ge (a b : Q) : bool := if Qlt_le_dec a b then false else true.

(** Lines 50-69: the read of the sensors when it is due.  The calls that
    may raise are [log_sensor_data] and [check_and_archive_auto]. *)
Definition read_when_due (E : env) (st : state) : result * list event * state :=
  let (current_time, st) := now E st in
  if ge current_time (next_read_time st) then
    let (r, st) := call_logger E st in
    match r with
    | Some e => (Raise (LoggerError e), [ ReadAllSensors; AddData; LogSensorData ], st)
    | None =>
        let (r, st) := call_logger E st in
        let evs := [ ReadAllSensors; AddData; LogSensorData; EmitData;
                     CheckAndArchiveAuto ] in
        match r with
        | Some e => (Raise (LoggerError e), evs, st)
        | None =>
            (Done, evs,
             set_next_read_time (current_time + inject_Z (read_interval st))%Q st)
        end
    end
  else (Done, [], st).

(** Lines 72-79: the sleep in chunks of [polling_interval_ms]. *)
Fixpoint sleep_loop (fuel : nat) (E : env) (time_to_wait : Q) (st : state)
  : result * list event * state :=
  match fuel with
  | O => (OutOfFuel, [], st)
  | S fuel' =>
      if gt time_to_wait 0 then
        let (running, st) := check E st in
        if running then
          let sleep_chunk := (100 / 1000)%Q in
          let sleep_duration := Qmin time_to_wait sleep_chunk in
          let '(r, evs, st) := sleep_loop fuel' E (time_to_wait - sleep_duration)%Q st in
          (r, IsRunning true :: Sleep sleep_duration :: evs, st)
        else (Done, [ IsRunning false ], st)
      else (Done, [], st)
  end.

(** The [while self._is_running] loop. *)
Fixpoint main_loop (fuel : nat) (E : env) (st : state) : result * list event * state :=
  match fuel with
  | O => (OutOfFuel, [], st)
  | S fuel' =>
      let (running, st) := check E st in
      if running then
        match drain fuel' E st with
        | (Done, evs1, st) =>
            match read_when_due E st with
            | (Done, evs2, st) =>
                let (t, st) := now E st in
                let time_to_wait := (next_read_time st - t)%Q in
                match sleep_loop fuel' E time_to_wait st with
                | (Done, evs3, st) =>
                    let '(r, evs4, st) := main_loop fuel' E st in
                    (r, IsRunning true :: evs1 ++ evs2 ++ evs3 ++ evs4, st)
                | (r, evs3, st) => (r, IsRunning true :: evs1 ++ evs2 ++ evs3, st)
                end
            | (r, evs2, st) => (r, IsRunning true :: evs1 ++ evs2, st)
            end
        | (r, evs1, st) => (r, IsRunning true :: evs1, st)
        end
      else (Done, [ IsRunning false ], st)
  end.

Definition thread_started : event := Status "Sensor thread started." "info".
Definition thread_stopped : event := Status "Sensor thread stopped." "info".

(** [SensorReaderThread.run] *)
Definition run (fuel : nat) (E : env) (initial_read_interval : Z) : result * list event :=
  let (t, st) := now E (mk_state initial_read_interval 0 true 0 0 0 0) in
  let st := set_next_read_time t st in
  match main_loop fuel E st with
  | (Done, evs, _) => (Done, thread_started :: evs ++ [ thread_stopped; Quit ])
  | (r, evs, _) => (r, thread_started :: evs)
  end.

(** The thread takes a request to update the log settings off the queue. *)
Definition is_log_settings (e : event) : bool :=
  match e with
  | Get (Some (update_log_settings _ _ _ _ _ _)) => true
  | _ => false
  end.

Definition takes_log_settings (tr : list event) : Prop :=
  ∃ e, e ∈ tr ∧ is_log_settings e = true.

(** An event of the loop other than that. *)
Definition plain (e : event) : Prop :=
  is_log_settings e = false ∧ e ≠ Quit ∧ e ≠ thread_stopped.

(** The trace of a part of the loop: a request to update the log settings
    is the last event, and then the part ends with the [AttributeError]. *)
Definition ends_at_log_settings (r : result) (tr : list event) : Prop :=
  match r with
  | Raise (AttributeError class_name attribute) =>
      class_name = "DataLogger" ∧ attribute = "update_config"
      ∧ ∃ pre e, tr = pre ++ [ e ] ∧ is_log_settings e = true ∧ Forall plain pre
  | _ => Forall plain tr
  end.

(** What follows the shutdown message in a trace. *)
Definition after_shutdown (tr post : list event) : Prop :=
  ∃ pre, tr = pre ++ shutdown_received :: post.

(** What may follow the shutdown message: no sleep, no reading of
    [_is_running] that finds it set, and at most one read of the sensors. *)
Definition still (e : event) : Prop :=
  match e with
  | Sleep _ | IsRunning true => False
  | _ => True
  end.

Definition is_read (e : event) : bool :=
  match e with ReadAllSensors => true | _ => false end.

Definition quiet (e : event) : Prop := still e ∧ is_read e = false.

Definition winds_down (tr : list event) : Prop :=
  Forall still tr ∧ (length (List.filter is_read tr) ≤ 1)%nat.

(** A session: the settings dialog is applied while the thread runs; the
    clock advances by 0.3 s per reading. *)
Definition settings_env : env :=
  mk_env (fun _ => false)
         (fun n => (inject_Z (Z.of_nat n) * (3 / 10))%Q)
         (fun n => match n with
                   | 1%nat => Some (update_log_settings "/logs" "/archive" "/debug" true
                                      [ ("bme280", true) ] "INFO")
                   | _ => None
                   end)
         (fun _ => None).

(** A session that the shutdown message ends while a read is due. *)
Definition shutdown_env : env :=
  mk_env (fun _ => false)
         (fun n => (inject_Z (Z.of_nat n) * (3 / 10))%Q)
         (fun n => match n with
                   | 0%nat => Some shutdown
                   | 1%nat => Some (update_read_interval 2)
                   | _ => None
                   end)
         (fun _ => None).

End SensorReaderThread.

(** * Properties *)

(** ** The history buffer of [DataManager] *)

Section DataManagerFacts.
Context {D : Type}.
Implicit Types (dm : DataManager.t D) (calls : list (DataManager.datetime * D)).

Lemma add_all_cons c calls dm :
  DataManager.add_all dm (c :: calls)
  = DataManager.add_all (DataManager.add_data dm (fst c) (snd c)) calls.
Proof. reflexivity. Qed.

Lemma deque_append_length {A : Type} (maxlen : option nat) (d : list A) (x : A) :
  length (Deque.append maxlen d x) = Deque.appended_length maxlen (length d).
Proof.
  unfold Deque.append, Deque.appended_length.
  destruct maxlen as [n|]; rewrite ?length_app; simpl;
    replace (length d + 1)%nat with (S (length d)) by lia; [|done].
  destruct (n <? S (length d))%nat; [|by rewrite length_app; simpl; lia].
  destruct d; simpl; [done|]. rewrite length_app. simpl. lia.
Qed.

Lemma appended_length_bounded (n len : nat) :
  (len ≤ n)%nat → (Deque.appended_length (Some n) len ≤ n)%nat.
Proof.
  unfold Deque.appended_length. intros Hle.
  destruct (n <? S len)%nat eqn:E; [lia|]. apply Nat.ltb_ge in E. lia.
Qed.

Lemma add_all_maxlen calls dm :
  DataManager.maxlen (DataManager.add_all dm calls) = DataManager.maxlen dm.
Proof.
  revert dm. induction calls as [|c calls IH]; intros dm; [done|].
  by rewrite add_all_cons, IH.
Qed.

(** Both deques keep the same length under any run of [add_data]. *)
Lemma add_all_aligned calls dm :
  length (DataManager.timestamps dm) = length (DataManager.sensor_data_history dm) →
  length (DataManager.timestamps (DataManager.add_all dm calls))
  = length (DataManager.sensor_data_history (DataManager.add_all dm calls)).
Proof.
  revert dm. induction calls as [|c calls IH]; intros dm Hlen; [done|].
  rewrite add_all_cons. apply IH. simpl. rewrite !deque_append_length. by rewrite Hlen.
Qed.

Lemma add_all_bounded calls dm (n : nat) :
  DataManager.maxlen dm = Some n →
  (length (DataManager.sensor_data_history dm) ≤ n)%nat →
  (length (DataManager.sensor_data_history (DataManager.add_all dm calls)) ≤ n)%nat.
Proof.
  revert dm. induction calls as [|c calls IH]; intros dm Hmax Hlen; [done|].
  rewrite add_all_cons. apply IH; simpl; [done|].
  rewrite deque_append_length, Hmax. by apply appended_length_bounded.
Qed.

(** C3: whatever the capacity [max_data_points] and whatever the calls of
    [add_data] made on a fresh [DataManager], the history and the timestamp
    buffer hold at most [max_data_points] entries and have the same
    length. *)
Theorem add_data_history_bounded (max_data_points : nat) calls :
  let dm := DataManager.add_all (DataManager.init (Some max_data_points)) calls in
  (length (DataManager.sensor_data_history dm) ≤ max_data_points)%nat
  ∧ (length (DataManager.timestamps dm) ≤ max_data_points)%nat
  ∧ length (DataManager.timestamps dm) = length (DataManager.sensor_data_history dm).
Proof.
  intros dm.
  assert (Hal : length (DataManager.timestamps dm)
                = length (DataManager.sensor_data_history dm))
    by (by apply add_all_aligned).
  assert (Hb : (length (DataManager.sensor_data_history dm) ≤ max_data_points)%nat)
    by (apply add_all_bounded; simpl; [done|lia]).
  repeat split; [done|lia|done].
Qed.

(** The loop of [get_filtered_data] computes the filter of the paired
    buffers, as long as the history is as long as the timestamps. *)
Lemma filter_loop_spec (lim : option DataManager.datetime)
    (pre suf : list D) (rest acc_t : list DataManager.datetime) (acc_d : list D) :
  length suf = length rest →
  let kept := List.filter (fun p => DataManager.keeps lim (fst p)) (combine rest suf) in
  DataManager.filter_loop lim (pre ++ suf) (length pre) rest acc_t acc_d
  = inr (acc_t ++ map fst kept, acc_d ++ map snd kept).
Proof.
  revert pre suf acc_t acc_d.
  induction rest as [|ts rest IH]; intros pre suf acc_t acc_d Hlen; simpl.
  - destruct suf; simpl; by rewrite !app_nil_r.
  - destruct suf as [|d suf]; [done|]. simpl in Hlen. injection Hlen as Hlen.
    simpl.
    replace (pre ++ d :: suf) with ((pre ++ [d]) ++ suf) by (by rewrite <- app_assoc).
    replace (S (length pre)) with (length (pre ++ [d]))
      by (rewrite length_app; simpl; lia).
    destruct (DataManager.keeps lim ts) eqn:Hk.
    + rewrite <- app_assoc at 1. simpl.
      rewrite list_lookup_middle by done.
      replace (pre ++ d :: suf) with ((pre ++ [d]) ++ suf) by (by rewrite <- app_assoc).
      rewrite IH by done. simpl. by rewrite <- !app_assoc.
    + by rewrite IH.
Qed.

Lemma filter_keep_all {A : Type} (l : list A) :
  List.filter (fun _ => true) l = l.
Proof. induction l as [|a l IH]; simpl; by rewrite ?IH. Qed.

Lemma map_fst_combine {A B : Type} (l : list A) (k : list B) :
  length l = length k → map fst (combine l k) = l.
Proof.
  revert k. induction l as [|a l IH]; intros [|b k] H; simpl in *; try done.
  f_equal. apply IH. lia.
Qed.

Lemma map_snd_combine {A B : Type} (l : list A) (k : list B) :
  length l = length k → map snd (combine l k) = k.
Proof.
  revert k. induction l as [|a l IH]; intros [|b k] H; simpl in *; try done.
  f_equal. apply IH. lia.
Qed.

Lemma get_filtered_data_spec dm now (r : string) :
  length (DataManager.timestamps dm) = length (DataManager.sensor_data_history dm) →
  let kept :=
    List.filter (fun p => DataManager.keeps (DataManager.time_limit_of now r) (fst p))
      (combine (DataManager.timestamps dm) (DataManager.sensor_data_history dm)) in
  DataManager.get_filtered_data dm now r = inr (map fst kept, map snd kept).
Proof.
  intros Hlen. simpl. unfold DataManager.get_filtered_data.
  pose proof (filter_loop_spec (DataManager.time_limit_of now r) []
                (DataManager.sensor_data_history dm) (DataManager.timestamps dm) [] []) as H.
  simpl in H. specialize (H (eq_sym Hlen)).
  destruct (DataManager.timestamps dm) as [|t0 ts]; [done|exact H].
Qed.

Lemma recognized_time_limit now (r : string) (span : Z) :
  (r, span) ∈ DataManager.recognized_ranges →
  DataManager.time_limit_of now r = Some (now - span).
Proof.
  unfold DataManager.recognized_ranges. rewrite !elem_of_cons, elem_of_nil.
  intros [H|[H|[H|[H|[H|[]]]]]]; injection H as -> ->; reflexivity.
Qed.

Lemma unrecognized_time_limit now (r : string) :
  r ∉ map fst DataManager.recognized_ranges →
  DataManager.time_limit_of now r = None.
Proof.
  simpl. rewrite !not_elem_of_cons. intros (H1 & H2 & H3 & H4 & H5 & _).
  unfold DataManager.time_limit_of.
  repeat match goal with
         | |- context [String.eqb r ?s] =>
             destruct (String.eqb_spec r s); [congruence|]
         end.
  reflexivity.
Qed.

(** C4: for each of the five recognized range strings, [get_filtered_data]
    returns the entries whose timestamp is at least the current time minus
    the named span, in insertion order; the two returned lists are the
    timestamps and the data of the same entries, position by position. *)
Theorem get_filtered_data_recognized (max_data_points : option nat) calls
    (now : DataManager.datetime) (r : string) (span : Z) :
  (r, span) ∈ DataManager.recognized_ranges →
  let dm := DataManager.add_all (DataManager.init max_data_points) calls in
  DataManager.get_filtered_data dm now r
  = inr (map fst (DataManager.entries_since (now - span) dm),
         map snd (DataManager.entries_since (now - span) dm)).
Proof.
  intros Hr dm.
  rewrite get_filtered_data_spec by (by apply add_all_aligned).
  by rewrite (recognized_time_limit now r span Hr).
Qed.

(** C9: any other range string (such as "All data") puts no limit on the
    result, which is the whole history in order; a manager without data
    answers with two empty lists. *)
Theorem get_filtered_data_unrecognized (max_data_points : option nat) calls
    (now : DataManager.datetime) (r : string) :
  r ∉ map fst DataManager.recognized_ranges →
  let dm := DataManager.add_all (DataManager.init max_data_points) calls in
  DataManager.get_filtered_data dm now r
  = inr (DataManager.timestamps dm, DataManager.sensor_data_history dm)
  ∧ DataManager.get_filtered_data (DataManager.init (D:=D) max_data_points) now r
    = inr ([], []).
Proof.
  intros Hr dm. split; [|done].
  assert (Hal : length (DataManager.timestamps dm)
                = length (DataManager.sensor_data_history dm))
    by (by apply add_all_aligned).
  rewrite get_filtered_data_spec by done.
  rewrite (unrecognized_time_limit now r Hr). simpl.
  rewrite filter_keep_all.
  by rewrite map_fst_combine, map_snd_combine.
Qed.

End DataManagerFacts.

Lemma get_filtered_data_recognized_witness :
  (("Last 10 minutes", DataManager.timedelta_minutes 10) ∈ DataManager.recognized_ranges)
  ∧ DataManager.get_filtered_data
      (DataManager.add_all (DataManager.init (Some 2%nat)) DataManager.sample_calls)
      1500000000 "Last 10 minutes"
    = inr ([1000000000; 1300000000], [22%nat; 33%nat]).
Proof.
  split.
  - apply list_elem_of_here.
  - apply (get_filtered_data_recognized (Some 2%nat) DataManager.sample_calls 1500000000
             "Last 10 minutes" (DataManager.timedelta_minutes 10)).
    apply list_elem_of_here.
Defined.

Lemma get_filtered_data_unrecognized_witness :
  ("All data" ∉ map fst DataManager.recognized_ranges)
  ∧ DataManager.get_filtered_data
      (DataManager.add_all (DataManager.init (Some 2%nat)) DataManager.sample_calls)
      1500000000 "All data"
    = inr ([1000000000; 1300000000], [22%nat; 33%nat]).
Proof.
  assert (H : "All data" ∉ map fst DataManager.recognized_ranges).
  { simpl. rewrite !not_elem_of_cons. repeat split; try discriminate.
    apply not_elem_of_nil. }
  split; [exact H|].
  exact (proj1 (get_filtered_data_unrecognized (Some 2%nat) DataManager.sample_calls 1500000000
                  "All data" H)).
Defined.

(** ** Heading differences in the trip analysis *)

Section TripAnalysisFacts.
Local Open Scope Q_scope.

Lemma inject_Z_sub (a b : Z) : inject_Z (a - b) == inject_Z a - inject_Z b.
Proof. unfold Z.sub. rewrite inject_Z_plus, inject_Z_opp. reflexivity. Qed.

Lemma mod360_def (x : Q) :
  ∃ k : Z, TripAnalysis.mod360 x == x - 360 * inject_Z k
           ∧ 0 <= TripAnalysis.mod360 x ∧ TripAnalysis.mod360 x < 360.
Proof.
  exists (Qfloor (x / 360)). unfold TripAnalysis.mod360.
  pose proof (Qfloor_le (x / 360)) as Hlo.
  pose proof (Qlt_floor (x / 360)) as Hhi.
  rewrite inject_Z_plus in Hhi.
  assert (Hx : x == 360 * (x / 360)) by (field).
  set (f := inject_Z (Qfloor (x / 360))) in *.
  set (y := x / 360) in *.
  change (inject_Z 1) with 1 in Hhi.
  split; [reflexivity|]. split; lra.
Qed.

Lemma gt_true (a b : Q) : TripAnalysis.gt a b = true ↔ b < a.
Proof.
  unfold TripAnalysis.gt. destruct (Qlt_le_dec b a) as [H|H]; split; intros; try done.
  exfalso. lra.
Qed.

Lemma gt_false (a b : Q) : TripAnalysis.gt a b = false ↔ a <= b.
Proof.
  unfold TripAnalysis.gt. destruct (Qlt_le_dec b a) as [H|H]; split; intros; try done.
  exfalso. lra.
Qed.

Lemma lt_true (a b : Q) : TripAnalysis.lt a b = true ↔ a < b.
Proof.
  unfold TripAnalysis.lt. destruct (Qlt_le_dec a b) as [H|H]; split; intros; try done.
  exfalso. lra.
Qed.

Lemma lt_false (a b : Q) : TripAnalysis.lt a b = false ↔ b <= a.
Proof.
  unfold TripAnalysis.lt. destruct (Qlt_le_dec a b) as [H|H]; split; intros; try done.
  exfalso. lra.
Qed.

(** The normalized difference lies in [-180, 180] and differs from the raw
    difference of the headings by a whole number of turns. *)
Lemma normalized_heading_diff_range (p c : Q) :
  -180 <= TripAnalysis.normalized_heading_diff p c
  ∧ TripAnalysis.normalized_heading_diff p c <= 180
  ∧ ∃ k : Z, TripAnalysis.normalized_heading_diff p c == c - p + 360 * inject_Z k.
Proof.
  unfold TripAnalysis.normalized_heading_diff.
  destruct (mod360_def p) as (kp & Hp & Hp0 & Hp1).
  destruct (mod360_def c) as (kc & Hc & Hc0 & Hc1).
  set (mp := TripAnalysis.mod360 p) in *. set (mc := TripAnalysis.mod360 c) in *.
  destruct (TripAnalysis.gt (mc - mp) 180) eqn:E1.
  - apply gt_true in E1. split; [lra|]. split; [lra|].
    exists (kp - kc - 1)%Z. rewrite !inject_Z_sub. change (inject_Z 1) with 1. lra.
  - apply gt_false in E1.
    destruct (TripAnalysis.lt (mc - mp) (-180)) eqn:E2.
    + apply lt_true in E2. split; [lra|]. split; [lra|].
      exists (kp - kc + 1)%Z. rewrite inject_Z_plus, inject_Z_sub.
      change (inject_Z 1) with 1. lra.
    + apply lt_false in E2. split; [lra|]. split; [lra|].
      exists (kp - kc)%Z. rewrite inject_Z_sub. lra.
Qed.


Lemma angular_velocity_bound (hd dt : Q) :
  0 < dt → -180 <= hd → hd <= 180 →
  TripAnalysis.angular_velocity_deg_per_sec hd dt <= 180 / dt.
Proof.
  intros Hdt Hlo Hhi. unfold TripAnalysis.angular_velocity_deg_per_sec.
  assert (E : TripAnalysis.gt dt 0 = true) by (by apply gt_true).
  rewrite E. unfold Qdiv. rewrite Qabs_Qmult.
  assert (Hinv : 0 < / dt) by (by apply Qinv_lt_0_compat).
  rewrite (Qabs_pos (/ dt)) by lra.
  apply Qmult_le_compat_r; [|lra].
  apply Qabs_Qle_condition. split; lra.
Qed.


End TripAnalysisFacts.


(** Crossing north from 359 to 1 degree in one second is a turn of 2 degrees:
    the analysis counts no sharp cornering for it. *)
Example crossing_north_is_not_a_sharp_corner :
  TripAnalysis.normalized_heading_diff 359 1 = 2%Q
  ∧ TripAnalysis.an_sharp_cornering_events
      (TripAnalysis._analyze_trip_data (fun _ _ _ _ => 0%Q) 1
         [TripAnalysis.sample_prev; TripAnalysis.sample_dp]) = 0%nat.
Proof. split; vm_compute; reflexivity. Qed.

(** ** Reading the sensors *)

Section SensorFacts.

Lemma random_unit (g : PyRandom.rng) :
  (0 <= fst (PyRandom.random g))%Q ∧ (fst (PyRandom.random g) <= 1)%Q.
Proof.
  unfold PyRandom.random, PyRandom.next. cbn [fst].
  set (k := PyRandom.draws g (PyRandom.pos g)).
  assert (H : (k mod 9007199254740992 < 9007199254740992)%N)
    by (by apply N.mod_lt).
  apply N2Z.inj_lt in H.
  pose proof (N2Z.is_nonneg (k mod 9007199254740992)) as H0.
  unfold Qle. cbn [Qnum Qden].
  set (z := Z.of_N (k mod 9007199254740992)) in *. clearbody z.
  change (Z.of_N 9007199254740992) with 9007199254740992 in H.
  split; lia.
Qed.

Lemma uniform_eq (a b : Q) (g : PyRandom.rng) :
  PyRandom.uniform a b g
  = (Num (a + (b - a) * fst (PyRandom.random g))%Q, snd (PyRandom.next g)).
Proof. reflexivity. Qed.

Lemma uniform_range (a b : Q) (g : PyRandom.rng) :
  (a <= b)%Q →
  ∃ q, fst (PyRandom.uniform a b g) = Num q ∧ (a <= q)%Q ∧ (q <= b)%Q.
Proof.
  intros Hab. rewrite uniform_eq. cbn [fst].
  destruct (random_unit g) as [H0 H1].
  set (u := fst (PyRandom.random g)) in *.
  eexists; split; [reflexivity|]. split; nra.
Qed.

Lemma randint_range (a b : Z) (g : PyRandom.rng) :
  a <= b →
  ∃ q, fst (PyRandom.randint a b g) = Num q
       ∧ (inject_Z a <= q)%Q ∧ (q <= inject_Z b)%Q.
Proof.
  intros Hab. unfold PyRandom.randint, PyRandom.next. cbn [fst].
  eexists; split; [reflexivity|].
  set (k := Z.of_N _).
  assert (H : 0 <= k mod (b - a + 1) < b - a + 1) by (apply Z.mod_pos_bound; lia).
  rewrite <- !Zle_Qle. lia.
Qed.

Ltac draw_uniform a b g v g' H :=
  pose proof (uniform_range a b g ltac:(by vm_compute)) as H;
  destruct (PyRandom.uniform a b g) as [v g']; cbn [fst] in H;
  destruct H as (? & -> & ?).

Ltac draw_randint a b g v g' H :=
  pose proof (randint_range a b g ltac:(lia)) as H;
  destruct (PyRandom.randint a b g) as [v g']; cbn [fst] in H;
  destruct H as (? & -> & ?).

Ltac found := eexists; split; [reflexivity|assumption].

Lemma mock_bme280_ok (g : PyRandom.rng) :
  let d := fst (Drivers.mock_bme280 g) in
  Sensors.metric_within d "temp_c" 20 30 ∧ Sensors.metric_within d "humidity" 40 60
  ∧ Sensors.metric_within d "pressure" 900 1100
  ∧ Sensors.metric_within d "altitude" 500 1500.
Proof.
  unfold Drivers.mock_bme280.
  draw_uniform 20%Q 30%Q g v1 g1 H1. draw_uniform 40%Q 60%Q g1 v2 g2 H2.
  draw_uniform 900%Q 1100%Q g2 v3 g3 H3. draw_uniform 500%Q 1500%Q g3 v4 g4 H4.
  destruct (PyRandom.uniform 68 86 g4) as [v5 g5].
  destruct (PyRandom.uniform 10 20 g5) as [v6 g6].
  destruct (PyRandom.uniform 50 68 g6) as [v7 g7].
  cbn [fst]. unfold Sensors.metric_within. repeat split; found.
Qed.

Lemma mock_sgp40_ok (g : PyRandom.rng) :
  Sensors.metric_within (fst (Drivers.mock_sgp40 g)) "voc_index" 0 500.
Proof.
  unfold Drivers.mock_sgp40. draw_uniform 0%Q 500%Q g v1 g1 H1.
  cbn [fst]. unfold Sensors.metric_within. found.
Qed.

Lemma mock_shtc3_ok (g : PyRandom.rng) :
  let d := fst (Drivers.mock_shtc3 g) in
  Sensors.metric_within d "temperature" 20 30 ∧ Sensors.metric_within d "humidity" 40 60.
Proof.
  unfold Drivers.mock_shtc3.
  draw_uniform 20%Q 30%Q g v1 g1 H1. draw_uniform 40%Q 60%Q g1 v2 g2 H2.
  cbn [fst]. unfold Sensors.metric_within. split; found.
Qed.

Lemma mock_proximity_ok (g : PyRandom.rng) :
  let d := fst (Drivers.mock_proximity g) in
  Sensors.metric_within d "proximity" 0 255
  ∧ Sensors.metric_within d "ambient_light" 0 1023
  ∧ Sensors.metric_within d "white_light" 0 1023.
Proof.
  unfold Drivers.mock_proximity.
  draw_randint 0 255 g v1 g1 H1. draw_randint 0 1023 g1 v2 g2 H2.
  draw_randint 0 1023 g2 v3 g3 H3.
  cbn [fst]. unfold Sensors.metric_within. repeat split; found.
Qed.

(** The dictionary assembled from four mock entries is within the ranges. *)
Lemma mock_entries_in_ranges (g1 g2 g3 g4 : PyRandom.rng) :
  Sensors.in_mock_ranges
    (<["proximity" := fst (Drivers.mock_proximity g4)]>
       (<["shtc3" := fst (Drivers.mock_shtc3 g3)]>
          (<["sgp40" := fst (Drivers.mock_sgp40 g2)]>
             (<["bme280" := fst (Drivers.mock_bme280 g1)]> ∅)))).
Proof.
  destruct (mock_bme280_ok g1) as (B1 & B2 & B3 & B4).
  pose proof (mock_sgp40_ok g2) as S1.
  destruct (mock_shtc3_ok g3) as (T1 & T2).
  destruct (mock_proximity_ok g4) as (P1 & P2 & P3).
  unfold Sensors.in_mock_ranges, Sensors.within.
  repeat split; eexists; (split; [reflexivity|assumption]).
Qed.

Lemma qt_mock_poll_in_ranges (self : SensorInterfaceQt.t) (g : PyRandom.rng) :
  SensorInterfaceQt._use_mock_data self = true →
  Sensors.in_mock_ranges
    (SensorInterfaceQt.sensor_data (SensorInterfaceQt.read_all_sensors self g)).
Proof.
  intros Hmock. unfold SensorInterfaceQt.read_all_sensors. rewrite Hmock.
  pose proof (mock_entries_in_ranges g) as H.
  destruct (Drivers.mock_bme280 g) as [d1 g1]. specialize (H g1).
  destruct (Drivers.mock_sgp40 g1) as [d2 g2]. specialize (H g2).
  destruct (Drivers.mock_shtc3 g2) as [d3 g3]. specialize (H g3).
  destruct (Drivers.mock_proximity g3) as [d4 g4]. exact H.
Qed.

(** Without [SENSORS_AVAILABLE] the Tk interface creates no driver. *)
Lemma tk_init_unavailable (G : SensorInterfaceTk.globals) :
  SensorInterfaceTk.SENSORS_AVAILABLE G = false →
  ∃ msgs, SensorInterfaceTk.init G
          = (SensorInterfaceTk.mk G None None None None, msgs).
Proof.
  intros Hna. unfold SensorInterfaceTk.init. rewrite Hna.
  rewrite andb_false_r.
  destruct (SensorInterfaceTk.qwiic_bme280 G), (SensorInterfaceTk.qwiic_sgp40 G),
    (SensorInterfaceTk.qwiic_proximity G),
    (SensorInterfaceTk.adafruit_shtc3 G) as [[[]|]|];
    eexists; reflexivity.
Qed.

Lemma tk_mock_poll_in_ranges (G : SensorInterfaceTk.globals) (g : PyRandom.rng) :
  SensorInterfaceTk.SENSORS_AVAILABLE G = false →
  Sensors.in_mock_ranges
    (SensorInterfaceTk.sensor_data
       (SensorInterfaceTk.read_all_sensors (fst (SensorInterfaceTk.init G)) g)).
Proof.
  intros Hna. destruct (tk_init_unavailable G Hna) as [msgs ->]. cbn [fst].
  unfold SensorInterfaceTk.read_all_sensors, SensorInterfaceTk.read_block.
  cbn [SensorInterfaceTk.env SensorInterfaceTk.bme SensorInterfaceTk.sgp
       SensorInterfaceTk.sht SensorInterfaceTk.prox].
  rewrite Hna. cbn [negb].
  pose proof (mock_entries_in_ranges g) as H.
  destruct (Drivers.mock_bme280 g) as [d1 g1]. specialize (H g1).
  destruct (Drivers.mock_sgp40 g1) as [d2 g2]. specialize (H g2).
  destruct (Drivers.mock_shtc3 g2) as [d3 g3]. specialize (H g3).
  destruct (Drivers.mock_proximity g3) as [d4 g4]. exact H.
Qed.

(** C6: in mock mode (the Qt interface with [_use_mock_data], the Tk
    interface on a machine without [SENSORS_AVAILABLE]) every poll of every
    run of polls, from any state of the random generator, reports bme280
    temp_c in [20, 30], humidity in [40, 60], pressure in [900, 1100],
    altitude in [500, 1500], sgp40 voc_index in [0, 500], shtc3 temperature
    in [20, 30] and humidity in [40, 60], proximity in [0, 255] and ambient
    and white light in [0, 1023]. *)
Theorem mock_polls_in_ranges :
  (∀ (self : SensorInterfaceQt.t) (g : PyRandom.rng) (n : nat),
      SensorInterfaceQt._use_mock_data self = true →
      Forall Sensors.in_mock_ranges (SensorInterfaceQt.polls self g n))
  ∧ (∀ (G : SensorInterfaceTk.globals) (g : PyRandom.rng) (n : nat),
      SensorInterfaceTk.SENSORS_AVAILABLE G = false →
      Forall Sensors.in_mock_ranges
        (SensorInterfaceTk.polls (fst (SensorInterfaceTk.init G)) g n)).
Proof.
  split.
  - intros self g n Hmock. revert g.
    induction n as [|n IH]; intros g; simpl; constructor.
    + by apply qt_mock_poll_in_ranges.
    + apply IH.
  - intros G g n Hna. revert g.
    induction n as [|n IH]; intros g; simpl; constructor.
    + by apply tk_mock_poll_in_ranges.
    + apply IH.
Qed.

End SensorFacts.

Lemma mock_polls_in_ranges_witness :
  Forall Sensors.in_mock_ranges
    (SensorInterfaceQt.polls (SensorInterfaceQt.mk true None None None None)
       Sensors.sample_rng 2)
  ∧ Forall Sensors.in_mock_ranges
      (SensorInterfaceTk.polls
         (fst (SensorInterfaceTk.init
                 (SensorInterfaceTk.mk_globals false false None None None None)))
         Sensors.sample_rng 2).
Proof.
  split.
  - apply (proj1 mock_polls_in_ranges). reflexivity.
  - apply (proj2 mock_polls_in_ranges). reflexivity.
Defined.

Section ReadErrorFacts.

Lemma nan_dict_lookup (keys : list string) (metric : string) :
  nan_dict keys !! metric = if decide (metric ∈ keys) then Some NaN else None.
Proof.
  unfold nan_dict. induction keys as [|k keys IH]; cbn [map list_to_map foldr uncurry fst snd].
  - rewrite lookup_empty. destruct (decide (metric ∈ [])) as [H|H]; [inversion H|done].
  - destruct (decide (k = metric)) as [->|Hne].
    + rewrite lookup_insert_eq.
      destruct (decide (metric ∈ metric :: keys)) as [H|H]; [done|].
      exfalso. apply H, list_elem_of_here.
    + rewrite lookup_insert_ne by done. rewrite IH.
      destruct (decide (metric ∈ keys)) as [Hin|Hnin],
        (decide (metric ∈ k :: keys)) as [Hin'|Hnin']; try done.
      * exfalso. apply Hnin'. by apply list_elem_of_further.
      * exfalso. apply elem_of_cons in Hin' as [->|?]; done.
Qed.

(** What [hardware_read] says, sensor by sensor. *)
Lemma hardware_read_cases bme sgp sht prox (sensor : string) (r : exn + gmap string value) :
  Sensors.hardware_read bme sgp sht prox sensor = Some r →
  (sensor = "bme280" ∧ ∃ d, bme = Some d ∧ Drivers.read_bme280 d = r)
  ∨ (sensor = "sgp40" ∧ ∃ d, sgp = Some d ∧ Drivers.read_sgp40 d = r)
  ∨ (sensor = "shtc3" ∧ ∃ d, sht = Some d ∧ Drivers.read_shtc3 d = r)
  ∨ (sensor = "proximity" ∧ ∃ d, prox = Some d ∧ Drivers.read_proximity d = r).
Proof.
  unfold Sensors.hardware_read.
  repeat match goal with
         | |- context [String.eqb sensor ?s] => destruct (String.eqb_spec sensor s)
         end; try done.
  - destruct bme as [d|]; [|done]. intros [= <-]. left. eauto.
  - destruct sgp as [d|]; [|done]. intros [= <-]. right; left. eauto.
  - destruct sht as [d|]; [|done]. intros [= <-]. do 2 right; left. eauto.
  - destruct prox as [d|]; [|done]. intros [= <-]. do 3 right. eauto.
Qed.

Ltac nan_entry :=
  eexists; split; [reflexivity|]; intros metric; apply nan_dict_lookup.

Ltac four_names :=
  rewrite !dom_insert_L, dom_empty_L; simpl; set_solver.

Ltac emitted_here :=
  rewrite !elem_of_app;
  first [ left; apply list_elem_of_here
        | right; left; apply list_elem_of_here
        | right; right; left; apply list_elem_of_here
        | right; right; right; apply list_elem_of_here ].

Lemma qt_read_block_error {Dev : Type} (dev : option Dev) (d : Dev)
    (read : Dev → exn + gmap string value) (label : string) (keys : list string)
    (e : exn) :
  dev = Some d → read d = inl e →
  SensorInterfaceQt.read_block dev read label keys
  = (nan_dict keys, [ (label +:+ " read error: " +:+ exn_text e, "warning") ]).
Proof. intros -> Hr. unfold SensorInterfaceQt.read_block. by rewrite Hr. Qed.

Lemma qt_read_error (self : SensorInterfaceQt.t) (g : PyRandom.rng)
    (sensor : string) (e : exn) :
  SensorInterfaceQt._use_mock_data self = false →
  Sensors.hardware_read (SensorInterfaceQt.bme self) (SensorInterfaceQt.sgp self)
    (SensorInterfaceQt.sht self) (SensorInterfaceQt.prox self) sensor = Some (inl e) →
  let o := SensorInterfaceQt.read_all_sensors self g in
  Sensors.all_nan (SensorInterfaceQt.sensor_data o) sensor
  ∧ (Sensors.label sensor +:+ " read error: " +:+ exn_text e, "warning")
      ∈ SensorInterfaceQt.emitted o
  ∧ dom (SensorInterfaceQt.sensor_data o) = list_to_set Sensors.names.
Proof.
  intros Hmock Hread o. subst o.
  unfold SensorInterfaceQt.read_all_sensors. rewrite Hmock.
  apply hardware_read_cases in Hread.
  destruct Hread as [(-> & d & Hd & Hr)|[(-> & d & Hd & Hr)
                    |[(-> & d & Hd & Hr)|(-> & d & Hd & Hr)]]];
    rewrite (qt_read_block_error _ d _ _ _ e Hd Hr);
    repeat match goal with
           | |- context [SensorInterfaceQt.read_block ?a ?b ?c ?k] =>
               destruct (SensorInterfaceQt.read_block a b c k) as [? ?]
           end;
    cbn [SensorInterfaceQt.sensor_data SensorInterfaceQt.emitted];
    (split; [nan_entry|split; [emitted_here|four_names]]).
Qed.

Lemma tk_read_block_error {Dev : Type} (G : SensorInterfaceTk.globals)
    (dev : option Dev) (d : Dev)
    (read : Dev → exn + gmap string value) (label : string) (keys : list string)
    (mock : PyRandom.rng → gmap string value * PyRandom.rng) (g : PyRandom.rng)
    (e : exn) :
  dev = Some d → read d = inl e →
  SensorInterfaceTk.read_block G dev read label keys mock g
  = (nan_dict keys, [ (label +:+ " read error: " +:+ exn_text e, "orange") ], g).
Proof. intros -> Hr. unfold SensorInterfaceTk.read_block. by rewrite Hr. Qed.

Lemma tk_read_error (self : SensorInterfaceTk.t) (g : PyRandom.rng)
    (sensor : string) (e : exn) :
  Sensors.hardware_read (SensorInterfaceTk.bme self) (SensorInterfaceTk.sgp self)
    (SensorInterfaceTk.sht self) (SensorInterfaceTk.prox self) sensor = Some (inl e) →
  let o := SensorInterfaceTk.read_all_sensors self g in
  Sensors.all_nan (SensorInterfaceTk.sensor_data o) sensor
  ∧ (Sensors.label sensor +:+ " read error: " +:+ exn_text e, "orange")
      ∈ SensorInterfaceTk.emitted o
  ∧ dom (SensorInterfaceTk.sensor_data o) = list_to_set Sensors.names.
Proof.
  intros Hread o. subst o.
  unfold SensorInterfaceTk.read_all_sensors.
  apply hardware_read_cases in Hread.
  destruct Hread as [(-> & d & Hd & Hr)|[(-> & d & Hd & Hr)
                    |[(-> & d & Hd & Hr)|(-> & d & Hd & Hr)]]];
    repeat match goal with
           | |- context [SensorInterfaceTk.read_block ?G ?a ?b ?c ?k ?m ?g0] =>
               first [ rewrite (tk_read_block_error G a d b c k m g0 e Hd Hr)
                     | destruct (SensorInterfaceTk.read_block G a b c k m g0)
                         as [[? ?] ?] ]
           end;
    cbn [SensorInterfaceTk.sensor_data SensorInterfaceTk.emitted];
    (split; [nan_entry|split; [emitted_here|four_names]]).
Qed.

(** C1: in both applications, when the hardware read of a sensor raises
    during [read_all_sensors], the call still returns a dictionary with an
    entry for each of the four sensors, the entry of the failing sensor
    holds NaN for every one of its metrics and nothing else, and a
    "<sensor> read error: <text>" status message has been emitted. *)
Theorem read_error_gives_all_nan (sensor : string) (e : exn) (g : PyRandom.rng) :
  (∀ self : SensorInterfaceQt.t,
      SensorInterfaceQt._use_mock_data self = false →
      Sensors.hardware_read (SensorInterfaceQt.bme self) (SensorInterfaceQt.sgp self)
        (SensorInterfaceQt.sht self) (SensorInterfaceQt.prox self) sensor
      = Some (inl e) →
      let o := SensorInterfaceQt.read_all_sensors self g in
      Sensors.all_nan (SensorInterfaceQt.sensor_data o) sensor
      ∧ (Sensors.label sensor +:+ " read error: " +:+ exn_text e, "warning")
          ∈ SensorInterfaceQt.emitted o
      ∧ dom (SensorInterfaceQt.sensor_data o) = list_to_set Sensors.names)
  ∧ (∀ self : SensorInterfaceTk.t,
      Sensors.hardware_read (SensorInterfaceTk.bme self) (SensorInterfaceTk.sgp self)
        (SensorInterfaceTk.sht self) (SensorInterfaceTk.prox self) sensor
      = Some (inl e) →
      let o := SensorInterfaceTk.read_all_sensors self g in
      Sensors.all_nan (SensorInterfaceTk.sensor_data o) sensor
      ∧ (Sensors.label sensor +:+ " read error: " +:+ exn_text e, "orange")
          ∈ SensorInterfaceTk.emitted o
      ∧ dom (SensorInterfaceTk.sensor_data o) = list_to_set Sensors.names).
Proof.
  split.
  - intros self. apply qt_read_error.
  - intros self. apply tk_read_error.
Qed.

End ReadErrorFacts.

Lemma read_error_gives_all_nan_witness :
  Sensors.all_nan
    (SensorInterfaceQt.sensor_data
       (SensorInterfaceQt.read_all_sensors Sensors.sample_qt Sensors.sample_rng)) "bme280"
  ∧ ("BME280 read error: I2C bus error", "warning")
      ∈ SensorInterfaceQt.emitted
          (SensorInterfaceQt.read_all_sensors Sensors.sample_qt Sensors.sample_rng)
  ∧ Sensors.all_nan
      (SensorInterfaceTk.sensor_data
         (SensorInterfaceTk.read_all_sensors Sensors.sample_tk Sensors.sample_rng)) "bme280"
  ∧ ("BME280 read error: I2C bus error", "orange")
      ∈ SensorInterfaceTk.emitted
          (SensorInterfaceTk.read_all_sensors Sensors.sample_tk Sensors.sample_rng).
Proof.
  destruct (read_error_gives_all_nan "bme280" (OSError "I2C bus error") Sensors.sample_rng)
    as [Hqt Htk].
  destruct (Hqt Sensors.sample_qt eq_refl eq_refl) as (Q1 & Q2 & _).
  destruct (Htk Sensors.sample_tk eq_refl) as (T1 & T2 & _).
  repeat split; assumption.
Defined.

(** ** The CSV logger *)

Section ArchiveFacts.
Import DataLoggerQt.

Lemma io_ok (E : env) (o : op) (s : t) :
  outcome_of E s o = None →
  io E o s = (inr tt, set_disk (effect o (disk s)) (add_trace (o, None) s)).
Proof. intros H. unfold io. by rewrite H. Qed.

Lemma io_raises (E : env) (o : op) (s : t) (e : exn) :
  outcome_of E s o = Some e → io E o s = (inl e, add_trace (o, Some e) s).
Proof. intros H. unfold io. by rewrite H. Qed.

Lemma get_remove {V : Type} (k : string) (d : OrderedDict.t V) :
  OrderedDict.get k (OrderedDict.remove k d) = None.
Proof.
  induction d as [|[k' v] d IH]; simpl; [done|].
  destruct (String.eqb k k') eqn:E; simpl; [done|]. by rewrite E.
Qed.

(** Whenever the file of a sensor is closed and moved without error, the
    [finally] clause deletes a key that the [try] body has already deleted:
    the iteration raises [KeyError]. *)
Lemma archive_one_raises_after_success (E : env) (destination_dir sensor_name : string)
    (s : t) (f : file_obj) :
  OrderedDict.get sensor_name (_active_log_file_handles s) = Some f →
  outcome_of E s (Close (name f)) = None →
  outcome_of E (add_trace (Close (name f), None) s)
    (Move (name f) (path_join destination_dir (basename (name f)))) = None →
  fst (archive_one E destination_dir sensor_name s) = inl (KeyError sensor_name).
Proof.
  intros Hget Hclose Hmove.
  unfold archive_one, getitem, bind, gets, ret. rewrite Hget.
  unfold try_finally, try_except, bind.
  rewrite (io_ok _ _ _ Hclose). cbn [effect].
  replace (set_disk (disk s) (add_trace (Close (name f), None) s))
    with (add_trace (Close (name f), None) s) by (by destruct s).
  rewrite (io_ok _ _ _ Hmove).
  unfold delitem, bind, gets. cbn [_active_log_file_handles set_disk add_trace].
  rewrite Hget. unfold modify. cbn [_active_log_file_handles set_handles].
  by rewrite get_remove.
Qed.

(** C2, at a failing input: with two open log files and no failing system
    call, [archive_logs] moves the first file and then raises [KeyError], and
    so does [log_sensor_data] once the automatic archive is due. *)
Theorem archive_logs_raises_key_error :
  fst (archive_logs calm_day started_logger) = inl (KeyError "bme280")
  ∧ fst (log_sensor_data overdue_day ∅ started_logger) = inl (KeyError "bme280")
  ∧ OrderedDict.keys (_active_log_file_handles (snd (archive_logs calm_day started_logger)))
    = [ "sgp40" ].
Proof. repeat split; vm_compute; reflexivity. Qed.

End ArchiveFacts.

(** *** A weakest-precondition calculus for the statements of the logger *)

Section LoggerFacts.
Import DataLoggerQt.

Lemma wp_bind {A B : Type} (m : M A) (k : A → M B) Q s :
  wp m (fun r s' => match r with
                    | inr a => wp (k a) Q s'
                    | inl e => Q (inl e) s'
                    end) s →
  wp (bind m k) Q s.
Proof. unfold wp, bind. by destruct (m s) as [[e|a] s']. Qed.

Lemma wp_ret {A : Type} (a : A) (Q : exn + A → t → Prop) s : Q (inr a) s → wp (ret a) Q s.
Proof. done. Qed.

Lemma wp_raise {A : Type} (e : exn) (Q : exn + A → t → Prop) s :
  Q (inl e) s → wp (raise e) Q s.
Proof. done. Qed.

Lemma wp_gets {A : Type} (f : t → A) (Q : exn + A → t → Prop) s :
  Q (inr (f s)) s → wp (gets f) Q s.
Proof. done. Qed.

Lemma wp_modify (f : t → t) (Q : exn + unit → t → Prop) s :
  Q (inr tt) (f s) → wp (modify f) Q s.
Proof. done. Qed.

Lemma wp_io (E : env) (o : op) (Q : exn + unit → t → Prop) s :
  match outcome_of E s o with
  | Some e => Q (inl e) (add_trace (o, Some e) s)
  | None => Q (inr tt) (set_disk (effect o (disk s)) (add_trace (o, None) s))
  end →
  wp (io E o) Q s.
Proof. unfold wp, io. by destruct (outcome_of E s o). Qed.

Lemma wp_try_except {A : Type} (m : M A) (h : exn → M A) Q s :
  wp m (fun r s' => match r with
                    | inr a => Q (inr a) s'
                    | inl e => wp (h e) Q s'
                    end) s →
  wp (try_except m h) Q s.
Proof. unfold wp, try_except. by destruct (m s) as [[e|a] s']. Qed.

Lemma wp_try_finally {A : Type} (m : M A) (f : M unit) Q s :
  wp m (fun r s' => wp f (fun r' s'' => match r' with
                                         | inr _ => Q r s''
                                         | inl e => Q (inl e) s''
                                         end) s') s →
  wp (try_finally m f) Q s.
Proof.
  unfold wp, try_finally. destruct (m s) as [r s']. simpl.
  by destruct (f s') as [[e|[]] s''].
Qed.

Lemma wp_mono {A : Type} (m : M A) (Q Q' : exn + A → t → Prop) s :
  wp m Q s → (∀ r s', Q r s' → Q' r s') → wp m Q' s.
Proof. unfold wp. auto. Qed.

Lemma wp_for_each {A : Type} (body : A → M unit) (l : list A)
    (I : t → Prop) (Q : exn + unit → t → Prop) s :
  (∀ x s0, x ∈ l → I s0 →
     wp (body x) (fun r s' => match r with
                              | inr _ => I s'
                              | inl e => Q (inl e) s'
                              end) s0) →
  (∀ s0, I s0 → Q (inr tt) s0) →
  I s → wp (for_each body l) Q s.
Proof.
  revert s. induction l as [|x l IH]; intros s Hbody Hend HI; simpl.
  - by apply wp_ret, Hend.
  - apply wp_bind. eapply wp_mono; [apply Hbody; [apply list_elem_of_here|done]|].
    intros [e|[]] s' H; [done|].
    apply IH; [|done|done].
    intros y s0 Hy. apply Hbody. by apply list_elem_of_further.
Qed.

Ltac wp_simpl :=
  cbn beta iota;
  cbn [fst snd effect negb _log_path_internal _archive_path_internal
       _archive_enabled_internal _log_settings_internal _active_log_file_handles
       last_archive_time archive_interval_hours disk emitted trace name
       set_disk set_handles set_last_archive_time add_emitted add_trace].

Ltac wp_step :=
  lazymatch goal with
  | |- wp (bind _ _) _ _ => apply wp_bind
  | |- wp (ret _) _ _ => apply wp_ret
  | |- wp (raise _) _ _ => apply wp_raise
  | |- wp (gets _) _ _ => apply wp_gets
  | |- wp (modify _) _ _ => apply wp_modify
  | |- wp (emit _ _) _ _ => unfold emit
  | |- wp (delitem _) _ _ => unfold delitem
  | |- wp (getitem _) _ _ => unfold getitem
  | |- wp (try_except _ _) _ _ => apply wp_try_except
  | |- wp (try_finally _ _) _ _ => apply wp_try_finally
  | |- wp (io ?E ?o) _ ?s =>
      apply wp_io; destruct (outcome_of E s o) eqn:?
  | |- wp (match OrderedDict.get ?k ?d with _ => _ end) _ _ =>
      destruct (OrderedDict.get k d) eqn:?
  | |- wp (match header ?x with _ => _ end) _ _ => destruct (header x) eqn:?
  | |- wp (if ?b then _ else _) _ _ => destruct b eqn:?
  end; wp_simpl.

Ltac wp_run := wp_simpl; repeat wp_step.





Lemma get_set_ne {V : Type} (k k' : string) (v : V) (d : OrderedDict.t V) :
  k ≠ k' → OrderedDict.get k' (OrderedDict.set k v d) = OrderedDict.get k' d.
Proof.
  intros Hne. induction d as [|[k0 v0] d IH]; simpl.
  - by apply String.eqb_neq in Hne; rewrite String.eqb_sym, Hne.
  - destruct (String.eqb k k0) eqn:E; simpl.
    + apply String.eqb_eq in E as <-.
      assert (String.eqb k' k = false) as -> by (apply String.eqb_neq; congruence).
      done.
    + by rewrite IH.
Qed.















Lemma new_since_app (s : t) (l : list (op * option exn)) (s' : t) :
  trace s' = trace s ++ l → new_since s s' = l.
Proof. intros H. unfold new_since. by rewrite H, drop_app_length. Qed.

(** [_open_log_file] raises only before it has touched the handles. *)
Lemma open_log_file_raises (E : env) (sensor : string) (s : t) :
  wp (_open_log_file E sensor)
    (fun r s' => ∀ e, r = inl e →
                      _active_log_file_handles s' = _active_log_file_handles s) s.
Proof.
  unfold _open_log_file. wp_run.
  all: intros e' He; try done; congruence.
Qed.


















Lemma sample_settings_nodup : NoDup (map fst (_log_settings_internal sample_logger)).
Proof.
  simpl. apply NoDup_cons. split; [|apply NoDup_singleton].
  rewrite list_elem_of_singleton. discriminate.
Qed.


(** *** Headers *)

Lemma effect_open_w (path : string) (d : gmap string (list row)) :
  effect (Open path "w") d = <[path := []]> d.
Proof. reflexivity. Qed.

Lemma effect_open_a (path : string) (d : gmap string (list row)) :
  effect (Open path "a") d = match d !! path with
                             | Some _ => d
                             | None => <[path := []]> d
                             end.
Proof. reflexivity. Qed.































Import LoggerCalls.

(** *** Further properties of the CSV logger *)





Lemma header_cases (sensor : string) (cols : list string) :
  header sensor = Some cols →
  sensor = "bme280" ∨ sensor = "sgp40" ∨ sensor = "shtc3" ∨ sensor = "proximity".
Proof.
  unfold header.
  repeat match goal with
         | |- context [String.eqb sensor ?s] => destruct (String.eqb_spec sensor s)
         end; try done; tauto.
Qed.

(** X10: every data row has the shape of the header of its file: for a
    sensor with a header, the row that [log_sensor_data] writes has the
    timestamp and as many cells as the header has further columns, whatever
    the readings hold; and when the readings lack the sensor, every cell is
    the ['N/A'] default. *)
Theorem data_rows_match_the_header (E : env) (sensor_readings : readings)
    (sensor : string) (cols : list string) :
  header sensor = Some cols →
  ∃ cells,
    data_row E sensor_readings sensor = Data (timestamp_str E) cells
    ∧ S (length cells) = length cols
    ∧ (sensor_readings !! sensor = None → Forall (eq NA) cells).
Proof.
  intros Hh. eexists. split; [reflexivity|].
  destruct (header_cases _ _ Hh) as [-> | [-> | [-> | ->]]];
    injection Hh as <-; (split; [reflexivity|]);
    intros ->; cbn; repeat constructor.
Qed.

(** The calls that a statement adds, with the number of files moved among
    them. *)
Lemma archive_one_moves (E : env) (dest k : string) (s : t) :
  wp (archive_one E dest k)
    (fun r s' =>
       last_archive_time s' = last_archive_time s
       ∧ ∃ calls, trace s' = trace s ++ calls
                  ∧ (List.filter moved calls = []
                     ∨ (length (List.filter moved calls) = 1%nat
                        ∧ r = inl (KeyError k)))) s.
Proof.
  unfold archive_one. wp_run.
  all: split; [done|].
  all: try (eexists; split; [by rewrite <- ?app_assoc|]; cbn; by left).
  all: try (exists []; split; [by rewrite app_nil_r|]; by left).
  all: try (eexists; split; [by rewrite <- ?app_assoc|]; cbn; right; by split).
  all: rewrite get_remove in *; discriminate.
Qed.

Lemma open_log_file_moves_nothing (E : env) (sensor : string) (s : t) :
  wp (_open_log_file E sensor)
    (fun _ s' =>
       last_archive_time s' = last_archive_time s
       ∧ ∃ calls, trace s' = trace s ++ calls ∧ List.filter moved calls = []) s.
Proof.
  unfold _open_log_file. wp_run.
  all: split; [done|].
  all: first [ eexists; split; [by rewrite <- ?app_assoc|]; reflexivity
             | exists []; split; [by rewrite app_nil_r|]; reflexivity ].
Qed.

Lemma open_initial_log_files_moves_nothing (E : env) (s : t) :
  wp (_open_initial_log_files E)
    (fun _ s' =>
       last_archive_time s' = last_archive_time s
       ∧ ∃ calls, trace s' = trace s ++ calls ∧ List.filter moved calls = []) s.
Proof.
  unfold _open_initial_log_files. wp_run.
  apply (wp_for_each _ _
           (fun s0 => last_archive_time s0 = last_archive_time s
                      ∧ ∃ calls, trace s0 = trace s ++ calls
                                 ∧ List.filter moved calls = [])).
  - intros [sensor enabled] s0 _ (Hl & calls & Ht & Hm). cbn [fst snd].
    destruct enabled.
    + eapply wp_mono; [apply open_log_file_moves_nothing|].
      intros r s1 (Hl1 & calls1 & Ht1 & Hm1).
      assert (H : last_archive_time s1 = last_archive_time s
                  ∧ ∃ calls0, trace s1 = trace s ++ calls0
                              ∧ List.filter moved calls0 = []).
      { split; [congruence|]. exists (calls ++ calls1). split.
        - by rewrite Ht1, Ht, <- app_assoc.
        - by rewrite List.filter_app, Hm, Hm1. }
      by destruct r as [e|[]].
    + apply wp_ret. split; [done|]. by exists calls.
  - done.
  - split; [done|]. exists []. by rewrite app_nil_r.
Qed.

(** X11: a call of [archive_logs] moves at most one file, and when it has
    moved one it ends with [KeyError] and without resetting
    [last_archive_time]: the call returns normally only when it has moved no
    file at all.  This holds in every state and whatever the system calls
    do. *)
Theorem archive_logs_moves_at_most_one_file (E : env) (s : t) :
  let moves := List.filter moved (new_calls (archive_logs E) s) in
  (length moves ≤ 1)%nat
  ∧ (length moves = 1%nat →
     (∃ k, fst (archive_logs E s) = inl (KeyError k))
     ∧ last_archive_time (snd (archive_logs E s)) = last_archive_time s)
  ∧ (fst (archive_logs E s) = inr tt → moves = []).
Proof.
  assert (H : wp (archive_logs E)
                (fun r s' =>
                   ∃ calls, trace s' = trace s ++ calls
                            ∧ ((List.filter moved calls = [] )
                               ∨ (length (List.filter moved calls) = 1%nat
                                  ∧ (∃ k, r = inl (KeyError k))
                                  ∧ last_archive_time s' = last_archive_time s))) s).
  { unfold archive_logs. wp_run.
    { exists [ (Makedirs (path_join (_archive_path_internal s)
                            ("archive_" +:+ archive_timestamp E)), Some e) ].
      split; [done|]. by left. }
    eapply wp_mono.
    { apply (wp_for_each _ _
               (fun s0 => last_archive_time s0 = last_archive_time s
                          ∧ ∃ calls, trace s0 = trace s ++ calls
                                     ∧ List.filter moved calls = [])
               (fun r s0 => ∃ calls, trace s0 = trace s ++ calls
                  ∧ ((r = inr tt ∧ List.filter moved calls = []
                      ∧ last_archive_time s0 = last_archive_time s)
                     ∨ (∃ e, r = inl e ∧ List.filter moved calls = [])
                     ∨ (length (List.filter moved calls) = 1%nat
                        ∧ (∃ k, r = inl (KeyError k))
                        ∧ last_archive_time s0 = last_archive_time s)))).
      - intros k s0 _ (Hl & calls & Ht & Hm).
        eapply wp_mono; [apply archive_one_moves|].
        intros r s1 (Hl1 & calls1 & Ht1 & Hcase).
        assert (Ht' : trace s1 = trace s ++ (calls ++ calls1))
          by (by rewrite Ht1, Ht, <- app_assoc).
        destruct Hcase as [Hm1|[Hm1 ->]].
        + destruct r as [e|[]].
          * exists (calls ++ calls1). split; [done|]. right; left. exists e.
            by rewrite List.filter_app, Hm, Hm1.
          * split; [congruence|]. exists (calls ++ calls1). split; [done|].
            by rewrite List.filter_app, Hm, Hm1.
        + exists (calls ++ calls1). split; [done|]. right; right.
          rewrite List.filter_app, Hm. cbn [app]. split_and!; [done|by eexists|congruence].
      - intros s0 (Hl & calls & Ht & Hm). exists calls. split; [done|]. by left.
      - wp_simpl. split; [done|].
        exists [ (Makedirs (path_join (_archive_path_internal s)
                              ("archive_" +:+ archive_timestamp E)), None) ].
        by split. }
    intros r s1 (calls & Ht & Hcase). destruct r as [e|[]]; wp_simpl.
    - exists calls. split; [done|].
      destruct Hcase as [(? & _)|[(e' & _ & Hm)|(Hm & Hk & Hl)]]; [done|by left|].
      right. by split_and!.
    - destruct Hcase as [(_ & Hm & Hl)|[(e' & ? & _)|(_ & [k ?] & _)]]; [|done|done].
      wp_run. eapply wp_mono; [apply open_initial_log_files_moves_nothing|].
      intros r s2 (_ & calls2 & Ht2 & Hm2).
      cbn [trace add_emitted set_last_archive_time] in Ht2.
      exists (calls ++ calls2). split.
      + by rewrite Ht2, Ht, <- app_assoc.
      + left. by rewrite List.filter_app, Hm, Hm2. }
  unfold wp in H. destruct H as (calls & Ht & Hcase).
  cbv zeta. unfold new_calls. rewrite Ht, drop_app_length.
  destruct Hcase as [Hm|(Hm & [k Hk] & Hl)].
  - rewrite Hm. simpl. split_and!; [lia|lia|done].
  - rewrite Hm. split_and!; [lia| |].
    + intros _. split; [by exists k|done].
    + rewrite Hk. discriminate.
Qed.

Lemma calm_outcome (E : env) (s : t) (o : op) :
  calm E → (∀ src dst, o ≠ Move src dst) → outcome_of E s o = None.
Proof.
  intros Hcalm Hmove. unfold outcome_of.
  destruct o; cbn [impossible]; try apply Hcalm. by destruct (Hmove src dst).
Qed.

Ltac calm_calls Hcalm :=
  repeat match goal with
         | H : outcome_of _ _ _ = Some _ |- _ =>
             rewrite (calm_outcome _ _ _ Hcalm) in H by done; discriminate H
         end.

Lemma set_new {V : Type} (k : string) (v : V) (d : OrderedDict.t V) :
  OrderedDict.get k d = None → OrderedDict.set k v d = d ++ [ (k, v) ].
Proof.
  induction d as [|[k' v'] d IH]; simpl; [done|].
  destruct (String.eqb k k'); [done|]. intros H. by rewrite IH.
Qed.

(** In a calm environment [_open_log_file] registers the handle of a sensor
    that has none, after the handles that exist. *)
Lemma open_log_file_calm (E : env) (sensor : string) (s : t) :
  calm E →
  OrderedDict.get sensor (_active_log_file_handles s) = None →
  wp (_open_log_file E sensor)
    (fun r s' =>
       r = inr tt
       ∧ _active_log_file_handles s'
         = OrderedDict.set sensor
             (mk_file (csv_path (_log_path_internal s) (today_str E) sensor))
             (_active_log_file_handles s)
       ∧ _log_path_internal s' = _log_path_internal s
       ∧ _log_settings_internal s' = _log_settings_internal s
       ∧ emitted s' = emitted s) s.
Proof.
  intros Hcalm Hnone. unfold _open_log_file. wp_run.
  all: calm_calls Hcalm.
  all: try congruence.
  all: by split_and!.
Qed.

Lemma initial_handles_cons (E : env) (log_path : string) (item : string * bool)
    (l : list (string * bool)) :
  initial_handles E log_path (item :: l)
  = (if snd item
     then [ (fst item, mk_file (csv_path log_path (today_str E) (fst item))) ]
     else [])
    ++ initial_handles E log_path l.
Proof. unfold initial_handles. simpl. by destruct (snd item). Qed.

Lemma open_loop_calm (E : env) (l : list (string * bool)) (s : t) :
  calm E →
  NoDup (map fst l) →
  (∀ sensor, sensor ∈ map fst l →
             OrderedDict.get sensor (_active_log_file_handles s) = None) →
  wp (for_each (fun item => if snd item : bool then _open_log_file E (fst item)
                            else ret tt) l)
    (fun r s' =>
       r = inr tt
       ∧ _active_log_file_handles s'
         = _active_log_file_handles s ++ initial_handles E (_log_path_internal s) l
       ∧ _log_path_internal s' = _log_path_internal s
       ∧ _log_settings_internal s' = _log_settings_internal s
       ∧ emitted s' = emitted s) s.
Proof.
  intros Hcalm. revert s. induction l as [|[k en] l IH]; intros s Hnd Hfree.
  { simpl. apply wp_ret. split_and!; try done. by rewrite app_nil_r. }
  simpl in Hnd. apply NoDup_cons in Hnd as [Hk Hnd].
  assert (Hkfree : OrderedDict.get k (_active_log_file_handles s) = None)
    by (apply Hfree; simpl; apply list_elem_of_here).
  simpl. apply wp_bind. destruct en.
  - eapply wp_mono; [by apply open_log_file_calm|].
    intros r s1 (-> & Hh1 & Hp1 & Hs1 & He1).
    eapply wp_mono.
    { apply IH; [done|]. intros sensor Hin. rewrite Hh1, get_set_ne.
      - apply Hfree. simpl. by apply list_elem_of_further.
      - intros ->. done. }
    intros r s2 (-> & Hh2 & Hp2 & Hs2 & He2).
    split_and!; [done| |congruence|congruence|congruence].
    rewrite Hh2, Hh1, Hp1, initial_handles_cons, (set_new _ _ _ Hkfree).
    cbn [fst snd]. by rewrite <- app_assoc.
  - apply wp_ret.
    eapply wp_mono.
    { apply IH; [done|]. intros sensor Hin. apply Hfree. simpl.
      by apply list_elem_of_further. }
    intros r s2 (-> & Hh2 & Hp2 & Hs2 & He2).
    by split_and!.
Qed.

(** X12: in an environment where no system call fails, on a logger without
    open files, [_open_initial_log_files] returns normally, emits no status
    message and leaves exactly one handle for each sensor enabled in the
    settings, in the order of the settings, each on today's CSV file of its
    sensor; a sensor that is not enabled gets no handle. *)
Theorem open_initial_log_files_registers_the_enabled (E : env) (s : t) :
  calm E →
  _active_log_file_handles s = [] →
  NoDup (map fst (_log_settings_internal s)) →
  fst (_open_initial_log_files E s) = inr tt
  ∧ _active_log_file_handles (snd (_open_initial_log_files E s))
    = initial_handles E (_log_path_internal s) (_log_settings_internal s)
  ∧ new_messages (_open_initial_log_files E) s = [].
Proof.
  intros Hcalm Hempty Hnd.
  assert (H : wp (_open_initial_log_files E)
                (fun r s' =>
                   r = inr tt
                   ∧ _active_log_file_handles s'
                     = initial_handles E (_log_path_internal s) (_log_settings_internal s)
                   ∧ emitted s' = emitted s) s).
  { unfold _open_initial_log_files. wp_run.
    eapply wp_mono.
    { apply open_loop_calm; [done|done|]. intros sensor _. by rewrite Hempty. }
    intros r s' (-> & Hh & _ & _ & He). by rewrite Hh, Hempty. }
  unfold wp in H. destruct H as (Hr & Hh & He).
  unfold new_messages. rewrite He, drop_all. by split_and!.
Qed.

Lemma same_logger_refl (s : t) : same_logger s s.
Proof. by repeat split. Qed.

Lemma same_logger_trans (s1 s2 s3 : t) :
  same_logger s1 s2 → same_logger s2 s3 → same_logger s1 s3.
Proof.
  intros (A1 & A2 & A3 & A4 & A5) (B1 & B2 & B3 & B4 & B5).
  repeat split; congruence.
Qed.

(** One iteration of [log_sensor_data] for a sensor that is disabled or has
    its file open: it returns, writes through the handle only, and in a calm
    environment it writes the row and flushes. *)
Lemma log_one_steady (E : env) (rd : readings) (item : string * bool) (s : t) :
  (snd item = true → is_Some (OrderedDict.get (fst item) (_active_log_file_handles s))) →
  wp (log_one E rd item)
    (fun r s' =>
       r = inr tt ∧ same_logger s s'
       ∧ ∃ calls msgs,
           trace s' = trace s ++ calls ∧ emitted s' = emitted s ++ msgs
           ∧ forallb is_write calls = true
           ∧ (calm E →
              map fst calls = steady_calls E rd (_active_log_file_handles s) [ item ]
              ∧ msgs = [])) s.
Proof.
  destruct item as [sensor enabled]. cbn [fst snd]. intros Hopen.
  unfold log_one. wp_run.
  4:{ destruct (Hopen eq_refl) as [f Hf]. discriminate. }
  all: split; [done|]; split; [by repeat split|].
  all: unfold steady_calls; cbn [flat_map fst snd app];
    rewrite ?Heqo; cbn [app].
  - eexists _, _. split_and!; [by rewrite <- ?app_assoc|done|done|].
    intros Hcalm. calm_calls Hcalm.
  - eexists _, _. split_and!; [by rewrite <- ?app_assoc|done|done|].
    intros Hcalm. calm_calls Hcalm.
  - eexists _, []. split_and!; [by rewrite <- ?app_assoc|by rewrite app_nil_r|done|].
    intros Hcalm. split; [|done]. reflexivity.
  - exists [], []. rewrite !app_nil_r. by split_and!.
Qed.

Lemma steady_calls_cons (E : env) (rd : readings) (handles : OrderedDict.t file_obj)
    (item : string * bool) (l : list (string * bool)) :
  steady_calls E rd handles (item :: l)
  = steady_calls E rd handles [ item ] ++ steady_calls E rd handles l.
Proof. unfold steady_calls. simpl. by rewrite app_nil_r. Qed.

Lemma log_loop_steady (E : env) (rd : readings) (l : list (string * bool)) (s : t) :
  (∀ sensor, (sensor, true) ∈ l →
             is_Some (OrderedDict.get sensor (_active_log_file_handles s))) →
  wp (for_each (log_one E rd) l)
    (fun r s' =>
       r = inr tt ∧ same_logger s s'
       ∧ ∃ calls msgs,
           trace s' = trace s ++ calls ∧ emitted s' = emitted s ++ msgs
           ∧ forallb is_write calls = true
           ∧ (calm E →
              map fst calls = steady_calls E rd (_active_log_file_handles s) l
              ∧ msgs = [])) s.
Proof.
  revert s. induction l as [|item l IH]; intros s Hopen.
  { simpl. apply wp_ret. split_and!; [done|apply same_logger_refl|].
    exists [], []. rewrite !app_nil_r. by split_and!. }
  simpl. apply wp_bind. eapply wp_mono.
  { apply log_one_steady. intros Hen. apply Hopen. destruct item as [k en].
    simpl in Hen. subst en. apply list_elem_of_here. }
  intros r s1 (-> & Hsame1 & calls1 & msgs1 & Ht1 & He1 & Hw1 & Hcalm1).
  eapply wp_mono.
  { apply IH. intros sensor Hin. destruct Hsame1 as (-> & _).
    apply Hopen. by apply list_elem_of_further. }
  intros r s2 (-> & Hsame2 & calls2 & msgs2 & Ht2 & He2 & Hw2 & Hcalm2).
  split; [done|]. split; [by eapply same_logger_trans|].
  exists (calls1 ++ calls2), (msgs1 ++ msgs2). split_and!.
  - by rewrite Ht2, Ht1, <- app_assoc.
  - by rewrite He2, He1, <- app_assoc.
  - by rewrite forallb_app, Hw1, Hw2.
  - intros Hcalm. destruct (Hcalm1 Hcalm) as [Hc1 ->].
    destruct (Hcalm2 Hcalm) as [Hc2 ->]. split; [|done].
    destruct Hsame1 as (Hh1 & _). rewrite Hh1 in Hc2.
    by rewrite map_app, Hc1, Hc2, <- steady_calls_cons.
Qed.

(** X13: the steady state of [log_sensor_data].  When every enabled sensor
    has its file open and no automatic archive is due, a call returns
    normally whatever the system calls do, keeps the handles as they are,
    and makes no call other than writing rows and flushing: no file is
    opened, closed or moved, whatever the date.  When moreover no system
    call fails, the calls are exactly a row and a flush through the handle
    of each enabled sensor, in the order of the settings, and no status
    message is emitted. *)
Theorem log_sensor_data_steady_state (E : env) (sensor_readings : readings) (s : t) :
  (∀ sensor, (sensor, true) ∈ _log_settings_internal s →
             is_Some (OrderedDict.get sensor (_active_log_file_handles s))) →
  archive_not_due E s →
  let r := log_sensor_data E sensor_readings s in
  fst r = inr tt
  ∧ _active_log_file_handles (snd r) = _active_log_file_handles s
  ∧ forallb is_write (new_calls (log_sensor_data E sensor_readings) s) = true
  ∧ (calm E →
     map fst (new_calls (log_sensor_data E sensor_readings) s)
     = steady_calls E sensor_readings (_active_log_file_handles s)
         (_log_settings_internal s)
     ∧ new_messages (log_sensor_data E sensor_readings) s = []).
Proof.
  intros Hopen Hdue.
  assert (H : wp (log_sensor_data E sensor_readings)
                (fun r s' =>
                   r = inr tt ∧ same_logger s s'
                   ∧ ∃ calls msgs,
                       trace s' = trace s ++ calls ∧ emitted s' = emitted s ++ msgs
                       ∧ forallb is_write calls = true
                       ∧ (calm E →
                          map fst calls
                          = steady_calls E sensor_readings (_active_log_file_handles s)
                              (_log_settings_internal s)
                          ∧ msgs = [])) s).
  { unfold log_sensor_data. wp_run.
    eapply wp_mono; [by apply log_loop_steady|].
    intros r s1 (-> & Hsame & Hrest). unfold check_and_archive_auto. wp_simpl.
    apply wp_bind, wp_gets, wp_bind, wp_gets, wp_bind, wp_gets.
    destruct Hsame as (Hh & Hs & Hen & Hl & Hhours).
    unfold archive_not_due in Hdue. rewrite Hen, Hl, Hhours, Hdue.
    apply wp_ret. by split_and!. }
  unfold wp in H.
  destruct H as (Hr & (Hh & _) & calls & msgs & Ht & He & Hw & Hcalm).
  cbv zeta. unfold new_calls, new_messages. rewrite Ht, He, !drop_app_length.
  by split_and!.
Qed.

Lemma calm_day_is_calm : calm calm_day.
Proof. intros tr o. reflexivity. Qed.


Lemma started_logger_files_open (sensor : string) :
  (sensor, true) ∈ _log_settings_internal started_logger →
  is_Some (OrderedDict.get sensor (_active_log_file_handles started_logger)).
Proof.
  intros Hin. vm_compute in Hin.
  apply elem_of_cons in Hin as [Hin|Hin]; [injection Hin as ->; by eexists|].
  apply list_elem_of_singleton in Hin. injection Hin as ->. by eexists.
Qed.


Lemma data_rows_match_the_header_witness :
  header "bme280"
  = Some [ "timestamp"; "temperature_c"; "humidity"; "pressure_pa"; "altitude_m";
           "temperature_f"; "dewpoint_c"; "dewpoint_f" ]
  ∧ ∃ cells, data_row calm_day ∅ "bme280" = Data "2025-01-01T08:00:00" cells
             ∧ S (length cells) = 8%nat.
Proof.
  split; [reflexivity|].
  destruct (data_rows_match_the_header calm_day ∅ "bme280" _ eq_refl)
    as (cells & H1 & H2 & _).
  exists cells. split; [exact H1|exact H2].
Defined.

Lemma open_initial_log_files_registers_the_enabled_witness :
  calm calm_day
  ∧ _active_log_file_handles sample_logger = []
  ∧ NoDup (map fst (_log_settings_internal sample_logger))
  ∧ OrderedDict.keys
      (_active_log_file_handles (snd (_open_initial_log_files calm_day sample_logger)))
    = [ "bme280"; "sgp40" ].
Proof.
  split; [exact calm_day_is_calm|]. split; [reflexivity|].
  split; [exact sample_settings_nodup|].
  destruct (open_initial_log_files_registers_the_enabled calm_day sample_logger
              calm_day_is_calm eq_refl sample_settings_nodup) as (_ & -> & _).
  reflexivity.
Defined.

Lemma log_sensor_data_steady_state_witness :
  archive_not_due calm_day started_logger
  ∧ fst (log_sensor_data calm_day ∅ started_logger) = inr tt
  ∧ length (new_calls (log_sensor_data calm_day ∅) started_logger) = 4%nat.
Proof.
  assert (Hdue : archive_not_due calm_day started_logger) by reflexivity.
  split; [exact Hdue|].
  destruct (log_sensor_data_steady_state calm_day ∅ started_logger
              started_logger_files_open Hdue) as (H1 & _ & _ & H4).
  split; [exact H1|].
  destruct (H4 calm_day_is_calm) as [Hcalls _].
  apply (f_equal length) in Hcalls. rewrite length_map in Hcalls. exact Hcalls.
Defined.

End LoggerFacts.

(** ** The reader thread and its stop event *)

Section SensorReaderFacts.
Import SensorReader.

Variable E : env.
Hypothesis Hmono : never_cleared E.

Lemma seen_check_true (n : nat) : seen E n → is_set E n = true.
Proof. intros (i & Hi & Hset). apply (Hmono i n); [lia|done]. Qed.

Lemma seen_S_false (n : nat) : ¬ seen E n → is_set E n = false → ¬ seen E (S n).
Proof.
  intros Hn Hf (i & Hi & Hset). destruct (decide (i = n)) as [->|Hne]; [congruence|].
  apply Hn. exists i. split; [lia|done].
Qed.

Lemma seen_S_true (n : nat) : is_set E n = true → seen E (S n).
Proof. intros H. exists n. split; [lia|done]. Qed.


Lemma quiet_guarded (l : list event) : Forall quiet l → guarded l.
Proof. induction 1; [apply guarded_nil|by apply guarded_quiet]. Qed.

Lemma unstopped_app (a b : list event) : unstopped a → unstopped b → unstopped (a ++ b).
Proof. unfold unstopped. rewrite elem_of_app. tauto. Qed.

Lemma unstopped_cons (e : event) (l : list event) :
  e ≠ IsSet true → unstopped l → unstopped (e :: l).
Proof. unfold unstopped. rewrite elem_of_cons. intros ? ? [?|?]; congruence. Qed.

Lemma unstopped_nil : unstopped [].
Proof. unfold unstopped. apply not_elem_of_nil. Qed.

Lemma process_spec (m : control_message) (st : state) :
  n_checks (snd (process E m st)) = n_checks st
  ∧ Forall quiet (snd (fst (process E m st)))
  ∧ unstopped (snd (fst (process E m st)))
  ∧ (fst (fst (process E m st)) = Done ∨ ∃ e, fst (fst (process E m st)) = Raise e).
Proof.
  destruct m as [a b c d| |z|ty]; simpl.
  - destruct (logger_raises E (n_calls st)); simpl;
      (split_and!; [done|by repeat constructor|
                    by apply unstopped_cons; [|apply unstopped_nil]|eauto]).
  - destruct (logger_raises E (n_calls st)); simpl;
      (split_and!; [done|by repeat constructor|
                    by apply unstopped_cons; [|apply unstopped_nil]|eauto]).
  - destruct (z <=? 0)%Z; simpl;
      (split_and!; [done|by repeat constructor|
                    by apply unstopped_cons; [|apply unstopped_nil]|eauto]).
  - split_and!; [done|constructor|apply unstopped_nil|eauto].
Qed.

Lemma process_spec' (m : control_message) (st : state) r evs st' :
  process E m st = (r, evs, st') →
  n_checks st' = n_checks st ∧ Forall quiet evs ∧ unstopped evs
  ∧ (r = Done ∨ ∃ e, r = Raise e).
Proof. intros H. pose proof (process_spec m st) as Hs. by rewrite H in Hs. Qed.

(** Taking the control messages: no read and no sleep; the loop ends
    normally, right after the first positive check if there is one. *)
Lemma drain_spec (fuel : nat) (st : state) r evs st' :
  ¬ seen E (n_checks st) →
  drain fuel E st = (r, evs, st') →
  (n_checks st ≤ n_checks st')%nat
  ∧ Forall quiet evs
  ∧ match r with
    | Done =>
        (¬ seen E (n_checks st') ∧ unstopped evs)
        ∨ (seen E (n_checks st')
           ∧ ∃ pre, evs = pre ++ [ IsSet true ] ∧ unstopped pre)
    | Raise _ => unstopped evs
    | Break => False
    | OutOfFuel => True
    end.
Proof.
  revert st r evs st'. induction fuel as [|fuel IH]; intros st r evs st' Hns Hd.
  - simpl in Hd. injection Hd as <- <- <-. by split_and!.
  - simpl in Hd. destruct (get_nowait E (n_gets st)) as [cm|].
    + destruct (process E cm _) as [[rp evp] st2] eqn:Hp.
      apply process_spec' in Hp as (Hn2 & Hq & Hu & Hr). simpl in Hn2.
      destruct Hr as [->|[e ->]].
      * unfold check in Hd. cbn [n_checks] in Hd.
        destruct (is_set E (n_checks st2)) eqn:Hset.
        -- injection Hd as <- <- <-. cbn [n_checks]. split_and!; [lia| |].
           ++ constructor; [done|]. apply Forall_app. split; [done|by repeat constructor].
           ++ right. split; [by apply seen_S_true|].
              exists (GetNowait (Some cm) :: evp). split; [done|].
              by apply unstopped_cons.
        -- destruct (drain fuel E _) as [[r3 ev3] st3] eqn:Hd3.
           injection Hd as <- <- <-.
           apply IH in Hd3 as (Hle & Hq3 & Hshape).
           2:{ cbn [n_checks]. apply seen_S_false; [by rewrite Hn2|done]. }
           cbn [n_checks] in Hle. split_and!; [lia| |].
           ++ constructor; [done|]. apply Forall_app. split; [done|].
              by constructor.
           ++ assert (Hpre : unstopped (GetNowait (Some cm) :: evp ++ [ IsSet false ])).
              { apply unstopped_cons; [done|]. apply unstopped_app; [done|].
                by apply unstopped_cons; [|apply unstopped_nil]. }
              destruct r3; try done.
              ** destruct Hshape as [[Hns3 Hu3]|[Hs3 (pre & -> & Hupre)]].
                 --- left. split; [done|].
                     change (unstopped ((GetNowait (Some cm) :: evp) ++ IsSet false :: ev3)).
                     apply unstopped_app; [by apply unstopped_cons|].
                     by apply unstopped_cons.
                 --- right. split; [done|].
                     exists (GetNowait (Some cm) :: evp ++ IsSet false :: pre).
                     split; [simpl; f_equal; by rewrite <- app_assoc|].
                     apply unstopped_cons; [done|]. apply unstopped_app; [done|].
                     by apply unstopped_cons.
              ** apply unstopped_cons; [done|]. apply unstopped_app; [done|].
                 by apply unstopped_cons.
      * injection Hd as <- <- <-. split_and!; [lia|by constructor|].
        by apply unstopped_cons.
    + injection Hd as <- <- <-. cbn [n_checks]. split_and!; [lia|by repeat constructor|].
      left. split; [done|]. by apply unstopped_cons; [|apply unstopped_nil].
Qed.

(** The sleep in chunks: every sleep follows a negative check, and the loop
    ends right after the first positive one. *)
Lemma sleep_loop_spec (fuel : nat) (time_to_wait : Q) (st : state) r evs st' :
  ¬ seen E (n_checks st) →
  sleep_loop fuel E time_to_wait st = (r, evs, st') →
  (n_checks st ≤ n_checks st')%nat
  ∧ match r with
    | Done =>
        (¬ seen E (n_checks st') ∧ unstopped evs ∧ guarded evs)
        ∨ (seen E (n_checks st')
           ∧ ∃ pre, evs = pre ++ [ IsSet true ] ∧ unstopped pre ∧ guarded pre)
    | OutOfFuel => True
    | _ => False
    end.
Proof.
  revert time_to_wait st r evs st'.
  induction fuel as [|fuel IH]; intros ttw st r evs st' Hns Hs.
  - simpl in Hs. by injection Hs as <- <- <-.
  - simpl in Hs. destruct (gt ttw 0).
    + destruct (is_set E (n_checks st)) eqn:Hset.
      * injection Hs as <- <- <-. cbn [n_checks]. split; [lia|]. right.
        split; [by apply seen_S_true|]. exists [].
        split_and!; [done|apply unstopped_nil|apply guarded_nil].
      * destruct (sleep_loop fuel E _ _) as [[r2 ev2] st2] eqn:Hs2.
        injection Hs as <- <- <-.
        apply IH in Hs2 as (Hle & Hshape);
          [|cbn [n_checks]; by apply seen_S_false].
        cbn [n_checks] in Hle. split; [lia|].
        destruct r2; try done.
        destruct Hshape as [(Hns2 & Hu2 & Hg2)|(Hs2' & pre & -> & Hupre & Hgpre)].
        -- left. split_and!; [done| |by apply guarded_sleep].
           apply unstopped_cons; [done|]. by apply unstopped_cons.
        -- right. split; [done|]. exists (IsSet false :: Sleep (Qmin ttw (100 / 1000)) :: pre).
           split_and!; [done| |by apply guarded_sleep].
           apply unstopped_cons; [done|]. by apply unstopped_cons.
    + injection Hs as <- <- <-. split; [lia|]. left.
      split_and!; [done|apply unstopped_nil|apply guarded_nil].
Qed.

(** The read, when due: it follows the archive check and a negative check of
    the stop event; a positive check breaks out of the loop instead. *)
Lemma read_when_due_spec (st : state) r evs st' :
  ¬ seen E (n_checks st) →
  read_when_due E st = (r, evs, st') →
  (n_checks st ≤ n_checks st')%nat
  ∧ match r with
    | Done =>
        ¬ seen E (n_checks st') ∧ unstopped evs ∧ guarded (IsSet false :: evs)
    | Break => seen E (n_checks st') ∧ evs = [ CheckAndArchiveAuto; IsSet true ]
    | Raise _ => unstopped evs ∧ guarded (IsSet false :: evs)
    | OutOfFuel => False
    end.
Proof.
  intros Hns Hr. unfold read_when_due in Hr. cbn in Hr.
  destruct (ge (time E (n_times st)) (next_read_time st)).
  - destruct (logger_raises E (n_calls st)) as [e|].
    + injection Hr as <- <- <-. split; [simpl; lia|]. simpl n_checks. split.
      * by apply unstopped_cons; [|apply unstopped_nil].
      * apply guarded_archive, guarded_nil.
    + destruct (is_set E (n_checks st)) eqn:Hset.
      * injection Hr as <- <- <-. split; [simpl; lia|]. simpl n_checks.
        split; [by apply seen_S_true|done].
      * assert (Hu : unstopped [ CheckAndArchiveAuto; IsSet false; ReadAllSensors;
                                 AddData; LogSensorData ])
          by (repeat (apply unstopped_cons; [done|]); apply unstopped_nil).
        assert (Hg : ∀ tl, Forall quiet tl →
                     guarded (IsSet false :: CheckAndArchiveAuto :: IsSet false
                                :: ReadAllSensors :: AddData :: LogSensorData :: tl)).
        { intros tl Htl. apply guarded_read.
          repeat (apply guarded_quiet; [done|]). by apply quiet_guarded. }
        destruct (logger_raises E (S (n_calls st))) as [e|].
        -- injection Hr as <- <- <-. split; [simpl; lia|]. simpl n_checks. split; [done|].
           by apply Hg.
        -- injection Hr as <- <- <-. split; [simpl; lia|]. simpl n_checks.
           split_and!; [by apply seen_S_false| |].
           ++ repeat (apply unstopped_cons; [done|]). apply unstopped_nil.
           ++ apply Hg. by repeat constructor.
  - injection Hr as <- <- <-. split; [simpl; lia|]. simpl n_checks.
    split_and!; [done|apply unstopped_nil|].
    apply guarded_quiet; [done|apply guarded_nil].
Qed.

Lemma check_inv (st : state) b st1 :
  check E st = (b, st1) → b = is_set E (n_checks st) ∧ n_checks st1 = S (n_checks st).
Proof. unfold check. by intros [= <- <-]. Qed.

Lemma now_inv (st : state) t st1 :
  now E st = (t, st1) →
  n_checks st1 = n_checks st ∧ next_read_time st1 = next_read_time st.
Proof. unfold now. by intros [= <- <-]. Qed.

Lemma main_loop_S (fuel : nat) (st : state) :
  main_loop (S fuel) E st
  = let (stop, st) := check E st in
    if stop then (Done, [ IsSet true ], st)
    else
      match drain fuel E st with
      | (Done, evs1, st) =>
          let (stop, st) := check E st in
          if stop then (Done, IsSet false :: evs1 ++ [ IsSet true ], st)
          else
            match read_when_due E st with
            | (Done, evs2, st) =>
                let (t, st) := now E st in
                let time_to_wait := (next_read_time st - t)%Q in
                match sleep_loop fuel E time_to_wait st with
                | (Done, evs3, st) =>
                    let '(r, evs4, st) := main_loop fuel E st in
                    (r, IsSet false :: evs1 ++ IsSet false :: evs2 ++ evs3 ++ evs4, st)
                | (r, evs3, st) =>
                    (r, IsSet false :: evs1 ++ IsSet false :: evs2 ++ evs3, st)
                end
            | (Break, evs2, st) => (Done, IsSet false :: evs1 ++ IsSet false :: evs2, st)
            | (r, evs2, st) => (r, IsSet false :: evs1 ++ IsSet false :: evs2, st)
            end
      | (r, evs1, st) => (r, IsSet false :: evs1, st)
      end.
Proof. reflexivity. Qed.

(** Once the stop event has been seen set, the loop condition ends the
    loop. *)
Lemma main_loop_seen (fuel : nat) (st : state) :
  seen E (n_checks st) →
  main_loop (S fuel) E st = (Done, [ IsSet true ], snd (check E st)).
Proof.
  intros Hs. rewrite main_loop_S. unfold check. by rewrite (seen_check_true _ Hs).
Qed.
















End SensorReaderFacts.

Lemma sample_env_never_cleared : SensorReader.never_cleared SensorReader.sample_env.
Proof.
  intros i j Hij. unfold SensorReader.sample_env. cbn [SensorReader.is_set].
  rewrite !Nat.leb_le. lia.
Qed.


(** * Further properties *)

(** ** The history as a ring buffer *)

Section DataManagerRing.
Context {D : Type}.
Implicit Types (dm : DataManager.t D) (calls : list (DataManager.datetime * D)).

Lemma deque_append_drop {A : Type} (n : nat) (l : list A) (x : A) :
  Deque.append (Some n) (drop (length l - n) l) x
  = drop (length (l ++ [x]) - n) (l ++ [x]).
Proof.
  unfold Deque.append. rewrite !length_app, length_drop. simpl.
  destruct (n <? length l - (length l - n) + 1)%nat eqn:Hn.
  - apply Nat.ltb_lt in Hn.
    replace (length l + 1 - n)%nat with (S (length l - n)) by lia.
    destruct (decide (n = 0%nat)) as [->|Hpos].
    + rewrite Nat.sub_0_r, drop_all. simpl. rewrite drop_ge; [done|].
      rewrite length_app. simpl. lia.
    + rewrite (drop_app_le l [x] (S (length l - n))) by lia.
      destruct (drop (length l - n) l) as [|y t] eqn:Hd.
      * apply (f_equal length) in Hd. rewrite length_drop in Hd. simpl in Hd. lia.
      * simpl. f_equal. change t with (drop 1 (y :: t)). rewrite <- Hd, drop_drop.
        f_equal. lia.
  - apply Nat.ltb_ge in Hn.
    replace (length l - n)%nat with 0%nat by lia.
    replace (length l + 1 - n)%nat with 0%nat by lia. done.
Qed.

Lemma fold_append_unbounded {A : Type} (xs d : list A) :
  fold_left (Deque.append None) xs d = d ++ xs.
Proof.
  revert d. induction xs as [|x xs IH]; intros d; simpl; [by rewrite app_nil_r|].
  rewrite IH. unfold Deque.append. by rewrite <- app_assoc.
Qed.

Lemma fold_append_bounded {A : Type} (n : nat) (xs : list A) :
  fold_left (Deque.append (Some n)) xs [] = drop (length xs - n) xs.
Proof.
  induction xs as [|x xs IH] using rev_ind; [done|].
  rewrite fold_left_app. simpl. rewrite IH. apply deque_append_drop.
Qed.

Lemma add_all_history calls dm :
  DataManager.sensor_data_history (DataManager.add_all dm calls)
  = fold_left (Deque.append (DataManager.maxlen dm)) (map snd calls)
      (DataManager.sensor_data_history dm).
Proof.
  revert dm. induction calls as [|c calls IH]; intros dm; [done|].
  rewrite add_all_cons, IH. done.
Qed.

Lemma add_all_timestamps calls dm :
  DataManager.timestamps (DataManager.add_all dm calls)
  = fold_left (Deque.append (DataManager.maxlen dm)) (map fst calls)
      (DataManager.timestamps dm).
Proof.
  revert dm. induction calls as [|c calls IH]; intros dm; [done|].
  rewrite add_all_cons, IH. done.
Qed.

(** X1: the history is a ring buffer. After any calls of [add_data] on a
    fresh [DataManager] of capacity [max_data_points], both deques hold the
    most recent [max_data_points] entries of the calls, oldest first: the
    first [length calls - max_data_points] entries have been evicted, and
    nothing is evicted without a capacity. *)
Theorem add_data_keeps_most_recent (max_data_points : option nat) calls :
  let dm := DataManager.add_all (DataManager.init max_data_points) calls in
  let evicted := match max_data_points with
                 | Some n => (length calls - n)%nat
                 | None => 0%nat
                 end in
  DataManager.sensor_data_history dm = drop evicted (map snd calls)
  ∧ DataManager.timestamps dm = drop evicted (map fst calls).
Proof.
  intros dm evicted. unfold dm, evicted.
  rewrite add_all_history, add_all_timestamps. simpl.
  destruct max_data_points as [n|].
  - rewrite !fold_append_bounded, !length_map. done.
  - by rewrite !fold_append_unbounded.
Qed.

Lemma last_drop_lt {A : Type} (k : nat) (l : list A) :
  (k < length l)%nat → last (drop k l) = last l.
Proof.
  intros Hk. rewrite <- (take_drop k l) at 2. rewrite last_app.
  destruct (last (drop k l)) eqn:Hl; [done|].
  apply last_None in Hl. apply (f_equal length) in Hl.
  rewrite length_drop in Hl. simpl in Hl. lia.
Qed.

(** X2: [get_latest_values] returns the data of the last call of
    [add_data]; it returns the empty dictionary (here [None]) when nothing
    was added, and always when the capacity is zero. *)
Theorem get_latest_values_after_adds (max_data_points : option nat) calls :
  DataManager.get_latest_values
    (DataManager.add_all (DataManager.init max_data_points) calls)
  = match max_data_points with
    | Some O => None
    | _ => last (map snd calls)
    end.
Proof.
  unfold DataManager.get_latest_values. rewrite add_all_history. simpl.
  destruct max_data_points as [n|]; [|by rewrite fold_append_unbounded].
  rewrite fold_append_bounded, length_map.
  destruct n as [|n].
  - rewrite Nat.sub_0_r, <- (length_map snd), drop_all. done.
  - destruct calls as [|c calls]; [done|].
    apply last_drop_lt. rewrite length_map. simpl. lia.
Qed.
End DataManagerRing.

(** ** The analysis of a trip *)

Section TripEventsFacts.
Import TripAnalysis TripEvents.
Local Open Scope Q_scope.

Variable haversine_distance : Q → Q → Q → Q → Q.
Variable speed_noise_threshold : Q.

Local Abbreviation step := (analyze_step haversine_distance speed_noise_threshold).
Local Abbreviation analyze := (_analyze_trip_data haversine_distance speed_noise_threshold).

Lemma step_prev (st : loop_state) (dp : data_point) : prev_dp (step st dp) = Some dp.
Proof.
  unfold analyze_step. destruct (prev_dp st) as [p|]; [|done].
  destruct (TripAnalysis.gt (timestamp dp - timestamp p) 0); done.
Qed.

(** One iteration, in terms of the pair it looks at. *)
Lemma step_spec (st : loop_state) (dp : data_point) :
  let pairs := pairs_from (prev_dp st) [ dp ] in
  total_distance (step st dp)
  = fold_left Qplus (map (pair_distance haversine_distance) pairs) (total_distance st)
  ∧ max_speed (step st dp)
    = (if TripAnalysis.gt (gSpeed dp) (max_speed st) then gSpeed dp else max_speed st)
  ∧ hard_braking_events (step st dp)
    = (hard_braking_events st + length (List.filter is_hard_braking pairs))%nat
  ∧ sharp_cornering_events (step st dp)
    = (sharp_cornering_events st
       + length (List.filter (is_sharp_cornering speed_noise_threshold) pairs))%nat.
Proof.
  unfold analyze_step. destruct (prev_dp st) as [p|]; simpl.
  2:{ by rewrite !Nat.add_0_r. }
  unfold is_hard_braking, is_sharp_cornering, time_diff. simpl.
  destruct (TripAnalysis.gt (timestamp dp - timestamp p) 0) eqn:Hdt; simpl.
  2:{ by rewrite !Nat.add_0_r. }
  split_and!; try done.
  - destruct (TripAnalysis.lt _ HARD_BRAKING_THRESHOLD_MPS2); simpl; lia.
  - destruct (TripAnalysis.gt (gSpeed dp) speed_noise_threshold); simpl; [|lia].
    destruct (TripAnalysis.gt _ SHARP_CORNERING_THRESHOLD_DEG_PER_SEC); simpl; lia.
Qed.

Lemma pairs_from_cons {A : Type} (prev : option A) (x : A) (l : list A) :
  pairs_from prev (x :: l) = pairs_from prev [ x ] ++ pairs_from (Some x) l.
Proof. by destruct prev. Qed.

(** The loop, in terms of the pairs of consecutive points. *)
Lemma fold_step_spec (l : list data_point) (st : loop_state) :
  let pairs := pairs_from (prev_dp st) l in
  total_distance (fold_left step l st)
  = fold_left Qplus (map (pair_distance haversine_distance) pairs) (total_distance st)
  ∧ hard_braking_events (fold_left step l st)
    = (hard_braking_events st + length (List.filter is_hard_braking pairs))%nat
  ∧ sharp_cornering_events (fold_left step l st)
    = (sharp_cornering_events st
       + length (List.filter (is_sharp_cornering speed_noise_threshold) pairs))%nat.
Proof.
  revert st. induction l as [|dp l IH]; intros st.
  { simpl. split_and!; [done|lia|lia]. }
  cbv zeta. rewrite pairs_from_cons.
  change (fold_left step (dp :: l) st) with (fold_left step l (step st dp)).
  destruct (IH (step st dp)) as (Hd & Hh & Hs). rewrite step_prev in Hd, Hh, Hs.
  destruct (step_spec st dp) as (Hd1 & _ & Hh1 & Hs1). cbv zeta in Hd1, Hh1, Hs1.
  rewrite Hd, Hh, Hs, Hd1, Hh1, Hs1.
  rewrite map_app, fold_left_app, !List.filter_app, !length_app.
  split_and!; [done|lia|lia].
Qed.

Lemma length_pairs_from {A : Type} (prev : option A) (l : list A) :
  length (pairs_from prev l)
  = match prev with Some _ => length l | None => (length l - 1)%nat end.
Proof.
  revert prev. induction l as [|x l IH]; intros prev; [by destruct prev|].
  destruct prev; simpl; rewrite IH; lia.
Qed.

Lemma analyze_nonempty (first : data_point) (rest : list data_point) :
  let st := fold_left step (first :: rest) (mk_ls 0 0 0 0 None) in
  an_total_distance (analyze (first :: rest)) = total_distance st
  ∧ an_max_speed (analyze (first :: rest)) = max_speed st
  ∧ an_hard_braking_events (analyze (first :: rest)) = hard_braking_events st
  ∧ an_sharp_cornering_events (analyze (first :: rest)) = sharp_cornering_events st.
Proof. done. Qed.

(** X3: the two event counters and the distance of [_analyze_trip_data] are
    taken over the pairs of consecutive data points: a pair counts as a hard
    braking, or as a sharp cornering, when it meets the condition of the
    loop, and the distance is the sum of the distances of the pairs. *)
Theorem trip_events_counted_per_pair (data_points : list data_point) :
  let r := analyze data_points in
  let pairs := consecutive data_points in
  an_hard_braking_events r = length (List.filter is_hard_braking pairs)
  ∧ an_sharp_cornering_events r
    = length (List.filter (is_sharp_cornering speed_noise_threshold) pairs)
  ∧ an_total_distance r
    = fold_left Qplus (map (pair_distance haversine_distance) pairs) 0.
Proof.
  destruct data_points as [|first rest]; [done|].
  cbv zeta. destruct (analyze_nonempty first rest) as (-> & _ & -> & ->).
  destruct (fold_step_spec (first :: rest) (mk_ls 0 0 0 0 None)) as (Hd & Hh & Hs).
  cbv zeta in Hd, Hh, Hs. by rewrite Hd, Hh, Hs.
Qed.

Lemma length_filter_le {A : Type} (f : A → bool) (l : list A) :
  (length (List.filter f l) ≤ length l)%nat.
Proof. induction l as [|a l IH]; simpl; [done|]. destruct (f a); simpl; lia. Qed.

(** X4: a trip of [n] data points has at most [n - 1] hard brakings and at most
    [n - 1] sharp cornerings: none for an empty log or a single point. *)
Theorem trip_events_bounded (data_points : list data_point) :
  let r := analyze data_points in
  (an_hard_braking_events r ≤ length data_points - 1)%nat
  ∧ (an_sharp_cornering_events r ≤ length data_points - 1)%nat.
Proof.
  destruct data_points as [|first rest]; [simpl; lia|].
  cbv zeta. destruct (analyze_nonempty first rest) as (_ & _ & -> & ->).
  destruct (fold_step_spec (first :: rest) (mk_ls 0 0 0 0 None)) as (_ & Hh & Hs).
  cbv zeta in Hh, Hs. rewrite Hh, Hs.
  pose proof (length_pairs_from None (first :: rest)) as Hlen.
  pose proof (length_filter_le is_hard_braking (pairs_from None (first :: rest))).
  pose proof (length_filter_le (is_sharp_cornering speed_noise_threshold)
                (pairs_from None (first :: rest))).
  simpl in *. lia.
Qed.


Lemma filter_none {A : Type} (f : A → bool) (l : list A) :
  (∀ x, x ∈ l → f x = false) → List.filter f l = [].
Proof.
  induction l as [|a l IH]; intros H; simpl; [done|].
  rewrite (H a) by apply list_elem_of_here.
  apply IH. intros x Hx. apply H. by apply list_elem_of_further.
Qed.

Lemma pairs_from_snd {A : Type} (prev : option A) (l : list A) (p q : A) :
  (p, q) ∈ pairs_from prev l → q ∈ l.
Proof.
  revert prev. induction l as [|x l IH]; intros prev H; simpl in H.
  - by apply elem_of_nil in H.
  - destruct prev as [p0|].
    + apply elem_of_cons in H as [H|H].
      * injection H as -> ->. apply list_elem_of_here.
      * apply list_elem_of_further. by eapply IH.
    + apply list_elem_of_further. by eapply IH.
Qed.

(** X5: between two data points whose timestamps do not advance the loop
    counts nothing: a log whose clock stands still or runs backwards has
    neither brakings nor cornerings, whatever its speeds and headings. *)
Theorem trip_without_time_progress_has_no_events (data_points : list data_point) :
  (∀ pair, pair ∈ consecutive data_points →
           timestamp (snd pair) <= timestamp (fst pair)) →
  an_hard_braking_events (analyze data_points) = 0%nat
  ∧ an_sharp_cornering_events (analyze data_points) = 0%nat.
Proof.
  intros Hstall. destruct data_points as [|first rest]; [done|].
  destruct (analyze_nonempty first rest) as (_ & _ & -> & ->).
  destruct (fold_step_spec (first :: rest) (mk_ls 0 0 0 0 None)) as (_ & -> & ->).
  assert (Hdt : ∀ pair, pair ∈ consecutive (first :: rest) →
                        TripAnalysis.gt (time_diff pair) 0 = false).
  { intros pair Hin. apply gt_false. specialize (Hstall pair Hin).
    unfold time_diff. lra. }
  rewrite !filter_none; [done| |].
  - intros pair Hin. unfold is_sharp_cornering. by rewrite (Hdt pair Hin).
  - intros pair Hin. unfold is_hard_braking. by rewrite (Hdt pair Hin).
Qed.

(** X6: while the receiver does not move faster than the noise threshold, no
    sharp cornering is counted, however the heading jumps, and the average
    speed is zero. *)
Theorem stationary_trip_has_no_cornering (data_points : list data_point) :
  (∀ dp, dp ∈ data_points → gSpeed dp <= speed_noise_threshold) →
  an_sharp_cornering_events (analyze data_points) = 0%nat
  ∧ an_average_speed (analyze data_points) = 0.
Proof.
  intros Hslow. destruct data_points as [|first rest]; [done|].
  split.
  - destruct (analyze_nonempty first rest) as (_ & _ & _ & ->).
    destruct (fold_step_spec (first :: rest) (mk_ls 0 0 0 0 None)) as (_ & _ & ->).
    rewrite filter_none; [done|].
    intros [p q] Hin. unfold is_sharp_cornering. simpl.
    assert (Hq : TripAnalysis.gt (gSpeed q) speed_noise_threshold = false).
    { apply gt_false, Hslow. by eapply pairs_from_snd. }
    rewrite Hq. by rewrite andb_false_r.
  - unfold _analyze_trip_data.
    rewrite (filter_none (λ dp, TripAnalysis.gt (gSpeed dp) speed_noise_threshold));
      [done|].
    intros dp Hin. by apply gt_false, Hslow.
Qed.

(** X7: two fixes nine seconds or more apart cannot show a sharp cornering:
    the heading difference is at most half a turn, so the angular velocity
    stays at or below the threshold of 20 degrees per second. *)
Theorem sparse_trip_has_no_cornering (data_points : list data_point) :
  (∀ pair, pair ∈ consecutive data_points → 9 <= time_diff pair) →
  an_sharp_cornering_events (analyze data_points) = 0%nat.
Proof.
  intros Hsparse. destruct data_points as [|first rest]; [done|].
  destruct (analyze_nonempty first rest) as (_ & _ & _ & ->).
  destruct (fold_step_spec (first :: rest) (mk_ls 0 0 0 0 None)) as (_ & _ & ->).
  rewrite filter_none; [done|].
  intros pair Hin. specialize (Hsparse pair Hin). unfold is_sharp_cornering.
  destruct (normalized_heading_diff_range (headMot (fst pair)) (headMot (snd pair)))
    as (Hlo & Hhi & _).
  pose proof (angular_velocity_bound _ (time_diff pair) ltac:(lra) Hlo Hhi) as Hav.
  assert (Hq : 180 / time_diff pair <= 20).
  { apply Qle_shift_div_r; lra. }
  assert (Hgt : TripAnalysis.gt
                  (angular_velocity_deg_per_sec
                     (normalized_heading_diff (headMot (fst pair)) (headMot (snd pair)))
                     (time_diff pair))
                  SHARP_CORNERING_THRESHOLD_DEG_PER_SEC = false).
  { apply gt_false. unfold SHARP_CORNERING_THRESHOLD_DEG_PER_SEC. lra. }
  rewrite Hgt. by rewrite andb_false_r.
Qed.

Lemma fold_step_max (l : list data_point) (st : loop_state) :
  let M := max_speed (fold_left step l st) in
  max_speed st <= M
  ∧ (∀ dp, dp ∈ l → gSpeed dp <= M)
  ∧ (M = max_speed st ∨ ∃ dp, dp ∈ l ∧ M = gSpeed dp).
Proof.
  revert st. induction l as [|dp l IH]; intros st; cbv zeta.
  { simpl. split_and!; [lra| |by left]. intros dp H. by apply elem_of_nil in H. }
  change (fold_left step (dp :: l) st) with (fold_left step l (step st dp)).
  destruct (IH (step st dp)) as (Hge & Hall & Hwit). cbv zeta in Hge, Hall, Hwit.
  destruct (step_spec st dp) as (_ & Hm & _). rewrite Hm in Hge, Hwit.
  set (M := max_speed (fold_left step l (step st dp))) in *.
  destruct (TripAnalysis.gt (gSpeed dp) (max_speed st)) eqn:Hgt;
    [apply gt_true in Hgt|apply gt_false in Hgt].
  - split_and!; [lra| |].
    + intros x Hx. apply elem_of_cons in Hx as [->|Hx]; [done|by apply Hall].
    + right. destruct Hwit as [->|(x & Hx & ->)].
      * exists dp. split; [apply list_elem_of_here|done].
      * exists x. split; [by apply list_elem_of_further|done].
  - split_and!; [done| |].
    + intros x Hx. apply elem_of_cons in Hx as [->|Hx]; [lra|by apply Hall].
    + destruct Hwit as [->|(x & Hx & ->)]; [by left|].
      right. exists x. split; [by apply list_elem_of_further|done].
Qed.

(** X8: the maximum speed of the analysis is at least every speed of the log
    and never negative; it is the speed of one of the data points, or zero
    when no speed is positive. *)
Theorem trip_max_speed_is_maximum (data_points : list data_point) :
  let M := an_max_speed (analyze data_points) in
  0 <= M
  ∧ (∀ dp, dp ∈ data_points → gSpeed dp <= M)
  ∧ (M = 0 ∨ ∃ dp, dp ∈ data_points ∧ M = gSpeed dp).
Proof.
  destruct data_points as [|first rest]; cbv zeta.
  { simpl. split_and!; [lra| |by left]. intros dp H. by apply elem_of_nil in H. }
  destruct (analyze_nonempty first rest) as (_ & -> & _).
  exact (fold_step_max (first :: rest) (mk_ls 0 0 0 0 None)).
Qed.

End TripEventsFacts.


Lemma trip_without_time_progress_has_no_events_witness :
  (∀ pair, pair ∈ TripEvents.consecutive TripEvents.stalled_trip →
           (TripAnalysis.timestamp (snd pair) <= TripAnalysis.timestamp (fst pair))%Q)
  ∧ TripAnalysis.an_hard_braking_events
      (TripAnalysis._analyze_trip_data TripEvents.sample_distance (1 # 2)
         TripEvents.stalled_trip) = 0%nat
  ∧ TripAnalysis.an_sharp_cornering_events
      (TripAnalysis._analyze_trip_data TripEvents.sample_distance (1 # 2)
         TripEvents.stalled_trip) = 0%nat.
Proof.
  assert (H : ∀ pair, pair ∈ TripEvents.consecutive TripEvents.stalled_trip →
                (TripAnalysis.timestamp (snd pair)
                 <= TripAnalysis.timestamp (fst pair))%Q).
  { intros pair Hin. cbv [TripEvents.consecutive TripEvents.stalled_trip
                           TripEvents.pairs_from] in Hin.
    apply elem_of_cons in Hin as [->|Hin]; [by vm_compute|].
    apply list_elem_of_singleton in Hin as ->. by vm_compute. }
  split; [exact H|].
  exact (trip_without_time_progress_has_no_events TripEvents.sample_distance (1 # 2)
           TripEvents.stalled_trip H).
Defined.

Lemma stationary_trip_has_no_cornering_witness :
  (∀ dp, dp ∈ TripEvents.parked_trip → (TripAnalysis.gSpeed dp <= 1 # 2)%Q)
  ∧ TripAnalysis.an_sharp_cornering_events
      (TripAnalysis._analyze_trip_data TripEvents.sample_distance (1 # 2)
         TripEvents.parked_trip) = 0%nat
  ∧ TripAnalysis.an_average_speed
      (TripAnalysis._analyze_trip_data TripEvents.sample_distance (1 # 2)
         TripEvents.parked_trip) = 0%Q.
Proof.
  assert (H : ∀ dp, dp ∈ TripEvents.parked_trip → (TripAnalysis.gSpeed dp <= 1 # 2)%Q).
  { intros dp Hin. unfold TripEvents.parked_trip in Hin.
    apply elem_of_cons in Hin as [->|Hin]; [by vm_compute|].
    apply elem_of_cons in Hin as [->|Hin]; [by vm_compute|].
    apply list_elem_of_singleton in Hin as ->. by vm_compute. }
  split; [exact H|].
  exact (stationary_trip_has_no_cornering TripEvents.sample_distance (1 # 2)
           TripEvents.parked_trip H).
Defined.

Lemma sparse_trip_has_no_cornering_witness :
  (∀ pair, pair ∈ TripEvents.consecutive TripEvents.sparse_trip →
           (9 <= TripEvents.time_diff pair)%Q)
  ∧ TripAnalysis.an_sharp_cornering_events
      (TripAnalysis._analyze_trip_data TripEvents.sample_distance (1 # 2)
         TripEvents.sparse_trip) = 0%nat.
Proof.
  assert (H : ∀ pair, pair ∈ TripEvents.consecutive TripEvents.sparse_trip →
                (9 <= TripEvents.time_diff pair)%Q).
  { intros pair Hin. cbv [TripEvents.consecutive TripEvents.sparse_trip
                           TripEvents.pairs_from] in Hin.
    apply elem_of_cons in Hin as [->|Hin]; [by vm_compute|].
    apply list_elem_of_singleton in Hin as ->. by vm_compute. }
  split; [exact H|].
  exact (sparse_trip_has_no_cornering TripEvents.sample_distance (1 # 2)
           TripEvents.sparse_trip H).
Defined.

(** ** The sensor interfaces: shape of the readings, initialisation, modes *)

Section SensorShapeFacts.

Lemma dom_nan_dict (keys : list string) :
  dom (nan_dict keys) = list_to_set (C:=gset string) keys.
Proof.
  unfold nan_dict. rewrite dom_list_to_map_L. f_equal.
  induction keys as [|k keys IH]; [done|]. simpl. by f_equal.
Qed.

Ltac literal_dom :=
  rewrite ?dom_list_to_map_L; simpl; rewrite ?dom_insert_L, ?dom_empty_L; reflexivity.

Lemma read_bme280_dom (bme : Drivers.bme280) (d : gmap string value) :
  Drivers.read_bme280 bme = inr d → dom d = list_to_set Drivers.bme280_keys.
Proof.
  unfold Drivers.read_bme280, try_bind.
  repeat match goal with
         | |- context [match ?x with inl _ => _ | inr _ => _ end] => destruct x; [done|]
         end.
  intros [= <-]. literal_dom.
Qed.

Lemma read_sgp40_dom (sgp : Drivers.sgp40) (d : gmap string value) :
  Drivers.read_sgp40 sgp = inr d → dom d = list_to_set [ "voc_index" ].
Proof.
  unfold Drivers.read_sgp40, try_bind.
  repeat match goal with
         | |- context [match ?x with inl _ => _ | inr _ => _ end] => destruct x; [done|]
         end.
  intros [= <-]. literal_dom.
Qed.

Lemma read_shtc3_dom (sht : Drivers.shtc3) (d : gmap string value) :
  Drivers.read_shtc3 sht = inr d → dom d = list_to_set [ "temperature"; "humidity" ].
Proof.
  unfold Drivers.read_shtc3, try_bind.
  repeat match goal with
         | |- context [match ?x with inl _ => _ | inr _ => _ end] => destruct x; [done|]
         end.
  intros [= <-]. literal_dom.
Qed.

Lemma read_proximity_dom (prox : Drivers.proximity) (d : gmap string value) :
  Drivers.read_proximity prox = inr d
  → dom d = list_to_set [ "proximity"; "ambient_light"; "white_light" ].
Proof.
  unfold Drivers.read_proximity, try_bind.
  repeat match goal with
         | |- context [match ?x with inl _ => _ | inr _ => _ end] => destruct x; [done|]
         end.
  intros [= <-]. literal_dom.
Qed.

Lemma mock_bme280_dom (g : PyRandom.rng) :
  dom (fst (Drivers.mock_bme280 g)) = list_to_set Drivers.bme280_keys.
Proof.
  unfold Drivers.mock_bme280.
  repeat match goal with
         | |- context [PyRandom.uniform ?a ?b ?g0] =>
             destruct (PyRandom.uniform a b g0) as [? ?]
         end.
  cbn [fst]. literal_dom.
Qed.

Lemma mock_sgp40_dom (g : PyRandom.rng) :
  dom (fst (Drivers.mock_sgp40 g)) = list_to_set [ "voc_index" ].
Proof.
  unfold Drivers.mock_sgp40. destruct (PyRandom.uniform 0 500 g) as [? ?].
  cbn [fst]. literal_dom.
Qed.

Lemma mock_shtc3_dom (g : PyRandom.rng) :
  dom (fst (Drivers.mock_shtc3 g)) = list_to_set [ "temperature"; "humidity" ].
Proof.
  unfold Drivers.mock_shtc3.
  repeat match goal with
         | |- context [PyRandom.uniform ?a ?b ?g0] =>
             destruct (PyRandom.uniform a b g0) as [? ?]
         end.
  cbn [fst]. literal_dom.
Qed.

Lemma mock_proximity_dom (g : PyRandom.rng) :
  dom (fst (Drivers.mock_proximity g))
  = list_to_set [ "proximity"; "ambient_light"; "white_light" ].
Proof.
  unfold Drivers.mock_proximity.
  repeat match goal with
         | |- context [PyRandom.randint ?a ?b ?g0] =>
             destruct (PyRandom.randint a b g0) as [? ?]
         end.
  cbn [fst]. literal_dom.
Qed.

(** The dictionary assembled from four entries with the right keys. *)
Lemma assembled_well_formed (d_bme d_sgp d_sht d_prox : gmap string value) :
  dom d_bme = list_to_set Drivers.bme280_keys →
  dom d_sgp = list_to_set [ "voc_index" ] →
  dom d_sht = list_to_set [ "temperature"; "humidity" ] →
  dom d_prox = list_to_set [ "proximity"; "ambient_light"; "white_light" ] →
  Readings.well_formed
    (<["proximity" := d_prox]> (<["shtc3" := d_sht]>
       (<["sgp40" := d_sgp]> (<["bme280" := d_bme]> ∅)))).
Proof.
  intros H1 H2 H3 H4. split.
  - rewrite !dom_insert_L, dom_empty_L. unfold Sensors.names. simpl. set_solver.
  - intros sensor d Hd.
    apply lookup_insert_Some in Hd as [[<- <-]|[_ Hd]]; [exact H4|].
    apply lookup_insert_Some in Hd as [[<- <-]|[_ Hd]]; [exact H3|].
    apply lookup_insert_Some in Hd as [[<- <-]|[_ Hd]]; [exact H2|].
    apply lookup_insert_Some in Hd as [[<- <-]|[_ Hd]]; [exact H1|].
    by rewrite lookup_empty in Hd.
Qed.

Lemma qt_read_block_dom {Dev : Type} (dev : option Dev)
    (read : Dev → exn + gmap string value) (label : string) (keys : list string) :
  (∀ d v, read d = inr v → dom v = list_to_set keys) →
  dom (fst (SensorInterfaceQt.read_block dev read label keys)) = list_to_set keys.
Proof.
  intros Hread. unfold SensorInterfaceQt.read_block.
  destruct dev as [d|]; [|apply dom_nan_dict].
  destruct (read d) as [e|v] eqn:Hr; [apply dom_nan_dict|]. by apply (Hread d).
Qed.

Lemma tk_read_block_dom {Dev : Type} (G : SensorInterfaceTk.globals) (dev : option Dev)
    (read : Dev → exn + gmap string value) (label : string) (keys : list string)
    (mock : PyRandom.rng → gmap string value * PyRandom.rng) (g : PyRandom.rng) :
  (∀ d v, read d = inr v → dom v = list_to_set keys) →
  (∀ g0, dom (fst (mock g0)) = list_to_set keys) →
  dom (fst (fst (SensorInterfaceTk.read_block G dev read label keys mock g)))
  = list_to_set keys.
Proof.
  intros Hread Hmock. unfold SensorInterfaceTk.read_block.
  destruct dev as [d|].
  - destruct (read d) as [e|v] eqn:Hr; [apply dom_nan_dict|]. by apply (Hread d).
  - destruct (negb (SensorInterfaceTk.SENSORS_AVAILABLE G)); [|apply dom_nan_dict].
    specialize (Hmock g). by destruct (mock g).
Qed.

Lemma qt_read_all_sensors_well_formed (self : SensorInterfaceQt.t) (g : PyRandom.rng) :
  Readings.well_formed
    (SensorInterfaceQt.sensor_data (SensorInterfaceQt.read_all_sensors self g)).
Proof.
  unfold SensorInterfaceQt.read_all_sensors.
  destruct (SensorInterfaceQt._use_mock_data self).
  - pose proof (mock_bme280_dom g) as H1.
    destruct (Drivers.mock_bme280 g) as [d1 g1].
    pose proof (mock_sgp40_dom g1) as H2.
    destruct (Drivers.mock_sgp40 g1) as [d2 g2].
    pose proof (mock_shtc3_dom g2) as H3.
    destruct (Drivers.mock_shtc3 g2) as [d3 g3].
    pose proof (mock_proximity_dom g3) as H4.
    destruct (Drivers.mock_proximity g3) as [d4 g4].
    by apply assembled_well_formed.
  - pose proof (qt_read_block_dom (SensorInterfaceQt.bme self) Drivers.read_bme280
                  "BME280" Drivers.bme280_keys read_bme280_dom) as H1.
    pose proof (qt_read_block_dom (SensorInterfaceQt.sgp self) Drivers.read_sgp40
                  "SGP40" _ read_sgp40_dom) as H2.
    pose proof (qt_read_block_dom (SensorInterfaceQt.sht self) Drivers.read_shtc3
                  "SHTC3" _ read_shtc3_dom) as H3.
    pose proof (qt_read_block_dom (SensorInterfaceQt.prox self) Drivers.read_proximity
                  "Proximity" _ read_proximity_dom) as H4.
    destruct (SensorInterfaceQt.read_block (SensorInterfaceQt.bme self) _ _ _) as [d1 m1].
    destruct (SensorInterfaceQt.read_block (SensorInterfaceQt.sgp self) _ _ _) as [d2 m2].
    destruct (SensorInterfaceQt.read_block (SensorInterfaceQt.sht self) _ _ _) as [d3 m3].
    destruct (SensorInterfaceQt.read_block (SensorInterfaceQt.prox self) _ _ _) as [d4 m4].
    by apply assembled_well_formed.
Qed.

Lemma tk_read_all_sensors_well_formed (self : SensorInterfaceTk.t) (g : PyRandom.rng) :
  Readings.well_formed
    (SensorInterfaceTk.sensor_data (SensorInterfaceTk.read_all_sensors self g)).
Proof.
  unfold SensorInterfaceTk.read_all_sensors.
  pose proof (λ g0, tk_read_block_dom (SensorInterfaceTk.env self)
                (SensorInterfaceTk.bme self) Drivers.read_bme280
                "BME280" Drivers.bme280_keys Drivers.mock_bme280 g0
                read_bme280_dom mock_bme280_dom) as H1.
  pose proof (λ g0, tk_read_block_dom (SensorInterfaceTk.env self)
                (SensorInterfaceTk.sgp self) Drivers.read_sgp40
                "SGP40" _ Drivers.mock_sgp40 g0 read_sgp40_dom mock_sgp40_dom) as H2.
  pose proof (λ g0, tk_read_block_dom (SensorInterfaceTk.env self)
                (SensorInterfaceTk.sht self) Drivers.read_shtc3
                "SHTC3" _ Drivers.mock_shtc3 g0 read_shtc3_dom mock_shtc3_dom) as H3.
  pose proof (λ g0, tk_read_block_dom (SensorInterfaceTk.env self)
                (SensorInterfaceTk.prox self) Drivers.read_proximity
                "Proximity" _ Drivers.mock_proximity g0
                read_proximity_dom mock_proximity_dom) as H4.
  specialize (H1 g).
  destruct (SensorInterfaceTk.read_block _ (SensorInterfaceTk.bme self) _ _ _ _ g)
    as [[d1 m1] g1].
  specialize (H2 g1).
  destruct (SensorInterfaceTk.read_block _ (SensorInterfaceTk.sgp self) _ _ _ _ g1)
    as [[d2 m2] g2].
  specialize (H3 g2).
  destruct (SensorInterfaceTk.read_block _ (SensorInterfaceTk.sht self) _ _ _ _ g2)
    as [[d3 m3] g3].
  specialize (H4 g3).
  destruct (SensorInterfaceTk.read_block _ (SensorInterfaceTk.prox self) _ _ _ _ g3)
    as [[d4 m4] g4].
  by apply assembled_well_formed.
Qed.

(** X14: in both applications every poll returns a dictionary with an entry for
    each of the four sensors and nothing else, and each entry has exactly
    the metrics of its sensor as keys: whatever the mode, whichever drivers
    exist and whatever they answer or raise. *)
Theorem read_all_sensors_is_well_formed (g : PyRandom.rng) :
  (∀ self : SensorInterfaceQt.t,
      Readings.well_formed
        (SensorInterfaceQt.sensor_data (SensorInterfaceQt.read_all_sensors self g)))
  ∧ (∀ self : SensorInterfaceTk.t,
      Readings.well_formed
        (SensorInterfaceTk.sensor_data (SensorInterfaceTk.read_all_sensors self g))).
Proof.
  split; intros self.
  - apply qt_read_all_sensors_well_formed.
  - apply tk_read_all_sensors_well_formed.
Qed.

End SensorShapeFacts.


(** ** Initialisation and modes of the sensor interfaces *)

Section SensorInitFacts.














Lemma qt_hardware_poll_no_draw (self : SensorInterfaceQt.t) (g : PyRandom.rng) :
  SensorInterfaceQt._use_mock_data self = false →
  SensorInterfaceQt.rng_after (SensorInterfaceQt.read_all_sensors self g) = g.
Proof.
  intros Hmock. unfold SensorInterfaceQt.read_all_sensors. rewrite Hmock.
  repeat match goal with
         | |- context [SensorInterfaceQt.read_block ?a ?b ?c ?k] =>
             destruct (SensorInterfaceQt.read_block a b c k) as [? ?]
         end.
  reflexivity.
Qed.

Lemma qt_mock_poll_silent (self : SensorInterfaceQt.t) (g : PyRandom.rng) :
  SensorInterfaceQt._use_mock_data self = true →
  SensorInterfaceQt.emitted (SensorInterfaceQt.read_all_sensors self g) = [].
Proof.
  intros Hmock. unfold SensorInterfaceQt.read_all_sensors. rewrite Hmock.
  destruct (Drivers.mock_bme280 g) as [d1 g1], (Drivers.mock_sgp40 g1) as [d2 g2],
    (Drivers.mock_shtc3 g2) as [d3 g3], (Drivers.mock_proximity g3) as [d4 g4].
  reflexivity.
Qed.

Lemma set_use_mock_data_flag (G : SensorInitQt.globals) (self : SensorInterfaceQt.t)
    (enable_mock : bool) :
  SensorInterfaceQt._use_mock_data (fst (SensorInitQt.set_use_mock_data G self enable_mock))
  = enable_mock.
Proof.
  unfold SensorInitQt.set_use_mock_data.
  destruct (Bool.eqb (SensorInterfaceQt._use_mock_data self) enable_mock) eqn:Heq;
    cbn [negb].
  - cbn [fst]. by apply Bool.eqb_prop.
  - unfold SensorInitQt._initialize_sensors. destruct enable_mock; [done|].
    by destruct (SensorInitQt.init_bme G), (SensorInitQt.init_sgp G),
      (SensorInitQt.init_prox G), (SensorInitQt.init_sht G).
Qed.

(** X16: [set_use_mock_data] selects the source of the readings, whatever
    the mode and the drivers were before and whatever the hardware answers
    during the re-initialisation: after [set_use_mock_data(True)] every poll
    lies in the mock ranges and emits no status message; after
    [set_use_mock_data(False)] a poll draws no random number; and asking for
    the mode that is already set changes nothing and emits nothing. *)
Theorem set_use_mock_data_selects_the_source (G : SensorInitQt.globals)
    (self : SensorInterfaceQt.t) (g : PyRandom.rng) :
  let mock := fst (SensorInitQt.set_use_mock_data G self true) in
  let real := fst (SensorInitQt.set_use_mock_data G self false) in
  Sensors.in_mock_ranges
    (SensorInterfaceQt.sensor_data (SensorInterfaceQt.read_all_sensors mock g))
  ∧ SensorInterfaceQt.emitted (SensorInterfaceQt.read_all_sensors mock g) = []
  ∧ SensorInterfaceQt.rng_after (SensorInterfaceQt.read_all_sensors real g) = g
  ∧ SensorInitQt.set_use_mock_data G self (SensorInterfaceQt._use_mock_data self)
    = (self, []).
Proof.
  cbv zeta. split_and!.
  - apply qt_mock_poll_in_ranges, set_use_mock_data_flag.
  - apply qt_mock_poll_silent, set_use_mock_data_flag.
  - apply qt_hardware_poll_no_draw, set_use_mock_data_flag.
  - unfold SensorInitQt.set_use_mock_data. by rewrite Bool.eqb_reflx.
Qed.

(** X17: without the sensor libraries the Tk interface polls exactly like
    the Qt interface in mock mode: from the same state of the random
    generator both return the same readings and leave the generator in the
    same state, and neither emits a status message. *)
Theorem tk_without_libraries_polls_like_qt_mock (G : SensorInterfaceTk.globals)
    (qt : SensorInterfaceQt.t) (g : PyRandom.rng) :
  SensorInterfaceTk.SENSORS_AVAILABLE G = false →
  SensorInterfaceQt._use_mock_data qt = true →
  let o_tk := SensorInterfaceTk.read_all_sensors (fst (SensorInterfaceTk.init G)) g in
  let o_qt := SensorInterfaceQt.read_all_sensors qt g in
  SensorInterfaceTk.sensor_data o_tk = SensorInterfaceQt.sensor_data o_qt
  ∧ SensorInterfaceTk.rng_after o_tk = SensorInterfaceQt.rng_after o_qt
  ∧ SensorInterfaceTk.emitted o_tk = []
  ∧ SensorInterfaceQt.emitted o_qt = [].
Proof.
  intros Hna Hmock. destruct (tk_init_unavailable G Hna) as [msgs ->]. cbn [fst].
  unfold SensorInterfaceTk.read_all_sensors, SensorInterfaceTk.read_block,
    SensorInterfaceQt.read_all_sensors.
  cbn [SensorInterfaceTk.env SensorInterfaceTk.bme SensorInterfaceTk.sgp
       SensorInterfaceTk.sht SensorInterfaceTk.prox].
  rewrite Hna, Hmock. cbn [negb].
  destruct (Drivers.mock_bme280 g) as [d1 g1], (Drivers.mock_sgp40 g1) as [d2 g2],
    (Drivers.mock_shtc3 g2) as [d3 g3], (Drivers.mock_proximity g3) as [d4 g4].
  by split_and!.
Qed.

End SensorInitFacts.


Lemma tk_without_libraries_polls_like_qt_mock_witness :
  SensorInterfaceTk.sensor_data
    (SensorInterfaceTk.read_all_sensors
       (fst (SensorInterfaceTk.init
               (SensorInterfaceTk.mk_globals false false None None None None)))
       Sensors.sample_rng)
  = SensorInterfaceQt.sensor_data
      (SensorInterfaceQt.read_all_sensors
         (SensorInterfaceQt.mk true None None None None) Sensors.sample_rng).
Proof.
  exact (proj1 (tk_without_libraries_polls_like_qt_mock
                  (SensorInterfaceTk.mk_globals false false None None None None)
                  (SensorInterfaceQt.mk true None None None None) Sensors.sample_rng
                  eq_refl eq_refl)).
Defined.

(** ** The run loop of the sensor thread: sleeps, queue, and its end *)

Section SensorReaderTraceFacts.
Import SensorReader SensorReaderTrace.

Variable E : env.

Lemma process_loop_events (m : control_message) (st : state) :
  Forall loop_event (snd (fst (process E m st))).
Proof.
  destruct m as [a b c d| |z|ty]; simpl.
  - destruct (logger_raises E (n_calls st)); by repeat constructor.
  - destruct (logger_raises E (n_calls st)); by repeat constructor.
  - destruct (z <=? 0)%Z; by repeat constructor.
  - constructor.
Qed.

Lemma drain_loop_events (fuel : nat) (st : state) :
  Forall loop_event (snd (fst (drain fuel E st))).
Proof.
  revert st. induction fuel as [|fuel IH]; intros st; [constructor|].
  simpl. destruct (get_nowait E (n_gets st)) as [cm|]; [|by repeat constructor].
  pose proof (process_loop_events cm
                (mk_state (read_interval st) (next_read_time st) (n_checks st)
                   (n_times st) (S (n_gets st)) (n_calls st))) as Hp.
  destruct (process E cm _) as [[rp evp] st2]. cbn [fst snd] in Hp.
  destruct rp; cbn [fst snd]; try (by constructor).
  unfold check. destruct (is_set E (n_checks st2)).
  - cbn [fst snd]. constructor; [done|]. apply Forall_app. split; [done|].
    by repeat constructor.
  - match goal with
    | |- context [drain fuel E ?s] =>
        specialize (IH s); destruct (drain fuel E s) as [[r3 ev3] st3]
    end.
    cbn [fst snd] in *. constructor; [done|]. apply Forall_app. split; [done|].
    by constructor.
Qed.

Lemma sleep_loop_loop_events (fuel : nat) (time_to_wait : Q) (st : state) :
  Forall loop_event (snd (fst (sleep_loop fuel E time_to_wait st))).
Proof.
  revert time_to_wait st. induction fuel as [|fuel IH]; intros ttw st; [constructor|].
  simpl. unfold SensorReader.gt. destruct (Qlt_le_dec 0 ttw) as [Hpos|Hneg]; [|constructor].
  destruct (is_set E (n_checks st)); [by repeat constructor|].
  match goal with
  | |- context [sleep_loop fuel E ?q ?s] =>
      specialize (IH q s); destruct (sleep_loop fuel E q s) as [[r3 ev3] st3]
  end.
  cbn [fst snd] in *. constructor; [done|]. constructor; [|done].
  simpl. split.
  - apply Q.min_glb_lt; [done|reflexivity].
  - apply Q.le_min_r.
Qed.

Lemma read_when_due_loop_events (st : state) :
  Forall loop_event (snd (fst (read_when_due E st))).
Proof.
  unfold read_when_due. cbn.
  destruct (ge _ _); [|constructor].
  destruct (logger_raises E (n_calls st)); [by repeat constructor|].
  destruct (is_set E (n_checks st)); [by repeat constructor|].
  destruct (logger_raises E (S (n_calls st))); by repeat constructor.
Qed.

Lemma main_loop_loop_events (fuel : nat) (st : state) :
  Forall loop_event (snd (fst (main_loop fuel E st))).
Proof.
  revert st. induction fuel as [|fuel IH]; intros st; [constructor|].
  rewrite main_loop_S. unfold check at 1.
  destruct (is_set E (n_checks st)); [by repeat constructor|].
  match goal with
  | |- context [drain fuel E ?s] =>
      pose proof (drain_loop_events fuel s) as H1;
      destruct (drain fuel E s) as [[r1 evs1] st2]
  end.
  cbn [fst snd] in H1.
  destruct r1; cbn [fst snd]; try (by constructor).
  unfold check at 1. destruct (is_set E (n_checks st2)).
  { cbn [fst snd]. constructor; [done|]. apply Forall_app. split; [done|].
    by repeat constructor. }
  match goal with
  | |- context [read_when_due E ?s] =>
      pose proof (read_when_due_loop_events s) as H2;
      destruct (read_when_due E s) as [[r2 evs2] st4]
  end.
  cbn [fst snd] in H2.
  assert (Hpre : ∀ tl, Forall loop_event tl →
                       Forall loop_event (IsSet false :: evs1 ++ IsSet false :: evs2 ++ tl)).
  { intros tl Htl. constructor; [done|]. apply Forall_app. split; [done|].
    constructor; [done|]. by apply Forall_app. }
  destruct r2; cbn [fst snd].
  - destruct (now E st4) as [t st5]. cbv zeta.
    match goal with
    | |- context [sleep_loop fuel E ?q ?s] =>
        pose proof (sleep_loop_loop_events fuel q s) as H3;
        destruct (sleep_loop fuel E q s) as [[r3 evs3] st6]
    end.
    cbn [fst snd] in H3.
    destruct r3; cbn [fst snd]; try (by apply Hpre).
    specialize (IH st6). destruct (main_loop fuel E st6) as [[r4 evs4] st7].
    cbn [fst snd] in *. apply Hpre. by apply Forall_app.
  - specialize (Hpre [] ltac:(constructor)). by rewrite app_nil_r in Hpre.
  - specialize (Hpre [] ltac:(constructor)). by rewrite app_nil_r in Hpre.
  - specialize (Hpre [] ltac:(constructor)). by rewrite app_nil_r in Hpre.
Qed.

(** X18: the thread never sleeps longer than its polling interval in one
    go: every sleep of a run lasts more than zero and at most 100 ms, so the
    stop event is looked at again within that time, however long the read
    interval is. *)
Theorem run_sleeps_in_short_chunks (fuel : nat) (initial_read_interval : Z) (d : Q) :
  Sleep d ∈ snd (run fuel E initial_read_interval) →
  (0 < d)%Q ∧ (d <= 100 / 1000)%Q.
Proof.
  unfold run. cbn [now].
  match goal with
  | |- context [main_loop fuel E ?s] =>
      pose proof (main_loop_loop_events fuel s) as H;
      destruct (main_loop fuel E s) as [[r evs] st']
  end.
  cbn [fst snd] in H. rewrite Forall_forall in H.
  destruct r; cbn [snd]; intros Hin; try exact (H _ Hin).
  apply elem_of_app in Hin as [Hin|Hin]; [exact (H _ Hin)|].
  by apply list_elem_of_singleton in Hin.
Qed.

Lemma process_returns (m : control_message) (st : state) :
  (∀ n, logger_raises E n = None) → fst (fst (process E m st)) = Done.
Proof.
  intros Hlog. destruct m as [a b c d| |z|ty]; simpl; rewrite ?Hlog; try done.
  by destruct (z <=? 0)%Z.
Qed.

Lemma drain_goes_on (fuel : nat) (st : state) :
  (∀ n, is_set E n = false) → (∀ n, logger_raises E n = None) →
  fst (fst (drain fuel E st)) = Done ∨ fst (fst (drain fuel E st)) = OutOfFuel.
Proof.
  intros Hset Hlog. revert st. induction fuel as [|fuel IH]; intros st; [by right|].
  simpl. destruct (get_nowait E (n_gets st)) as [cm|]; [|by left].
  pose proof (process_returns cm
                (mk_state (read_interval st) (next_read_time st) (n_checks st)
                   (n_times st) (S (n_gets st)) (n_calls st)) Hlog) as Hp.
  destruct (process E cm _) as [[rp evp] st2]. cbn [fst] in Hp. subst rp.
  unfold check. rewrite Hset.
  match goal with
  | |- context [drain fuel E ?s] =>
      specialize (IH s); destruct (drain fuel E s) as [[r3 ev3] st3]
  end.
  exact IH.
Qed.

Lemma sleep_loop_goes_on (fuel : nat) (time_to_wait : Q) (st : state) :
  fst (fst (sleep_loop fuel E time_to_wait st)) = Done
  ∨ fst (fst (sleep_loop fuel E time_to_wait st)) = OutOfFuel.
Proof.
  revert time_to_wait st. induction fuel as [|fuel IH]; intros ttw st; [by right|].
  simpl. destruct (SensorReader.gt ttw 0); [|by left].
  destruct (is_set E (n_checks st)); [by left|].
  match goal with
  | |- context [sleep_loop fuel E ?q ?s] =>
      specialize (IH q s); destruct (sleep_loop fuel E q s) as [[r3 ev3] st3]
  end.
  exact IH.
Qed.

Lemma read_when_due_returns (st : state) :
  (∀ n, is_set E n = false) → (∀ n, logger_raises E n = None) →
  fst (fst (read_when_due E st)) = Done.
Proof.
  intros Hset Hlog. unfold read_when_due. cbn.
  destruct (ge _ _); [|done]. by rewrite !Hlog, Hset.
Qed.

Lemma main_loop_goes_on (fuel : nat) (st : state) :
  (∀ n, is_set E n = false) → (∀ n, logger_raises E n = None) →
  fst (fst (main_loop fuel E st)) = OutOfFuel.
Proof.
  intros Hset Hlog. revert st. induction fuel as [|fuel IH]; intros st; [done|].
  rewrite main_loop_S. unfold check at 1. rewrite Hset.
  match goal with
  | |- context [drain fuel E ?s] =>
      pose proof (drain_goes_on fuel s Hset Hlog) as H1;
      destruct (drain fuel E s) as [[r1 evs1] st2]
  end.
  cbn [fst] in H1. destruct H1 as [->| ->]; [|done].
  unfold check at 1. rewrite Hset.
  match goal with
  | |- context [read_when_due E ?s] =>
      pose proof (read_when_due_returns s Hset Hlog) as H2;
      destruct (read_when_due E s) as [[r2 evs2] st4]
  end.
  cbn [fst] in H2. subst r2.
  destruct (now E st4) as [t st5]. cbv zeta.
  match goal with
  | |- context [sleep_loop fuel E ?q ?s] =>
      pose proof (sleep_loop_goes_on fuel q s) as H3;
      destruct (sleep_loop fuel E q s) as [[r3 evs3] st6]
  end.
  cbn [fst] in H3. destruct H3 as [->| ->]; [|done].
  specialize (IH st6). destruct (main_loop fuel E st6) as [[r4 evs4] st7].
  cbn [fst] in *. by subst r4.
Qed.

(** X19: nothing but the stop event or an exception ends the run loop.  As
    long as no check finds the stop event set and no call into the data
    logger raises, the loop is still running after any number of steps, and
    the final status message has not been emitted. *)
Theorem run_goes_on_until_stopped (fuel : nat) (initial_read_interval : Z) :
  (∀ n, is_set E n = false) →
  (∀ n, logger_raises E n = None) →
  fst (run fuel E initial_read_interval) = OutOfFuel
  ∧ final_status ∉ snd (run fuel E initial_read_interval).
Proof.
  intros Hset Hlog. unfold run. cbn [now].
  match goal with
  | |- context [main_loop fuel E ?s] =>
      pose proof (main_loop_goes_on fuel s Hset Hlog) as H;
      pose proof (main_loop_loop_events fuel s) as Hev;
      destruct (main_loop fuel E s) as [[r evs] st']
  end.
  cbn [fst snd] in *. subst r. cbn [fst snd]. split; [done|].
  intros Hin. rewrite Forall_forall in Hev. by destruct (Hev _ Hin).
Qed.

End SensorReaderTraceFacts.
(** ** The run loop of the sensor thread: the queue is empty before a read *)

Section SensorReaderQueueFacts.
Import SensorReader SensorReaderTrace.

Variable E : env.
Hypothesis Hmono : never_cleared E.

Lemma drained_app (a b : list event) : drained a → drained b → drained (a ++ b).
Proof.
  intros Ha Hb. induction Ha; simpl; [done|by apply drained_other|by apply drained_check].
Qed.

Lemma no_archive_drained (l : list event) :
  Forall (fun e => e ≠ CheckAndArchiveAuto) l → drained l.
Proof. induction 1; [apply drained_nil|by apply drained_other]. Qed.

Lemma quiet_no_archive (l : list event) :
  Forall quiet l → Forall (fun e => e ≠ CheckAndArchiveAuto) l.
Proof. intros H. eapply Forall_impl; [exact H|]. by intros [] Hq. Qed.

(** The loop over the control queue ends on an empty queue or on a positive
    check of the stop event. *)
Lemma drain_ends (fuel : nat) (st : state) evs st' :
  drain fuel E st = (Done, evs, st') →
  (∃ pre, evs = pre ++ [ GetNowait None ]) ∨ (∃ pre, evs = pre ++ [ IsSet true ]).
Proof.
  revert st evs st'. induction fuel as [|fuel IH]; intros st evs st' Hd; [done|].
  simpl in Hd. destruct (get_nowait E (n_gets st)) as [cm|].
  2:{ injection Hd as <- <-. left. by exists []. }
  destruct (process E cm _) as [[rp evp] st2].
  destruct rp; try done.
  unfold check in Hd. destruct (is_set E (n_checks st2)).
  - injection Hd as <- <-. right. exists (GetNowait (Some cm) :: evp). done.
  - destruct (drain fuel E _) as [[r3 ev3] st3] eqn:Hd3.
    injection Hd as -> <- <-.
    destruct (IH _ _ _ Hd3) as [[pre ->]|[pre ->]]; [left|right];
      exists (GetNowait (Some cm) :: evp ++ IsSet false :: pre);
      simpl; by rewrite <- app_assoc.
Qed.

Lemma sleep_loop_no_archive (fuel : nat) (time_to_wait : Q) (st : state) :
  Forall (fun e => e ≠ CheckAndArchiveAuto)
    (snd (fst (sleep_loop fuel E time_to_wait st))).
Proof.
  revert time_to_wait st. induction fuel as [|fuel IH]; intros ttw st; [constructor|].
  simpl. destruct (SensorReader.gt ttw 0); [|constructor].
  destruct (is_set E (n_checks st)); [by repeat constructor|].
  match goal with
  | |- context [sleep_loop fuel E ?q ?s] =>
      specialize (IH q s); destruct (sleep_loop fuel E q s) as [[r3 ev3] st3]
  end.
  cbn [fst snd] in *. by repeat constructor.
Qed.

(** The read, when due, starts with the archive check and has no other. *)
Lemma read_when_due_archive (st : state) :
  snd (fst (read_when_due E st)) = []
  ∨ ∃ tl, snd (fst (read_when_due E st)) = CheckAndArchiveAuto :: tl
          ∧ Forall (fun e => e ≠ CheckAndArchiveAuto) tl.
Proof.
  unfold read_when_due. cbn.
  destruct (ge _ _); [|by left]. right.
  destruct (logger_raises E (n_calls st)); [eexists; split; [reflexivity|constructor]|].
  destruct (is_set E (n_checks st));
    [eexists; split; [reflexivity|by repeat constructor]|].
  destruct (logger_raises E (S (n_calls st)));
    eexists; (split; [reflexivity|by repeat constructor]).
Qed.

Lemma drained_iteration (pre evs2 rest : list event) :
  Forall (fun e => e ≠ CheckAndArchiveAuto) pre →
  (evs2 = [] ∨ ∃ tl, evs2 = CheckAndArchiveAuto :: tl
                     ∧ Forall (fun e => e ≠ CheckAndArchiveAuto) tl) →
  drained rest →
  drained (IsSet false :: (pre ++ [ GetNowait None ]) ++ IsSet false :: evs2 ++ rest).
Proof.
  intros Hpre Hevs2 Hrest. apply drained_other; [done|].
  rewrite <- app_assoc. apply drained_app; [by apply no_archive_drained|].
  destruct Hevs2 as [->|(tl & -> & Htl)]; simpl.
  - by repeat (apply drained_other; [done|]).
  - apply drained_check. apply drained_app; [by apply no_archive_drained|done].
Qed.

Lemma main_loop_drained (fuel : nat) (st : state) r evs st' :
  ¬ seen E (n_checks st) →
  main_loop fuel E st = (r, evs, st') →
  drained evs.
Proof.
  revert st r evs st'. induction fuel as [|fuel IH]; intros st r evs st' Hns Hm.
  { simpl in Hm. injection Hm as <- <- <-. apply drained_nil. }
  rewrite main_loop_S in Hm.
  destruct (check E st) as [b0 st1] eqn:Hc0. apply check_inv in Hc0 as [-> Hn1].
  destruct (is_set E (n_checks st)) eqn:Hset0.
  { injection Hm as <- <- <-. by repeat (apply drained_other; [done|]); apply drained_nil. }
  assert (Hns1 : ¬ seen E (n_checks st1))
    by (rewrite Hn1; by apply (seen_S_false E)).
  destruct (drain fuel E st1) as [[r1 evs1] st2] eqn:Hd.
  pose proof (drain_spec E _ _ _ _ _ Hns1 Hd) as (Hle2 & Hq1 & Hshape1).
  apply quiet_no_archive in Hq1.
  assert (Hhead : drained (IsSet false :: evs1))
    by (apply drained_other; [done|by apply no_archive_drained]).
  destruct r1; try done.
  2:{ by injection Hm as <- <- <-. }
  2:{ by injection Hm as <- <- <-. }
  destruct (check E st2) as [b2 st3] eqn:Hc2. apply check_inv in Hc2 as [-> Hn3].
  destruct Hshape1 as [[Hns2 Hu1]|[Hs2 (pre1 & -> & Hupre1)]].
  2:{ rewrite (seen_check_true E Hmono _ Hs2) in Hm. injection Hm as <- <- <-.
      apply drained_other; [done|]. apply no_archive_drained.
      apply Forall_app. split; [done|by repeat constructor]. }
  destruct (is_set E (n_checks st2)) eqn:Hset2.
  { injection Hm as <- <- <-. apply drained_other; [done|]. apply no_archive_drained.
    apply Forall_app. split; [done|by repeat constructor]. }
  destruct (drain_ends _ _ _ _ Hd) as [[pre ->]|[pre ->]].
  2:{ exfalso. apply Hu1. apply elem_of_app. right. apply list_elem_of_here. }
  apply Forall_app in Hq1 as [Hpre _].
  pose proof (read_when_due_archive st3) as Hevs2.
  destruct (read_when_due E st3) as [[r2 evs2] st4] eqn:Hr.
  cbn [fst snd] in Hevs2.
  assert (Hns3 : ¬ seen E (n_checks st3))
    by (rewrite Hn3; by apply (seen_S_false E)).
  pose proof (read_when_due_spec E _ _ _ _ Hns3 Hr) as (Hle4 & Hshape2).
  pose proof (drained_iteration pre evs2 [] Hpre Hevs2 drained_nil) as Hstop.
  rewrite app_nil_r in Hstop.
  destruct r2; try (by injection Hm as <- <- <-).
  destruct Hshape2 as (Hns4 & _ & _).
  destruct (now E st4) as [t st5] eqn:Hnow. apply now_inv in Hnow as [Hn5 _].
  cbv zeta in Hm.
  pose proof (sleep_loop_no_archive fuel (next_read_time st5 - t) st5) as Hsl.
  destruct (sleep_loop fuel E _ st5) as [[r3 evs3] st6] eqn:Hs.
  cbn [fst snd] in Hsl.
  pose proof (sleep_loop_spec E _ _ _ _ _ _ ltac:(by rewrite Hn5) Hs)
    as (Hle6 & Hshape3).
  assert (Hnosleep : drained (IsSet false :: (pre ++ [ GetNowait None ])
                                ++ IsSet false :: evs2 ++ evs3)).
  { apply drained_iteration; [done|done|by apply no_archive_drained]. }
  destruct r3; try (by injection Hm as <- <- <-).
  destruct Hshape3 as [(Hns6 & _ & _)|(Hs6 & _)].
  - destruct (main_loop fuel E st6) as [[r4 evs4] st7] eqn:Hm4.
    injection Hm as <- <- <-.
    apply drained_iteration; [done|done|].
    apply drained_app; [by apply no_archive_drained|]. by eapply IH.
  - destruct fuel as [|fuel'].
    { simpl in Hm. injection Hm as <- <- <-. by rewrite app_nil_r. }
    rewrite (main_loop_seen E Hmono _ _ Hs6) in Hm. injection Hm as <- <- <-.
    apply drained_iteration; [done|done|].
    apply drained_app; [by apply no_archive_drained|].
    by repeat (apply drained_other; [done|]); apply drained_nil.
Qed.

(** In a drained trace the archive check comes right after the empty queue
    and a negative check of the stop event. *)
Lemma drained_before_archive (a b : list event) :
  drained (a ++ CheckAndArchiveAuto :: b) →
  ∃ a', a = a' ++ [ GetNowait None; IsSet false ].
Proof.
  intros Hd. remember (a ++ CheckAndArchiveAuto :: b) as l eqn:Hl. revert a Hl.
  induction Hd as [|e tr Hne Hd IH|tr Hd IH]; intros a Hl.
  - by destruct a.
  - destruct a as [|x a]; simpl in Hl.
    + injection Hl as -> _. done.
    + injection Hl as -> Hl. destruct (IH a Hl) as [a' ->]. by exists (x :: a').
  - destruct a as [|x [|y [|z a]]]; simpl in Hl; try done.
    + injection Hl as <- <- _. by exists [].
    + injection Hl as <- <- <- Hl. destruct (IH a Hl) as [a' ->].
      by exists (GetNowait None :: IsSet false :: CheckAndArchiveAuto :: a').
Qed.

(** X20: the control queue is emptied before every read.  In a run of the
    thread the archive check, and with it the read of the sensors that
    follows, comes only right after [get_nowait] has found the control queue
    empty and the stop event has been checked: the requests that the GUI has
    queued are all processed first.  (The stop event is assumed never to be
    cleared.) *)
Theorem queue_is_empty_before_each_read (fuel : nat) (initial_read_interval : Z)
    (a b : list event) :
  snd (run fuel E initial_read_interval) = a ++ CheckAndArchiveAuto :: b →
  ∃ a', a = a' ++ [ GetNowait None; IsSet false ].
Proof.
  intros Heq.
  assert (Hd : drained (snd (run fuel E initial_read_interval))).
  { unfold run. cbn [now].
    match goal with
    | |- context [main_loop fuel E ?s] =>
        assert (Hns : ¬ seen E (n_checks s))
          by (intros (i & Hi & _); simpl in Hi; lia);
        pose proof (main_loop_drained fuel s) as H;
        destruct (main_loop fuel E s) as [[r evs] st']
    end.
    specialize (H _ _ _ Hns eq_refl).
    destruct r; cbn [snd]; try done.
    apply drained_app; [done|]. apply drained_other; [done|apply drained_nil]. }
  rewrite Heq in Hd. by eapply drained_before_archive.
Qed.

End SensorReaderQueueFacts.

Lemma run_sleeps_in_short_chunks_witness :
  SensorReader.Sleep (100 # 1000)
    ∈ snd (SensorReader.run 7 SensorReader.sample_env 1)
  ∧ (0 < 100 # 1000)%Q ∧ (100 # 1000 <= 100 / 1000)%Q.
Proof.
  assert (Hin : SensorReader.Sleep (100 # 1000)
                  ∈ snd (SensorReader.run 7 SensorReader.sample_env 1)).
  { vm_compute. do 13 apply list_elem_of_further. apply list_elem_of_here. }
  split; [exact Hin|].
  exact (run_sleeps_in_short_chunks SensorReader.sample_env 7 1 (100 # 1000) Hin).
Defined.

Lemma run_goes_on_until_stopped_witness :
  (∀ n, SensorReader.is_set SensorReaderTrace.endless_env n = false)
  ∧ (∀ n, SensorReader.logger_raises SensorReaderTrace.endless_env n = None)
  ∧ fst (SensorReader.run 6 SensorReaderTrace.endless_env 1) = SensorReader.OutOfFuel.
Proof.
  split; [reflexivity|]. split; [reflexivity|].
  exact (proj1 (run_goes_on_until_stopped SensorReaderTrace.endless_env 6 1
                  (fun n => eq_refl) (fun n => eq_refl))).
Defined.

Lemma queue_is_empty_before_each_read_witness :
  SensorReader.never_cleared SensorReader.sample_env
  ∧ snd (SensorReader.run 7 SensorReader.sample_env 1)
    = [ SensorReader.IsSet false; SensorReader.GetNowait (Some SensorReader.archive_now);
        SensorReader.ArchiveLogs; SensorReader.IsSet false;
        SensorReader.GetNowait None; SensorReader.IsSet false ]
      ++ SensorReader.CheckAndArchiveAuto
         :: [ SensorReader.IsSet false; SensorReader.ReadAllSensors; SensorReader.AddData;
              SensorReader.LogSensorData; SensorReader.PutData; SensorReader.IsSet false;
              SensorReader.Sleep (100 # 1000); SensorReader.IsSet true;
              SensorReader.IsSet true; SensorReader.final_status ]
  ∧ ∃ a', [ SensorReader.IsSet false; SensorReader.GetNowait (Some SensorReader.archive_now);
            SensorReader.ArchiveLogs; SensorReader.IsSet false;
            SensorReader.GetNowait None; SensorReader.IsSet false ]
          = a' ++ [ SensorReader.GetNowait None; SensorReader.IsSet false ].
Proof.
  split; [exact sample_env_never_cleared|].
  assert (Heq : snd (SensorReader.run 7 SensorReader.sample_env 1)
    = [ SensorReader.IsSet false; SensorReader.GetNowait (Some SensorReader.archive_now);
        SensorReader.ArchiveLogs; SensorReader.IsSet false;
        SensorReader.GetNowait None; SensorReader.IsSet false ]
      ++ SensorReader.CheckAndArchiveAuto
         :: [ SensorReader.IsSet false; SensorReader.ReadAllSensors; SensorReader.AddData;
              SensorReader.LogSensorData; SensorReader.PutData; SensorReader.IsSet false;
              SensorReader.Sleep (100 # 1000); SensorReader.IsSet true;
              SensorReader.IsSet true; SensorReader.final_status ])
    by (vm_compute; reflexivity).
  split; [exact Heq|].
  exact (queue_is_empty_before_each_read SensorReader.sample_env sample_env_never_cleared
           7 1 _ _ Heq).
Defined.

(** ** The logger of the Tk application *)

Section DataLoggerTkFacts.
Import DataLoggerTk.

Variable E : env.

Lemma check_disk_space_short (s : t) :
  disk_short E s →
  ∃ r msg,
    _check_disk_space E s
    = (false, put (fst msg) (snd msg) (log r (call (Makedirs (_log_path_internal s)) s)))
    ∧ (∀ sensor_name data, r ≠ SensorLine sensor_name data).
Proof.
  unfold disk_short, _check_disk_space.
  intros [[e He]|[[e He]|(free & Hf & Hlt)]]; cbn [call _log_path_internal].
  - rewrite He. by eexists _, (_, _).
  - rewrite He. destruct (makedirs E _); by eexists _, (_, _).
  - rewrite Hf. destruct (makedirs E _); [by eexists _, (_, _)|].
    apply Z.ltb_lt in Hlt. rewrite Hlt. by eexists _, (_, _).
Qed.

Lemma check_disk_space_ok (s : t) :
  disk_ok E s →
  _check_disk_space E s = (true, call (Makedirs (_log_path_internal s)) s).
Proof.
  intros [Hmk (free & Hf & Hge)]. unfold _check_disk_space.
  cbn [call _log_path_internal]. rewrite Hmk, Hf.
  apply Z.ltb_ge in Hge. by rewrite Hge.
Qed.

(** X21: with too little room on the disk nothing is logged.  When the disk
    check of [log_sensor_data] fails (the log directory cannot be made, the
    disk usage cannot be read, or less than 10 MiB are free) the call returns
    without an exception, creates and removes no handler, puts exactly one
    status message on the queue and hands no sensor line to any handler; the
    only record is the warning or error of the check itself, which goes to
    the handlers that are attached. *)
Theorem low_disk_space_logs_nothing
    (sensor_data : list (string * gmap string value)) (s : t) :
  disk_short E s →
  let r := log_sensor_data E sensor_data s in
  fst r = None
  ∧ handlers (snd r) = handlers s
  ∧ _active_log_handlers (snd r) = _active_log_handlers s
  ∧ length (new_status s (snd r)) = 1%nat
  ∧ length (new_delivered s (snd r)) = length (handlers s)
  ∧ ∀ h sensor_name data, (h, SensorLine sensor_name data) ∉ new_delivered s (snd r).
Proof.
  intros Hshort. destruct (check_disk_space_short s Hshort) as (rec & msg & Hc & Hrec).
  cbv zeta. unfold log_sensor_data. rewrite Hc. cbn [negb fst snd].
  unfold new_status, new_delivered.
  cbn [put log call handlers _active_log_handlers status_queue delivered].
  rewrite !drop_app_length. split_and!; try done.
  - by rewrite length_map.
  - intros h sensor_name data Hin. apply list_elem_of_fmap in Hin as (h' & Heq & _).
    injection Heq as _ Heq. by apply (Hrec sensor_name data).
Qed.

(** A step of the loop that finds the handler of the sensor in place. *)
Lemma get_sensor_logger_current (sensor_name : string) (s : t) (h : handler) :
  _active_log_handlers s !! sensor_name = Some h →
  abspath E (baseFilename h) = abspath E (log_file s sensor_name) →
  _get_sensor_logger E sensor_name s = (None, s).
Proof.
  intros Hh Hp. unfold _get_sensor_logger. rewrite Hh, Hp. by rewrite String.eqb_refl.
Qed.

Lemma lines_to_all_cons (s : t) (item : string * gmap string value)
    (items : list (string * gmap string value)) :
  lines_to_all s (item :: items)
  = (if default false (_log_settings_internal s !! fst item)
     then map (fun h => (h, SensorLine (fst item) (snd item))) (handlers s)
     else [])
    ++ lines_to_all s items.
Proof. reflexivity. Qed.

Lemma log_items_steady (items : list (string * gmap string value)) (s0 s : t) :
  handlers_current E items s0 →
  _log_path_internal s = _log_path_internal s0 →
  _log_settings_internal s = _log_settings_internal s0 →
  handlers s = handlers s0 →
  _active_log_handlers s = _active_log_handlers s0 →
  let r := log_items E items s in
  fst r = None
  ∧ handlers (snd r) = handlers s0
  ∧ _active_log_handlers (snd r) = _active_log_handlers s0
  ∧ status_queue (snd r) = status_queue s
  ∧ delivered (snd r) = delivered s ++ lines_to_all s0 items.
Proof.
  revert s. induction items as [|[sensor_name data] items IH]; intros s Hcur Hp Hs Hh Ha.
  { cbv zeta. simpl. split_and!; try done. by rewrite app_nil_r. }
  assert (Hcur' : handlers_current E items s0).
  { intros k d Hin Hk. apply (Hcur k d); [by apply list_elem_of_further | done]. }
  cbv zeta. cbn [log_items]. rewrite lines_to_all_cons. cbn [fst snd]. rewrite Hs.
  destruct (_log_settings_internal s0 !! sensor_name) as [[]|] eqn:Hen;
    unfold default, from_option, id; cbv beta iota.
  - edestruct Hcur as (h & Hact & Hpath); [apply list_elem_of_here | exact Hen |].
    rewrite (get_sensor_logger_current sensor_name s h).
    2:{ by rewrite Ha. }
    2:{ unfold log_file. by rewrite Hp. }
    cbv beta iota.
    destruct (IH (log (SensorLine sensor_name data) s) Hcur' Hp Hs Hh Ha)
      as (H1 & H2 & H3 & H4 & H5).
    split_and!; try done. rewrite H5. cbn [log delivered]. by rewrite Hh, <- app_assoc.
  - by apply IH.
  - by apply IH.
Qed.

(** X22: every log file gets the lines of every sensor.  All handlers hang
    on the one logger of the class, so once the handlers of the enabled
    sensors are in place and the disk check passes, [log_sensor_data] hands
    the line of each enabled sensor to every attached handler, not only to
    the handler of that sensor: the deliveries of a call are, item by item
    in the order of the dictionary, one line per attached handler.  The call
    returns normally, puts nothing on the status queue and keeps the
    handlers. *)
Theorem every_handler_gets_every_line
    (sensor_data : list (string * gmap string value)) (s : t) :
  disk_ok E s →
  handlers_current E sensor_data s →
  let r := log_sensor_data E sensor_data s in
  fst r = None
  ∧ handlers (snd r) = handlers s
  ∧ new_status s (snd r) = []
  ∧ new_delivered s (snd r) = lines_to_all s sensor_data.
Proof.
  intros Hok Hcur. cbv zeta. unfold log_sensor_data.
  rewrite (check_disk_space_ok s Hok). cbn [negb].
  destruct (log_items_steady sensor_data s (call (Makedirs (_log_path_internal s)) s)
              Hcur eq_refl eq_refl eq_refl eq_refl)
    as (H1 & H2 & _ & H4 & H5).
  unfold new_status, new_delivered. rewrite H4, H5.
  cbn [call status_queue delivered]. rewrite drop_all, drop_app_length.
  by split_and!.
Qed.

(** *** Closing the handlers *)

Lemma filter_kept_cons (h : handler) (hs l : list handler) :
  List.filter (kept hs) (List.filter (fun h' => negb (hid h' =? hid h)%nat) l)
  = List.filter (kept (h :: hs)) l.
Proof.
  induction l as [|x l IH]; simpl; [done|].
  destruct (hid x =? hid h)%nat; simpl; [done|]. by rewrite IH.
Qed.

Lemma filter_kept_self (l : list handler) : List.filter (kept l) l = [].
Proof.
  assert (H : ∀ hs, Forall (fun h => h ∈ hs) l → List.filter (kept hs) l = []).
  { induction l as [|x l IH]; intros hs Hall; simpl; [done|].
    inversion Hall as [|? ? Hx Hl]; subst.
    assert (kept hs x = false) as ->; [|by apply IH].
    apply not_true_is_false. intros Hk. unfold kept in Hk.
    rewrite forallb_forall in Hk. specialize (Hk x ltac:(by apply list_elem_of_In)).
    by rewrite Nat.eqb_refl in Hk. }
  apply H, Forall_forall. by intros.
Qed.

Lemma filter_kept_nil (l : list handler) : List.filter (kept []) l = l.
Proof. induction l as [|x l IH]; simpl; [done|]. by rewrite IH. Qed.

Lemma same_but_handlers_refl (s : t) : same_but_handlers s s.
Proof. by repeat split. Qed.

Lemma same_but_handlers_trans (s1 s2 s3 : t) :
  same_but_handlers s1 s2 → same_but_handlers s2 s3 → same_but_handlers s1 s3.
Proof.
  intros (A1 & A2 & A3 & A4 & A5 & A6 & A7 & A8) (B1 & B2 & B3 & B4 & B5 & B6 & B7 & B8).
  repeat split; congruence.
Qed.

(** The loop of [_setup_logger]: it ends with the exception of a [close],
    or with all of [hs] removed and closed. *)
Lemma remove_and_close_spec (hs : list handler) (s : t) :
  let r := remove_and_close E hs s in
  same_but_handlers s (snd r)
  ∧ _active_log_handlers (snd r) = _active_log_handlers s
  ∧ match fst r with
    | None => handlers (snd r) = List.filter (kept hs) (handlers s)
              ∧ closed (snd r) = closed s ++ hs
    | Some e => ∃ n, close E n = Some e
    end.
Proof.
  revert s. induction hs as [|h hs IH]; intros s; cbv zeta; simpl.
  { split_and!; try done. by rewrite filter_kept_nil. by rewrite app_nil_r. }
  destruct (close E (length (closed s))) as [e|] eqn:Hc; cbn [fst snd].
  { split_and!; try done. by exists (length (closed s)). }
  match goal with |- context [remove_and_close E hs ?s'] =>
    specialize (IH s'); destruct (remove_and_close E hs s') as [r s1] end.
  cbv zeta in IH. cbn [fst snd] in *. destruct IH as (H1 & H2 & H3).
  split_and!; try done.
  destruct r as [e|]; [done|]. destruct H3 as [H3 H4]. cbn in H3, H4. split.
  - by rewrite H3, filter_kept_cons.
  - by rewrite H4, <- app_assoc.
Qed.

(** The loop of [archive_logs]. *)
Lemma close_and_remove_spec (hs : list handler) (s : t) :
  let r := close_and_remove E hs s in
  same_but_handlers s (snd r)
  ∧ _active_log_handlers (snd r) = _active_log_handlers s
  ∧ match fst r with
    | None => handlers (snd r) = List.filter (kept hs) (handlers s)
              ∧ closed (snd r) = closed s ++ hs
    | Some e => ∃ n, close E n = Some e
    end.
Proof.
  revert s. induction hs as [|h hs IH]; intros s; cbv zeta; simpl.
  { split_and!; try done. by rewrite filter_kept_nil. by rewrite app_nil_r. }
  destruct (close E (length (closed s))) as [e|] eqn:Hc; cbn [fst snd].
  { split_and!; try done. by exists (length (closed s)). }
  match goal with |- context [close_and_remove E hs ?s'] =>
    specialize (IH s'); destruct (close_and_remove E hs s') as [r s1] end.
  cbv zeta in IH. cbn [fst snd] in *. destruct IH as (H1 & H2 & H3).
  split_and!; try done.
  destruct r as [e|]; [done|]. destruct H3 as [H3 H4]. cbn in H3, H4. split.
  - by rewrite H3, filter_kept_cons.
  - by rewrite H4, <- app_assoc.
Qed.

Lemma setup_logger_spec (s : t) :
  let r := _setup_logger E s in
  same_but_handlers s (snd r)
  ∧ match fst r with
    | None => handlers (snd r) = [] ∧ _active_log_handlers (snd r) = ∅
              ∧ closed (snd r) = closed s ++ handlers s
    | Some e => ∃ n, close E n = Some e
    end.
Proof.
  cbv zeta. unfold _setup_logger.
  pose proof (remove_and_close_spec (handlers s) s) as H. cbv zeta in H.
  destruct (remove_and_close E (handlers s) s) as [[e|] s1]; cbn [fst snd] in *.
  - by destruct H as (H1 & H2 & H3).
  - destruct H as (H1 & H2 & H3 & H4). cbn [set_active handlers closed _active_log_handlers].
    split_and!; try done. by rewrite H3, filter_kept_self.
Qed.

End DataLoggerTkFacts.

Section DataLoggerTkPathFacts.
Import DataLoggerTk.

Variable E : env.

Lemma Forall_filter_keeps {A : Type} (P : A → Prop) (f : A → bool) (l : list A) :
  Forall P l → Forall P (List.filter f l).
Proof.
  intros H. apply Forall_forall. intros x Hx.
  apply list_elem_of_In, filter_In in Hx as [Hx _].
  rewrite Forall_forall in H. by apply H, list_elem_of_In.
Qed.

(** The handlers stay on the files of the log path through one call of
    [_get_sensor_logger]. *)
Lemma get_sensor_logger_on_path (sensor_name : string) (s : t) :
  _log_settings_internal s !! sensor_name = Some true →
  Forall (on_log_path E (_log_path_internal s) (_log_settings_internal s)) (handlers s) →
  let r := _get_sensor_logger E sensor_name s in
  _log_path_internal (snd r) = _log_path_internal s
  ∧ _log_settings_internal (snd r) = _log_settings_internal s
  ∧ delivered (snd r) = delivered s
  ∧ Forall (on_log_path E (_log_path_internal s) (_log_settings_internal s))
      (handlers (snd r)).
Proof.
  intros Hen Hall. cbv zeta. unfold _get_sensor_logger.
  assert (Hnew : ∀ n, on_log_path E (_log_path_internal s) (_log_settings_internal s)
                        (mk_handler n (abspath E (log_file s sensor_name)))).
  { intros n. by exists sensor_name. }
  destruct (_active_log_handlers s !! sensor_name) as [existing|].
  - destruct (String.eqb _ _); [done|].
    cbn [close_handler removeHandler set_handlers handlers closed].
    destruct (close E (length (closed s))); cbn [fst snd].
    { split_and!; try done. by apply Forall_filter_keeps. }
    unfold log_file. cbn [set_active _log_path_internal].
    fold (log_file s sensor_name).
    destruct (RotatingFileHandler E _); cbn [fst snd add_handler set_active
      _log_path_internal _log_settings_internal delivered handlers next_hid].
    + split_and!; try done. by apply Forall_filter_keeps.
    + split_and!; try done. apply Forall_app. split; [|by apply Forall_singleton].
      by apply Forall_filter_keeps.
  - destruct (RotatingFileHandler E _); cbn [fst snd add_handler
      _log_path_internal _log_settings_internal delivered handlers]; [done|].
    split_and!; try done. apply Forall_app. split; [done|by apply Forall_singleton].
Qed.

Lemma log_items_on_path (items : list (string * gmap string value)) (p : string)
    (settings : gmap string bool) (s : t) :
  _log_path_internal s = p →
  _log_settings_internal s = settings →
  Forall (on_log_path E p settings) (handlers s) →
  ∃ l, delivered (snd (log_items E items s)) = delivered s ++ l
       ∧ Forall (fun d => on_log_path E p settings (fst d)) l.
Proof.
  revert s. induction items as [|[sensor_name data] items IH]; intros s Hp Hs Hall.
  { exists []. simpl. by rewrite app_nil_r. }
  cbn [log_items].
  destruct (_log_settings_internal s !! sensor_name) as [[]|] eqn:Hen;
    unfold default, from_option, id; cbv beta iota; [|by apply IH..].
  subst p settings.
  destruct (get_sensor_logger_on_path sensor_name s Hen Hall) as (H1 & H2 & H3 & H4).
  destruct (_get_sensor_logger E sensor_name s) as [[e|] s']; cbn [fst snd] in *.
  { exists []. split; [by rewrite H3, app_nil_r|done]. }
  destruct (IH (log (SensorLine sensor_name data) s') H1 H2 H4) as (l & Hl & Hfl).
  exists (map (fun h => (h, SensorLine sensor_name data)) (handlers s') ++ l).
  split.
  - rewrite Hl. cbn [log delivered]. by rewrite H3, <- app_assoc.
  - apply Forall_app. split; [|done]. by apply Forall_fmap.
Qed.

Lemma log_sensor_data_on_path (sensor_data : list (string * gmap string value))
    (s : t) :
  Forall (on_log_path E (_log_path_internal s) (_log_settings_internal s)) (handlers s) →
  Forall (fun d => on_log_path E (_log_path_internal s) (_log_settings_internal s) (fst d))
    (new_delivered s (snd (log_sensor_data E sensor_data s))).
Proof.
  intros Hall. unfold log_sensor_data, new_delivered.
  assert (Hfail : ∀ m c r c',
    Forall (fun d => on_log_path E (_log_path_internal s) (_log_settings_internal s) (fst d))
      (drop (length (delivered s)) (delivered (put m c (log r (call c' s)))))).
  { intros m c r c'. cbn [put log call delivered handlers]. rewrite drop_app_length.
    by apply Forall_fmap. }
  unfold _check_disk_space. cbn [call _log_path_internal].
  destruct (makedirs E _); [apply Hfail|].
  destruct (disk_usage E _) as [e|free]; [apply Hfail|].
  destruct (free <? _); [apply Hfail|]. cbn [negb].
  destruct (log_items_on_path sensor_data _ _
              (call (Makedirs (_log_path_internal s)) s) eq_refl eq_refl Hall)
    as (l & Hl & Hfl).
  rewrite Hl. cbn [call delivered]. by rewrite drop_app_length.
Qed.

(** X23: after [update_config] nothing goes to the files of the old log
    path.  When the update returns normally it has removed every handler
    from the logger and closed it, forgotten the handlers of the sensors and
    put four status messages on the queue; its own record ("configuration
    updated") is handed to the logger when no handler is attached any more,
    so it reaches no file.  In the next [log_sensor_data], whatever the disk
    and the file system answer, every record goes to a handler on the file of
    a sensor that the new settings enable, under the new log path. *)
Theorem update_config_moves_logging_to_new_path
    (new_log_path new_archive_path : string) (new_archive_enabled : bool)
    (new_log_settings : gmap string bool)
    (sensor_data : list (string * gmap string value)) (s : t) :
  let r := update_config E new_log_path new_archive_path new_archive_enabled
             new_log_settings s in
  fst r = None →
  handlers (snd r) = []
  ∧ _active_log_handlers (snd r) = ∅
  ∧ closed (snd r) = closed s ++ handlers s
  ∧ new_delivered s (snd r) = []
  ∧ length (new_status s (snd r)) = 4%nat
  ∧ Forall (fun d => on_log_path E new_log_path new_log_settings (fst d))
      (new_delivered (snd r) (snd (log_sensor_data E sensor_data (snd r)))).
Proof.
  cbv zeta. unfold update_config.
  match goal with |- context [_setup_logger E ?s'] =>
    pose proof (setup_logger_spec E s') as Hs;
    destruct (_setup_logger E s') as [[e|] s1] end; [done|].
  cbv zeta in Hs. cbn [fst snd] in Hs. intros _. cbn [fst snd].
  destruct Hs as ((Hp & _ & _ & Hst & _ & Hq & Hd & _) & Hh & Ha & Hc).
  cbn in Hp, Hst, Hq, Hd, Hc.
  assert (Hlog : ∀ r s', handlers s' = [] → delivered (log r s') = delivered s').
  { intros r s' H. cbn [log delivered]. by rewrite H, app_nil_r. }
  split_and!; try done.
  - unfold new_delivered. cbn [log put delivered handlers]. rewrite Hh, Hd. simpl.
    by rewrite app_nil_r, drop_all.
  - unfold new_status. cbn [log put status_queue]. rewrite Hq.
    by rewrite <- !app_assoc, drop_app_length.
  - match goal with |- context [log_sensor_data E sensor_data ?s'] =>
      pose proof (log_sensor_data_on_path sensor_data s') as Hon end.
    cbn [log put _log_path_internal _log_settings_internal handlers] in Hon.
    rewrite Hp, Hst, Hh in Hon. by apply Hon.
Qed.

(** *** [archive_logs] *)

Lemma setup_logger_no_handlers (s : t) :
  handlers s = [] → _setup_logger E s = (None, set_active ∅ s).
Proof. intros H. unfold _setup_logger. by rewrite H. Qed.

(** The clean-up loop, once no handler is attached: it tries to remove the
    old log files of the listing, one after the other, whether the removals
    succeed or not, and changes nothing else. *)
Lemma delete_old_logs_spec (current_log_path : string) (filenames : list string)
    (s : t) :
  handlers s = [] →
  delete_old_logs E current_log_path filenames s
  = mk (_log_path_internal s) (_archive_path_internal s) (_archive_enabled_internal s)
       (_log_settings_internal s) [] (_active_log_handlers s) (last_archive_time s)
       (closed s) (status_queue s) (delivered s)
       (fs s ++ old_logs E current_log_path filenames) (next_hid s).
Proof.
  revert s. induction filenames as [|filename filenames IH]; intros s Hs.
  { destruct s; simpl in *; subst. unfold old_logs. simpl. by rewrite app_nil_r. }
  cbn [delete_old_logs]. unfold old_logs. cbn [List.filter].
  destruct (isfile E _ && is_log_file filename); [|by apply IH].
  destruct (remove E _); rewrite IH by done;
    destruct s; simpl in *; subst; simpl; unfold old_logs;
    by rewrite app_nil_r, <- app_assoc.
Qed.

(** The closing loop of [archive_logs] when no [close] raises. *)
Lemma close_and_remove_closes (hs : list handler) (s : t) :
  (∀ n, close E n = None) →
  close_and_remove E hs s
  = (None,
     mk (_log_path_internal s) (_archive_path_internal s) (_archive_enabled_internal s)
        (_log_settings_internal s) (List.filter (kept hs) (handlers s))
        (_active_log_handlers s) (last_archive_time s) (closed s ++ hs)
        (status_queue s) (delivered s) (fs s) (next_hid s)).
Proof.
  intros Hclose. revert s. induction hs as [|h hs IH]; intros s.
  { destruct s; simpl. by rewrite filter_kept_nil, app_nil_r. }
  cbn [close_and_remove close_handler]. rewrite Hclose, IH.
  destruct s; simpl. by rewrite filter_kept_cons, <- app_assoc.
Qed.

Lemma archive_into_spec (s : t) :
  (∀ n, close E n = None) →
  let r := archive_into E s in
  fst r = None
  ∧ handlers (snd r) = []
  ∧ _active_log_handlers (snd r) = ∅
  ∧ closed (snd r) = closed s ++ handlers s
  ∧ delivered (snd r)
    = delivered s
      ++ map (fun h => (h, Note "INFO" "Closing all log handlers before archiving."))
           (handlers s)
  ∧ last_archive_time (snd r)
    = (if archived E s then now E else last_archive_time s)
  ∧ fs (snd r)
    = fs s ++ [ MakeArchive (archive_full_path E s) (_log_path_internal s) ]
      ++ match make_archive E (archive_full_path E s) (_log_path_internal s),
               listdir E (_log_path_internal s) with
         | None, inr filenames => old_logs E (_log_path_internal s) filenames
         | _, _ => []
         end.
Proof.
  intros Hclose. cbv zeta. unfold archive_into, archive_body, archived.
  fold (archive_full_path E s).
  rewrite close_and_remove_closes by done.
  cbn [note log call put set_active handlers delivered _log_path_internal].
  rewrite filter_kept_self.
  destruct (make_archive E (archive_full_path E s) (_log_path_internal s)) as [e|].
  { rewrite setup_logger_no_handlers by done. simpl.
    rewrite !app_nil_r. by split_and!. }
  cbn [note log call put set_active handlers delivered _log_path_internal].
  destruct (listdir E (_log_path_internal s)) as [e|filenames].
  { rewrite setup_logger_no_handlers by done. simpl.
    rewrite !app_nil_r. by split_and!. }
  rewrite delete_old_logs_spec by done.
  rewrite setup_logger_no_handlers by done. simpl.
  rewrite !app_nil_r, <- !app_assoc. by split_and!.
Qed.

(** X26: [archive_logs] leaves no handler behind.  When the archive gets
    as far as its [try] and no [close] of a handler raises, the call returns
    normally whether making the archive and listing the log directory work
    or not: every handler has been closed and removed from the logger and
    the handlers of the sensors are forgotten.  The handlers have received
    the records up to "Closing all log handlers before archiving." and
    nothing after it: what the method reports about the archive and the
    clean-up reaches no log file.  [last_archive_time] is reset exactly when
    the archive was made and the log directory could be listed. *)
Theorem archive_logs_detaches_every_handler (s : t) :
  archive_starts E s →
  (∀ n, close E n = None) →
  let r := archive_logs E s in
  fst r = None
  ∧ handlers (snd r) = []
  ∧ _active_log_handlers (snd r) = ∅
  ∧ closed (snd r) = closed s ++ handlers s
  ∧ new_delivered s (snd r)
    = flat_map (fun rec => map (fun h => (h, rec)) (handlers s)) (archive_notes E s)
  ∧ last_archive_time (snd r)
    = (if archived E s then now E else last_archive_time s).
Proof.
  intros (Hen & Hlog & Harch) Hclose. cbv zeta. unfold archive_logs, new_delivered.
  rewrite Hen, Hlog. cbn [negb]. unfold archive_notes.
  destruct (path_exists E (_archive_path_internal s)) eqn:Hex; cbn [negb].
  - match goal with |- context [archive_into E ?s'] =>
      destruct (archive_into_spec s' Hclose) as (H1 & H2 & H3 & H4 & H5 & H6 & _) end.
    cbn [note log put handlers closed delivered last_archive_time] in H4, H5, H6.
    rewrite H5. split_and!; try done. simpl.
    by rewrite <- !app_assoc, drop_app_length, app_nil_r.
  - destruct Harch as [Harch|Harch]; [congruence|].
    cbn [call _archive_path_internal]. rewrite Harch.
    match goal with |- context [archive_into E ?s'] =>
      destruct (archive_into_spec s' Hclose) as (H1 & H2 & H3 & H4 & H5 & H6 & _) end.
    cbn [note log put call handlers closed delivered last_archive_time] in H4, H5, H6.
    rewrite H5. split_and!; try done. simpl.
    by rewrite <- !app_assoc, drop_app_length, app_nil_r.
Qed.

(** X27: the clean-up of [archive_logs] goes through the whole listing.
    When the archive gets as far as its [try] and no [close] raises, the
    calls that change the file system are: making the archive directory when
    it is missing, making the archive, and, when that worked and the log
    directory can be listed, one [os.remove] for each regular file of the
    listing whose name ends in [.log] or starts like a rotated log of the four
    sensors, in the order of the listing.  A file that cannot be removed does
    not keep the later ones from being removed, and no other file is
    touched. *)
Theorem archive_logs_removes_the_old_logs (s : t) :
  archive_starts E s →
  (∀ n, close E n = None) →
  new_fs s (snd (archive_logs E s)) = archive_calls E s.
Proof.
  intros (Hen & Hlog & Harch) Hclose. unfold archive_logs, new_fs, archive_calls.
  rewrite Hen, Hlog. cbn [negb].
  destruct (path_exists E (_archive_path_internal s)) eqn:Hex; cbn [negb].
  - match goal with |- context [archive_into E ?s'] =>
      destruct (archive_into_spec s' Hclose) as (_ & _ & _ & _ & _ & _ & H7) end.
    cbn [note log put fs _log_path_internal] in H7. rewrite H7.
    by rewrite drop_app_length.
  - destruct Harch as [Harch|Harch]; [congruence|].
    cbn [call _archive_path_internal]. rewrite Harch.
    match goal with |- context [archive_into E ?s'] =>
      destruct (archive_into_spec s' Hclose) as (_ & _ & _ & _ & _ & _ & H7) end.
    cbn [note log put call fs _log_path_internal] in H7. rewrite H7.
    by rewrite <- app_assoc, drop_app_length.
Qed.

(** [_get_sensor_logger] raises what a [close] or the constructor of a
    handler raises. *)
Lemma get_sensor_logger_raises (sensor_name : string) (s : t) (e : exn) :
  fst (_get_sensor_logger E sensor_name s) = Some e →
  (∃ n, close E n = Some e) ∨ (∃ path, RotatingFileHandler E path = Some e).
Proof.
  unfold _get_sensor_logger.
  destruct (_active_log_handlers s !! sensor_name) as [existing|].
  - destruct (String.eqb _ _); [done|]. cbn [close_handler].
    destruct (close E (length _)) as [e'|] eqn:Hc; cbn [fst].
    { intros [= ->]. left. by eexists. }
    destruct (RotatingFileHandler E _) as [e'|] eqn:Hr; [|done].
    intros [= ->]. right. by eexists.
  - destruct (RotatingFileHandler E _) as [e'|] eqn:Hr; [|done].
    intros [= ->]. right. by eexists.
Qed.

Lemma log_items_raises (items : list (string * gmap string value)) (s : t) (e : exn) :
  fst (log_items E items s) = Some e →
  (∃ n, close E n = Some e) ∨ (∃ path, RotatingFileHandler E path = Some e).
Proof.
  revert s. induction items as [|[sensor_name data] items IH]; intros s; [done|].
  cbn [log_items]. destruct (default false _); [|by apply IH].
  pose proof (get_sensor_logger_raises sensor_name s) as Hg.
  destruct (_get_sensor_logger E sensor_name s) as [[e'|] s']; [|by apply IH].
  intros [= ->]. by apply Hg.
Qed.

(** X28: the exceptions that can leave the logger.  [archive_logs] and
    [update_config] raise only what a [close] of a handler raises, and
    [log_sensor_data] only that or what the constructor of a handler raises:
    a failure of [os.makedirs], [shutil.disk_usage], [shutil.make_archive],
    [os.listdir] or [os.remove] never leaves these methods. *)
Theorem only_handler_errors_leave_the_logger (s : t) (e : exn) :
  (fst (archive_logs E s) = Some e → ∃ n, close E n = Some e)
  ∧ (∀ new_log_path new_archive_path new_archive_enabled new_log_settings,
       fst (update_config E new_log_path new_archive_path new_archive_enabled
              new_log_settings s) = Some e →
       ∃ n, close E n = Some e)
  ∧ (∀ sensor_data,
       fst (log_sensor_data E sensor_data s) = Some e →
       (∃ n, close E n = Some e) ∨ (∃ path, RotatingFileHandler E path = Some e)).
Proof.
  assert (Hinto : ∀ s', fst (archive_into E s') = Some e → ∃ n, close E n = Some e).
  { intros s'. unfold archive_into.
    destruct (archive_body E _ s') as [[e'|] s1]; [|done].
    match goal with |- context [_setup_logger E ?s2] =>
      destruct (setup_logger_spec E s2) as [_ Hs];
      destruct (_setup_logger E s2) as [[e2|] s3] end; [|done].
    cbn [fst] in *. by intros [= ->]. }
  split_and!.
  - unfold archive_logs. destruct (negb (_archive_enabled_internal s)); [done|].
    destruct (negb (path_exists E (_log_path_internal s))); [done|].
    destruct (negb (path_exists E (_archive_path_internal s))); [|by apply Hinto].
    cbn [call _archive_path_internal].
    destruct (makedirs E (_archive_path_internal s)); [done|by apply Hinto].
  - intros p a en st. unfold update_config.
    match goal with |- context [_setup_logger E ?s2] =>
      destruct (setup_logger_spec E s2) as [_ Hs];
      destruct (_setup_logger E s2) as [[e2|] s3] end; [|done].
    cbn [fst] in *. by intros [= ->].
  - intros sensor_data. unfold log_sensor_data.
    destruct (_check_disk_space E s) as [[] s1]; cbn [negb]; [|done].
    by apply log_items_raises.
Qed.

End DataLoggerTkPathFacts.

Section DataLoggerTkExamples.
Import DataLoggerTk.

Lemma full_disk_is_short : disk_short full_disk sample_logger.
Proof. right. right. exists (1024 * 1024). split; [reflexivity|lia]. Qed.

Lemma roomy_disk_is_ok : disk_ok roomy_disk sample_logger.
Proof. split; [reflexivity|]. exists (1024 * 1024 * 1024). split; [reflexivity|lia]. Qed.

Lemma sample_handlers_current : handlers_current roomy_disk sample_items sample_logger.
Proof.
  intros k d Hin Hen.
  repeat (apply elem_of_cons in Hin as [Hin|Hin]); try by apply elem_of_nil in Hin.
  - injection Hin as -> ->. by exists bme_handler.
  - injection Hin as -> ->. by exists sgp_handler.
  - injection Hin as -> ->. vm_compute in Hen. discriminate.
Qed.

Lemma roomy_disk_archive_starts : archive_starts roomy_disk sample_logger.
Proof. split_and!; try reflexivity. by left. Qed.

Lemma roomy_disk_closes (n : nat) : close roomy_disk n = None.
Proof. reflexivity. Qed.

Lemma low_disk_space_logs_nothing_witness :
  disk_short full_disk sample_logger
  ∧ new_delivered sample_logger
      (snd (log_sensor_data full_disk sample_items sample_logger))
    = [ (bme_handler, LowDiskSpace (1024 * 1024) "/logs");
        (sgp_handler, LowDiskSpace (1024 * 1024) "/logs") ]
  ∧ ∀ h sensor_name data,
      (h, SensorLine sensor_name data)
      ∉ new_delivered sample_logger
          (snd (log_sensor_data full_disk sample_items sample_logger)).
Proof.
  split; [exact full_disk_is_short|]. split; [reflexivity|].
  by destruct (low_disk_space_logs_nothing full_disk sample_items sample_logger
                 full_disk_is_short) as (_ & _ & _ & _ & _ & H).
Defined.

Lemma every_handler_gets_every_line_witness :
  disk_ok roomy_disk sample_logger
  ∧ handlers_current roomy_disk sample_items sample_logger
  ∧ new_delivered sample_logger
      (snd (log_sensor_data roomy_disk sample_items sample_logger))
    = [ (bme_handler, SensorLine "bme280" {[ "temp_c" := Num 21 ]});
        (sgp_handler, SensorLine "bme280" {[ "temp_c" := Num 21 ]});
        (bme_handler, SensorLine "sgp40" {[ "voc_index" := Num 100 ]});
        (sgp_handler, SensorLine "sgp40" {[ "voc_index" := Num 100 ]}) ].
Proof.
  split; [exact roomy_disk_is_ok|]. split; [exact sample_handlers_current|].
  destruct (every_handler_gets_every_line roomy_disk sample_items sample_logger
              roomy_disk_is_ok sample_handlers_current) as (_ & _ & _ & ->).
  reflexivity.
Defined.

Lemma update_config_moves_logging_to_new_path_witness :
  let r := update_config roomy_disk "/data" "/archive" true sample_settings
             sample_logger in
  fst r = None
  ∧ closed (snd r) = [ bme_handler; sgp_handler ]
  ∧ map (fun d => baseFilename (fst d))
      (new_delivered (snd r) (snd (log_sensor_data roomy_disk sample_items (snd r))))
    = [ "/data/bme280.log"; "/data/bme280.log"; "/data/sgp40.log" ]
  ∧ Forall (fun d => on_log_path roomy_disk "/data" sample_settings (fst d))
      (new_delivered (snd r) (snd (log_sensor_data roomy_disk sample_items (snd r)))).
Proof.
  cbv zeta. split; [reflexivity|]. split; [reflexivity|]. split; [reflexivity|].
  by destruct (update_config_moves_logging_to_new_path roomy_disk "/data" "/archive"
                 true sample_settings sample_items sample_logger eq_refl)
    as (_ & _ & _ & _ & _ & H).
Defined.

Lemma archive_logs_detaches_every_handler_witness :
  archive_starts roomy_disk sample_logger
  ∧ (∀ n, close roomy_disk n = None)
  ∧ fst (archive_logs roomy_disk sample_logger) = None
  ∧ handlers (snd (archive_logs roomy_disk sample_logger)) = []
  ∧ closed (snd (archive_logs roomy_disk sample_logger)) = [ bme_handler; sgp_handler ]
  ∧ last_archive_time (snd (archive_logs roomy_disk sample_logger)) = 1000.
Proof.
  split; [exact roomy_disk_archive_starts|]. split; [exact roomy_disk_closes|].
  destruct (archive_logs_detaches_every_handler roomy_disk sample_logger
              roomy_disk_archive_starts roomy_disk_closes)
    as (H1 & H2 & _ & H4 & _ & H6).
  split; [exact H1|]. split; [exact H2|]. split; [exact H4|exact H6].
Defined.

Lemma archive_logs_removes_the_old_logs_witness :
  archive_starts roomy_disk sample_logger
  ∧ (∀ n, close roomy_disk n = None)
  ∧ new_fs sample_logger (snd (archive_logs roomy_disk sample_logger))
    = [ MakeArchive "/archive/sensor_logs_archive_20250101_080000" "/logs";
        Remove "/logs/bme280.log"; Remove "/logs/bme280.log.1";
        Remove "/logs/sgp40.log" ].
Proof.
  split; [exact roomy_disk_archive_starts|]. split; [exact roomy_disk_closes|].
  rewrite (archive_logs_removes_the_old_logs roomy_disk sample_logger
             roomy_disk_archive_starts roomy_disk_closes).
  reflexivity.
Defined.

Lemma only_handler_errors_leave_the_logger_witness :
  fst (archive_logs failing_close sample_logger)
  = Some (OSError "No space left on device")
  ∧ ∃ n, close failing_close n = Some (OSError "No space left on device").
Proof.
  split; [reflexivity|].
  by apply (proj1 (only_handler_errors_leave_the_logger failing_close sample_logger _)).
Defined.

End DataLoggerTkExamples.

(** ** The sensor thread of the Qt application *)

Section SensorReaderThreadFacts.
Import SensorReaderThread.

Variable E : env.

Lemma ends_at_log_settings_app (r : result) (l1 l2 : list event) :
  Forall plain l1 → ends_at_log_settings r l2 → ends_at_log_settings r (l1 ++ l2).
Proof.
  intros H1 H2. destruct r as [|[c a|e]|]; simpl in *; try by apply Forall_app.
  destruct H2 as (-> & -> & pre & e & -> & He & Hpre).
  split_and!; try done. exists (l1 ++ pre), e. rewrite app_assoc.
  split_and!; try done. by apply Forall_app.
Qed.

Lemma ends_at_log_settings_cons (r : result) (e : event) (l : list event) :
  plain e → ends_at_log_settings r l → ends_at_log_settings r (e :: l).
Proof.
  intros He Hl. apply (ends_at_log_settings_app r [ e ] l); [|done].
  by apply Forall_singleton.
Qed.

Lemma plain_status (message color : string) :
  message ≠ "Sensor thread stopped." → plain (Status message color).
Proof. intros Hm. split_and!; try done. intros [= H _]. by apply Hm. Qed.

Lemma process_ends_at_log_settings (m : control_message) (st : state) :
  let '(r, evs, _) := _process_control_message E m st in
  ends_at_log_settings r (Get (Some m) :: evs)
  ∧ (r = Done → is_log_settings (Get (Some m)) = false).
Proof.
  destruct m; simpl.
  - split; [|done]. split_and!; try done. by eexists [], _.
  - destruct (logger_raises E _); (split; [|done]); repeat constructor; done.
  - destruct (_ <=? _); (split; [|done]); repeat constructor; done.
  - split; [|done]. repeat constructor; done.
  - split; [|done]. repeat constructor; done.
  - split; [|done]. repeat constructor; done.
Qed.

Lemma drain_ends_at_log_settings (fuel : nat) (st : state) :
  let '(r, evs, _) := drain fuel E st in ends_at_log_settings r evs.
Proof.
  revert st. induction fuel as [|fuel IH]; intros st; simpl; [done|].
  destruct (get E (n_gets st)) as [m|]; [|by repeat constructor].
  pose proof (process_ends_at_log_settings m
    (mk_state (read_interval st) (next_read_time st) (_is_running st) (n_checks st)
       (n_times st) (S (n_gets st)) (n_calls st))) as Hp.
  destruct (_process_control_message E m _) as [[r evs] st1].
  destruct Hp as [Hp Hm]. destruct r as [|e|]; try done.
  specialize (IH st1). destruct (drain fuel E st1) as [[r' evs'] st2].
  change (Get (Some m) :: evs ++ evs') with ((Get (Some m) :: evs) ++ evs').
  by apply ends_at_log_settings_app.
Qed.

Lemma read_when_due_plain (st : state) :
  let '(_, evs, _) := read_when_due E st in Forall plain evs.
Proof.
  unfold read_when_due. simpl. destruct (ge _ _); [|done].
  destruct (logger_raises E (n_calls st)); [by repeat constructor|].
  destruct (logger_raises E (S (n_calls st))); by repeat constructor.
Qed.

Lemma read_when_due_result (st : state) :
  let '(r, _, _) := read_when_due E st in
  r = Done ∨ ∃ e, r = Raise (LoggerError e).
Proof.
  unfold read_when_due. simpl. destruct (ge _ _); [|by left].
  destruct (logger_raises E (n_calls st)); [right; by eexists|].
  destruct (logger_raises E (S (n_calls st))); [right; by eexists|by left].
Qed.

Lemma sleep_loop_plain (fuel : nat) (time_to_wait : Q) (st : state) :
  let '(r, evs, _) := sleep_loop fuel E time_to_wait st in
  Forall plain evs ∧ (r = Done ∨ r = OutOfFuel).
Proof.
  revert time_to_wait st. induction fuel as [|fuel IH]; intros w st; simpl; [by split; [|right]|].
  destruct (gt w 0); [|by split; [|left]].
  destruct (_is_running st && negb (stop_called E (n_checks st))).
  - match goal with |- context [sleep_loop fuel E ?w' ?s'] =>
      specialize (IH w' s'); destruct (sleep_loop fuel E w' s') as [[r evs] st1] end.
    destruct IH as [IH Hr]. split; [|done]. by repeat constructor.
  - split; [|by left]. by repeat constructor.
Qed.

Lemma main_loop_ends_at_log_settings (fuel : nat) (st : state) :
  let '(r, evs, _) := main_loop fuel E st in ends_at_log_settings r evs.
Proof.
  revert st. induction fuel as [|fuel IH]; intros st; simpl; [done|].
  destruct (_is_running st && negb (stop_called E (n_checks st)));
    [|by repeat constructor].
  match goal with |- context [drain fuel E ?s'] =>
    pose proof (drain_ends_at_log_settings fuel s') as Hd;
    destruct (drain fuel E s') as [[r1 evs1] st1] end.
  assert (Hrun : plain (IsRunning true)) by done.
  destruct r1 as [|e1|]; try by apply ends_at_log_settings_cons.
  pose proof (read_when_due_plain st1) as Hr.
  pose proof (read_when_due_result st1) as Hres.
  destruct (read_when_due E st1) as [[r2 evs2] st2].
  assert (H12 : Forall plain (IsRunning true :: evs1 ++ evs2)).
  { constructor; [done|]. by apply Forall_app. }
  destruct r2 as [|e2|].
  2:{ destruct Hres as [|[e ->]]; done. }
  2:{ by destruct Hres as [|[e ?]]. }
  cbn [now fst snd].
  match goal with |- context [sleep_loop fuel E ?w' ?s'] =>
    pose proof (sleep_loop_plain fuel w' s') as Hs;
    destruct (sleep_loop fuel E w' s') as [[r3 evs3] st3] end.
  destruct Hs as [Hs Hr3].
  assert (H123 : Forall plain (IsRunning true :: evs1 ++ evs2 ++ evs3)).
  { constructor; [done|]. rewrite !Forall_app. by split_and!. }
  destruct r3 as [|e3|]; try by destruct Hr3.
  specialize (IH st3). destruct (main_loop fuel E st3) as [[r4 evs4] st4].
  change (IsRunning true :: evs1 ++ evs2 ++ evs3 ++ evs4)
    with ((IsRunning true :: evs1) ++ evs2 ++ evs3 ++ evs4).
  apply ends_at_log_settings_app; [by constructor|].
  apply ends_at_log_settings_app; [done|].
  by apply ends_at_log_settings_app.
Qed.

Lemma plain_not_taken (tr : list event) : Forall plain tr → ¬ takes_log_settings tr.
Proof.
  intros Hall (e & Hin & He). rewrite Forall_forall in Hall.
  destruct (Hall e Hin) as [Hp _]. congruence.
Qed.

(** X24: a request to update the log settings ends the sensor thread.  The
    thread passes the request to [data_logger.update_config], which the
    logger of this application does not have.  So whenever [run] takes such a
    request off the control queue it ends there with the [AttributeError]:
    the request is the last event of the thread, nothing was taken like it
    before, and the thread neither announces that it stopped nor quits. *)
Theorem update_log_settings_ends_the_thread (fuel : nat) (initial_read_interval : Z) :
  let r := run fuel E initial_read_interval in
  takes_log_settings (snd r) →
  fst r = Raise (AttributeError "DataLogger" "update_config")
  ∧ (∃ pre e, snd r = pre ++ [ e ] ∧ is_log_settings e = true
              ∧ ¬ takes_log_settings pre)
  ∧ (thread_stopped ∉ snd r)
  ∧ (Quit ∉ snd r).
Proof.
  cbv zeta. unfold run. cbn [now].
  match goal with |- context [main_loop fuel E ?s'] =>
    pose proof (main_loop_ends_at_log_settings fuel s') as Hm;
    destruct (main_loop fuel E s') as [[r evs] st1] end.
  assert (Hstart : plain thread_started) by (split_and!; done).
  assert (Hplain : Forall plain evs → ¬ takes_log_settings (thread_started :: evs)).
  { intros Hall. apply plain_not_taken. by constructor. }
  destruct r as [|[c a|e]|]; cbn [fst snd]; simpl in Hm.
  - intros (e & Hin & He). exfalso.
    apply elem_of_cons in Hin as [->|Hin]; [done|].
    apply elem_of_app in Hin as [Hin|Hin].
    + rewrite Forall_forall in Hm. destruct (Hm e Hin). congruence.
    + apply elem_of_cons in Hin as [->|Hin]; [done|].
      apply list_elem_of_singleton in Hin as ->. done.
  - intros _. destruct Hm as (-> & -> & pre & e & -> & He & Hpre).
    split_and!; try done.
    + exists (thread_started :: pre), e. split_and!; try done.
      apply plain_not_taken. by constructor.
    + intros Hin. apply elem_of_cons in Hin as [Heq|Hin]; [done|].
      apply elem_of_app in Hin as [Hin|Hin].
      * rewrite Forall_forall in Hpre. by destruct (Hpre _ Hin) as (_ & _ & ?).
      * apply list_elem_of_singleton in Hin as <-. done.
    + intros Hin. apply elem_of_cons in Hin as [Heq|Hin]; [done|].
      apply elem_of_app in Hin as [Hin|Hin].
      * rewrite Forall_forall in Hpre. by destruct (Hpre _ Hin) as (_ & ? & _).
      * apply list_elem_of_singleton in Hin as <-. done.
  - intros Ht. by destruct (Hplain Hm).
  - intros Ht. by destruct (Hplain Hm).
Qed.

End SensorReaderThreadFacts.

Section SensorReaderThreadExamples.
Import SensorReaderThread.

Lemma settings_env_takes_log_settings :
  takes_log_settings (snd (run 10 settings_env 1)).
Proof.
  exists (Get (Some (update_log_settings "/logs" "/archive" "/debug" true
                       [ ("bme280", true) ] "INFO"))).
  split; [|reflexivity]. apply list_elem_of_In. vm_compute.
  repeat (try (left; reflexivity); right).
Qed.

Lemma update_log_settings_ends_the_thread_witness :
  takes_log_settings (snd (run 10 settings_env 1))
  ∧ fst (run 10 settings_env 1) = Raise (AttributeError "DataLogger" "update_config")
  ∧ length (List.filter is_read (snd (run 10 settings_env 1))) = 1%nat.
Proof.
  split; [exact settings_env_takes_log_settings|].
  split; [|reflexivity].
  by destruct (update_log_settings_ends_the_thread settings_env 10 1
                 settings_env_takes_log_settings) as (H & _).
Defined.

End SensorReaderThreadExamples.

Section SensorReaderThreadShutdown.
Import SensorReaderThread.

Variable E : env.

Lemma after_shutdown_cons (e : event) (l post : list event) :
  after_shutdown (e :: l) post →
  (e = shutdown_received ∧ post = l) ∨ after_shutdown l post.
Proof.
  intros [[|e' pre] Heq]; simpl in Heq.
  - injection Heq as -> ->. by left.
  - injection Heq as -> ->. right. by exists pre.
Qed.

Lemma after_shutdown_app (l1 l2 post : list event) :
  after_shutdown (l1 ++ l2) post →
  (∃ p1, after_shutdown l1 p1 ∧ post = p1 ++ l2) ∨ after_shutdown l2 post.
Proof.
  induction l1 as [|e l1 IH]; simpl; [by right|].
  intros H. apply after_shutdown_cons in H as [[-> ->]|H].
  - left. exists l1. split; [by exists []|done].
  - destruct (IH H) as [(p1 & [pre Hp] & ->)|Hr]; [|by right].
    left. exists p1. split; [|done]. exists (e :: pre). by rewrite Hp.
Qed.

Lemma after_shutdown_elem (l post : list event) :
  after_shutdown l post → shutdown_received ∈ l.
Proof. intros [pre ->]. apply elem_of_app. right. apply list_elem_of_here. Qed.

Lemma after_shutdown_suffix (P : event → Prop) (l post : list event) :
  after_shutdown l post → Forall P l → Forall P post.
Proof.
  intros [pre ->] H. apply Forall_app in H as [_ H]. by inversion H.
Qed.

Lemma quiet_winds_down (l : list event) : Forall quiet l → winds_down l.
Proof.
  intros H. split.
  - eapply Forall_impl; [exact H|]. by intros e [? _].
  - induction H as [|e l [_ He] _ IH]; simpl; [lia|]. by rewrite He.
Qed.

Lemma winds_down_app_quiet_l (l1 l2 : list event) :
  Forall quiet l1 → winds_down l2 → winds_down (l1 ++ l2).
Proof.
  intros H1 [H2 H3]. destruct (quiet_winds_down l1 H1) as [H4 _]. split.
  - by apply Forall_app.
  - rewrite List.filter_app, length_app.
    assert (length (List.filter is_read l1) = 0%nat) as ->; [|done].
    clear H4. induction H1 as [|e l [_ He] _ IH]; simpl; [done|]. by rewrite He.
Qed.

Lemma winds_down_app_quiet_r (l1 l2 : list event) :
  winds_down l1 → Forall quiet l2 → winds_down (l1 ++ l2).
Proof.
  intros [H2 H3] H1. destruct (quiet_winds_down l2 H1) as [H4 _]. split.
  - by apply Forall_app.
  - rewrite List.filter_app, length_app.
    assert (length (List.filter is_read l2) = 0%nat) as ->; [|lia].
    clear H4. induction H1 as [|e l [_ He] _ IH]; simpl; [done|]. by rewrite He.
Qed.

(** A message leaves the flag cleared when it is, and the shutdown message
    clears it; what a message records is quiet. *)
Lemma process_shutdown (m : control_message) (st : state) :
  let '(_, evs, st') := _process_control_message E m st in
  Forall quiet evs
  ∧ (_is_running st = false → _is_running st' = false)
  ∧ (shutdown_received ∈ evs → _is_running st' = false).
Proof.
  destruct m; simpl.
  - split_and!; try done. by intros ?%elem_of_nil.
  - destruct (logger_raises E _); split_and!; try done; try by repeat constructor.
    + intros H. apply list_elem_of_singleton in H. discriminate.
    + intros H. apply elem_of_cons in H as [H|H]; [discriminate|].
      apply list_elem_of_singleton in H. discriminate.
  - destruct (_ <=? _); split_and!; try done; try by repeat constructor.
    + intros H. apply list_elem_of_singleton in H. discriminate.
    + intros H. apply list_elem_of_singleton in H. discriminate.
  - split_and!; try done; try by repeat constructor.
    intros H. apply elem_of_cons in H as [H|H]; [discriminate|].
    apply list_elem_of_singleton in H. destruct enable; discriminate.
  - split_and!; try done. by repeat constructor.
  - split_and!; try done; try by repeat constructor.
    intros H. apply list_elem_of_singleton in H. discriminate.
Qed.

Lemma drain_shutdown (fuel : nat) (st : state) :
  let '(_, evs, st') := drain fuel E st in
  Forall quiet evs
  ∧ (_is_running st = false → _is_running st' = false)
  ∧ (shutdown_received ∈ evs → _is_running st' = false).
Proof.
  revert st. induction fuel as [|fuel IH]; intros st; simpl.
  { split_and!; try done. by intros ?%elem_of_nil. }
  destruct (get E (n_gets st)) as [m|].
  2:{ split_and!; try done; try by repeat constructor.
      intros H. apply list_elem_of_singleton in H. discriminate. }
  pose proof (process_shutdown m
    (mk_state (read_interval st) (next_read_time st) (_is_running st) (n_checks st)
       (n_times st) (S (n_gets st)) (n_calls st))) as Hp.
  destruct (_process_control_message E m _) as [[r evs] st1].
  destruct Hp as (Hq & Hkeep & Hsd). cbn [_is_running] in Hkeep.
  assert (Hstop : (Forall quiet (Get (Some m) :: evs)
                   ∧ (_is_running st = false → _is_running st1 = false)
                   ∧ (shutdown_received ∈ Get (Some m) :: evs → _is_running st1 = false))).
  { split_and!; try done; [by constructor|].
    intros H. apply elem_of_cons in H as [H|H]; [discriminate|by apply Hsd]. }
  destruct r as [|e|]; try done.
  specialize (IH st1). destruct (drain fuel E st1) as [[r' evs'] st2].
  destruct IH as (Hq' & Hkeep' & Hsd'). split_and!.
  - constructor; [done|]. by apply Forall_app.
  - intros H. by apply Hkeep', Hkeep.
  - intros H. apply elem_of_cons in H as [H|H]; [discriminate|].
    apply elem_of_app in H as [H|H]; [by apply Hkeep', Hsd|by apply Hsd'].
Qed.

Lemma read_when_due_shutdown (st : state) :
  let '(_, evs, st') := read_when_due E st in
  winds_down evs ∧ (shutdown_received ∉ evs) ∧ _is_running st' = _is_running st.
Proof.
  unfold read_when_due, winds_down. simpl. destruct (ge _ _).
  2:{ split_and!; try done; try (simpl; lia). by intros ?%elem_of_nil. }
  assert (Hno : ∀ l, Forall (fun e => e ≠ shutdown_received) l → shutdown_received ∉ l).
  { intros l Hl Hin. rewrite Forall_forall in Hl. by apply (Hl _ Hin). }
  destruct (logger_raises E (n_calls st));
    [|destruct (logger_raises E (S (n_calls st)))];
    (split_and!; try done; try (by repeat constructor); try (simpl; lia);
     apply Hno; by repeat constructor).
Qed.

Lemma sleep_loop_shutdown (fuel : nat) (time_to_wait : Q) (st : state) :
  let '(_, evs, st') := sleep_loop fuel E time_to_wait st in
(shutdown_received ∉ evs)
  ∧ (_is_running st = false → Forall quiet evs ∧ _is_running st' = false).
Proof.
  revert time_to_wait st. induction fuel as [|fuel IH]; intros w st; simpl.
  { split; [by intros ?%elem_of_nil|done]. }
  destruct (gt w 0); [|split; [by intros ?%elem_of_nil|done]].
  destruct (_is_running st && negb (stop_called E (n_checks st))) eqn:Hb.
  - match goal with |- context [sleep_loop fuel E ?w' ?s'] =>
      specialize (IH w' s'); destruct (sleep_loop fuel E w' s') as [[r evs] st1] end.
    destruct IH as [IH _]. split.
    + intros H. apply elem_of_cons in H as [H|H]; [discriminate|].
      apply elem_of_cons in H as [H|H]; [discriminate|done].
    + intros Hst. rewrite Hst in Hb. discriminate.
  - split.
    + intros H. apply list_elem_of_singleton in H. discriminate.
    + intros _. split; [by repeat constructor|done].
Qed.

Lemma main_loop_stopped (fuel : nat) (st : state) :
  _is_running st = false →
  let '(_, evs, _) := main_loop fuel E st in Forall quiet evs.
Proof.
  intros Hst. destruct fuel as [|fuel]; simpl; [done|].
  rewrite Hst. simpl. by repeat constructor.
Qed.

Lemma main_loop_shutdown (fuel : nat) (st : state) (post : list event) :
  let '(_, evs, _) := main_loop fuel E st in
  after_shutdown evs post → winds_down post.
Proof.
  revert st. induction fuel as [|fuel IH]; intros st; simpl.
  { by intros ?%after_shutdown_elem%elem_of_nil. }
  destruct (_is_running st && negb (stop_called E (n_checks st))).
  2:{ intros H%after_shutdown_elem. apply list_elem_of_singleton in H. discriminate. }
  match goal with |- context [drain fuel E ?s'] =>
    pose proof (drain_shutdown fuel s') as Hd;
    destruct (drain fuel E s') as [[r1 evs1] st1] end.
  destruct Hd as (Hq1 & _ & Hsd1).
  assert (Hfirst : ∀ p1, after_shutdown (IsRunning true :: evs1) p1 →
                         Forall quiet p1 ∧ _is_running st1 = false).
  { intros p1 H. apply after_shutdown_cons in H as [[H _]|H]; [discriminate|].
    split; [by apply (after_shutdown_suffix _ _ _ H)|].
    by apply Hsd1, (after_shutdown_elem _ p1). }
  destruct r1 as [|e1|];
    try (intros H; by apply quiet_winds_down, Hfirst).
  pose proof (read_when_due_shutdown st1) as Hr.
  destruct (read_when_due E st1) as [[r2 evs2] st2].
  destruct Hr as (Hw2 & Hno2 & Hrun2).
  assert (Hsecond : ∀ p, after_shutdown (IsRunning true :: evs1 ++ evs2) p →
                         ∃ p1, p = p1 ++ evs2 ∧ Forall quiet p1 ∧ _is_running st1 = false).
  { intros p H.
    change (IsRunning true :: evs1 ++ evs2) with ((IsRunning true :: evs1) ++ evs2) in H.
    apply after_shutdown_app in H as [(p1 & H & ->)|H].
    - exists p1. split; [done|]. by apply Hfirst.
    - by apply after_shutdown_elem in H. }
  destruct r2 as [|e2|].
  2,3: intros H; destruct (Hsecond _ H) as (p1 & -> & Hp1 & _);
       by apply winds_down_app_quiet_l.
  cbn [now fst snd].
  match goal with |- context [sleep_loop fuel E ?w' ?s'] =>
    pose proof (sleep_loop_shutdown fuel w' s') as Hs;
    destruct (sleep_loop fuel E w' s') as [[r3 evs3] st3] end.
  cbn [_is_running] in Hs. rewrite Hrun2 in Hs. destruct Hs as [Hno3 Hs].
  assert (Hthird : ∀ p, after_shutdown (IsRunning true :: evs1 ++ evs2 ++ evs3) p →
                        ∃ p1, p = p1 ++ evs2 ++ evs3 ∧ Forall quiet p1
                              ∧ Forall quiet evs3 ∧ _is_running st3 = false).
  { intros p H.
    change (IsRunning true :: evs1 ++ evs2 ++ evs3)
      with ((IsRunning true :: evs1) ++ evs2 ++ evs3) in H.
    rewrite app_assoc in H.
    apply after_shutdown_app in H as [(p0 & H & ->)|H].
    - destruct (Hsecond _ H) as (p1 & -> & Hp1 & Hst1).
      exists p1. rewrite <- app_assoc. destruct (Hs Hst1). by split_and!.
    - by apply after_shutdown_elem in H. }
  assert (Hdone : ∀ p, after_shutdown (IsRunning true :: evs1 ++ evs2 ++ evs3) p →
                       winds_down p).
  { intros p H. destruct (Hthird _ H) as (p1 & -> & Hp1 & Hq3 & _).
    apply winds_down_app_quiet_l; [done|]. by apply winds_down_app_quiet_r. }
  destruct r3 as [|e3|]; try apply Hdone.
  pose proof (main_loop_stopped fuel st3) as Hstopped.
  specialize (IH st3). destruct (main_loop fuel E st3) as [[r4 evs4] st4].
  intros H.
  replace (IsRunning true :: evs1 ++ evs2 ++ evs3 ++ evs4)
    with ((IsRunning true :: evs1 ++ evs2 ++ evs3) ++ evs4) in H.
  2:{ simpl. by rewrite <- !app_assoc. }
  apply after_shutdown_app in H as [(p0 & H & ->)|H]; [|by apply IH].
  destruct (Hthird _ H) as (p1 & -> & Hp1 & Hq3 & Hst3).
  rewrite <- !app_assoc. apply winds_down_app_quiet_l; [done|].
  apply winds_down_app_quiet_r; [done|]. apply Forall_app. split; [done|].
  by apply Hstopped.
Qed.

(** X25: the shutdown message does not stop the thread at once.  After the
    thread has processed the shutdown message it still takes what is left on
    the control queue, and it reads the sensors once more when a read is due:
    the flag is looked at only by the two [while] conditions.  What is sure
    is that after the message the thread reads the sensors at most once, does
    not sleep, and never again finds the flag set. *)
Theorem shutdown_allows_one_more_read (fuel : nat) (initial_read_interval : Z)
    (post : list event) :
  after_shutdown (snd (run fuel E initial_read_interval)) post →
  winds_down post.
Proof.
  unfold run. cbn [now].
  match goal with |- context [main_loop fuel E ?s'] =>
    pose proof (main_loop_shutdown fuel s' post) as Hm;
    pose proof (fun p => main_loop_shutdown fuel s' p) as Hm';
    destruct (main_loop fuel E s') as [[r evs] st1] end.
  assert (Hraise : after_shutdown (thread_started :: evs) post → winds_down post).
  { intros H. apply after_shutdown_cons in H as [[H _]|H]; [discriminate|by apply Hm]. }
  destruct r as [|e|]; cbn [snd]; try done.
  intros H. apply after_shutdown_cons in H as [[H _]|H]; [discriminate|].
  apply after_shutdown_app in H as [(p1 & H & ->)|H].
  - apply winds_down_app_quiet_r; [by apply Hm'|]. by repeat constructor.
  - apply after_shutdown_elem in H.
    apply elem_of_cons in H as [H|H]; [discriminate|].
    apply list_elem_of_singleton in H. discriminate.
Qed.

End SensorReaderThreadShutdown.

Section SensorReaderThreadShutdownExample.
Import SensorReaderThread.

Lemma shutdown_env_after_shutdown :
  after_shutdown (snd (run 10 shutdown_env 1)) (drop 4 (snd (run 10 shutdown_env 1))).
Proof.
  exists [ thread_started; IsRunning true; Get (Some shutdown) ].
  vm_compute. reflexivity.
Qed.

Lemma shutdown_allows_one_more_read_witness :
  after_shutdown (snd (run 10 shutdown_env 1)) (drop 4 (snd (run 10 shutdown_env 1)))
  ∧ winds_down (drop 4 (snd (run 10 shutdown_env 1)))
  ∧ fst (run 10 shutdown_env 1) = Done
  ∧ length (List.filter is_read (drop 4 (snd (run 10 shutdown_env 1)))) = 1%nat.
Proof.
  split; [exact shutdown_env_after_shutdown|].
  split; [|split; reflexivity].
  exact (shutdown_allows_one_more_read shutdown_env 10 1 _ shutdown_env_after_shutdown).
Defined.

End SensorReaderThreadShutdownExample.
